(** * A shallow embedding of the Statistics-library replication framework

    The development follows the C++ sources bottom-up: exceptions and
    byte-level data, the standard stream objects the transports wrap,
    the transports ([BinFileIn], [BinFileOut], [CSVFileIn], [CSVFileOut]),
    the converters, the generic [Reader] and [Writer], the
    [OutputManager] and [InputManager], and the casino statistics. *)

From Stdlib Require Import ZArith NArith List Ascii String Bool Lia.
From Stdlib.Strings Require Import Byte.
From Stdlib Require Import Permutation DecimalString DecimalZ Finite.
From stdpp Require Import base option list gmap strings sorting.

Import ListNotations.
Local Open Scope string_scope.
Local Open Scope list_scope.

(** ** Exceptions and fallible results *)

(** The exception classes the library and the standard functions it
    calls throw; each carries its [what()] message. *)
Inductive exception : Type :=
| runtime_error (what : string)
| invalid_argument (what : string)
| out_of_range (what : string)
| filesystem_error (what : string).

Definition what (e : exception) : string :=
  match e with
  | runtime_error w | invalid_argument w | out_of_range w | filesystem_error w => w
  end.

(** [catch (const std::runtime_error &)] also catches the classes derived
    from it; among the classes above only [std::filesystem::filesystem_error]
    (through [std::system_error]) is. *)
Definition is_runtime_error (e : exception) : bool :=
  match e with
  | runtime_error _ | filesystem_error _ => true
  | invalid_argument _ | out_of_range _ => false
  end.

Inductive result (A : Type) : Type :=
| Ok (a : A)
| Throw (e : exception).
Arguments Ok {A} a.
Arguments Throw {A} e.

Definition is_ok {A} (r : result A) : bool :=
  match r with Ok _ => true | Throw _ => false end.

(** ** Bytes and fixed-width integers *)

Definition UINT32_MOD : N := 4294967296.
Definition INT_MAX : Z := 2147483647.

(** [static_cast<uint8_t>(n)] keeps the low eight bits. *)
Definition static_cast_uint8 (n : N) : byte :=
  match Byte.of_N (n mod 256) with
  | Some b => b
  | None => x00
  end.

(** [static_cast<uint32_t>(n)] keeps the low 32 bits. *)
Definition static_cast_uint32 (n : N) : N := n mod UINT32_MOD.

(** Host byte order, which decides what [memcpy] of an integer object
    produces. *)
Inductive endianness : Type := LittleEndian | BigEndian.

(** The [w] low-order bytes of [n], least significant first. *)
Definition le_bytes (w : nat) (n : N) : list byte :=
  map (fun i => static_cast_uint8 (N.shiftr n (8 * N.of_nat i))) (seq 0 w).

(** The value of a byte string read least significant byte first. *)
Fixpoint le_value (bs : list byte) : N :=
  match bs with
  | [] => 0
  | b :: bs' => N.lor (Byte.to_N b) (N.shiftl (le_value bs') 8)
  end.

(** [memcpy(dst, &x, sizeof x)] for a [uint32_t] object [x]. *)
Definition memcpy_from_uint32 (host : endianness) (x : N) : list byte :=
  match host with
  | LittleEndian => le_bytes 4 x
  | BigEndian => rev (le_bytes 4 x)
  end.

(** [memcpy(&x, src, sizeof x)] for a [uint32_t] object [x]; [src] holds
    at least four bytes. *)
Definition memcpy_to_uint32 (host : endianness) (src : list byte) : N :=
  match host with
  | LittleEndian => le_value (take 4 src)
  | BigEndian => le_value (rev (take 4 src))
  end.

(** A [double] is represented by its object representation: the eight
    bytes [memcpy] moves, in memory order.  Two doubles are bit-exact
    equal when these bytes agree. *)
Record double : Type := mk_double {
  d0 : byte; d1 : byte; d2 : byte; d3 : byte;
  d4 : byte; d5 : byte; d6 : byte; d7 : byte
}.

Definition memcpy_from_double (d : double) : list byte :=
  [d0 d; d1 d; d2 d; d3 d; d4 d; d5 d; d6 d; d7 d].

(** [memcpy(&result, src, sizeof(double))]; bytes missing from [src]
    (never the case after the size check of the caller) read as zero. *)
Definition memcpy_to_double (src : list byte) : double :=
  let b i := nth i src x00 in
  mk_double (b 0%nat) (b 1%nat) (b 2%nat) (b 3%nat) (b 4%nat) (b 5%nat) (b 6%nat) (b 7%nat).

(** The literal [0.0]: all bits clear. *)
Definition double_zero : double := mk_double x00 x00 x00 x00 x00 x00 x00 x00.

(** ** The file system and the standard file streams

    The transports wrap [std::ifstream] and [std::ofstream].  These are
    not part of the repository; the definitions below follow the C++
    standard for the operations the transports call.  A file system maps
    the path of every existing regular file to its content. *)

Abbreviation filesystem := (gmap string (list byte)).

(** [std::ios] open mode flags. *)
Record openmode : Type := mk_openmode {
  m_in : bool; m_out : bool; m_trunc : bool; m_app : bool; m_binary : bool
}.

Definition ios_in : openmode := mk_openmode true false false false false.
Definition ios_out : openmode := mk_openmode false true false false false.
Definition ios_binary : openmode := mk_openmode false false false false true.

Definition openmode_or (a b : openmode) : openmode :=
  mk_openmode (m_in a || m_in b) (m_out a || m_out b) (m_trunc a || m_trunc b)
              (m_app a || m_app b) (m_binary a || m_binary b).

(** The [fopen] mode a [basic_filebuf::open] call uses (the [b] suffix
    of binary mode does not change which files can be opened). *)
Inductive fopen_mode : Type :=
| fopen_r | fopen_w | fopen_a | fopen_r_plus | fopen_w_plus | fopen_a_plus.

(** The table of [basic_filebuf::open]: flag combinations that are not
    listed make the open fail. *)
Definition filebuf_mode (m : openmode) : option fopen_mode :=
  match m_in m, m_out m, m_trunc m, m_app m with
  | false, true, false, false => Some fopen_w
  | false, true, true, false => Some fopen_w
  | false, _, false, true => Some fopen_a
  | true, false, false, false => Some fopen_r
  | true, true, false, false => Some fopen_r_plus
  | true, true, true, false => Some fopen_w_plus
  | true, _, false, true => Some fopen_a_plus
  | _, _, _, _ => None
  end.

(** What [fopen] does to the file system, and the content and position
    the stream starts with; [None] when the open fails.  [r] and [r+]
    need an existing file and keep its content; [w] and [w+] create or
    truncate; [a] and [a+] create when missing and position at the end. *)
Definition fopen (fs : filesystem) (path : string) (mode : fopen_mode)
  : option (filesystem * nat) :=
  match mode with
  | fopen_r | fopen_r_plus =>
      match fs !! path with
      | Some _ => Some (fs, 0%nat)
      | None => None
      end
  | fopen_w | fopen_w_plus => Some (<[path := []]> fs, 0%nat)
  | fopen_a | fopen_a_plus =>
      match fs !! path with
      | Some content => Some (fs, length content)
      | None => Some (<[path := []]> fs, 0%nat)
      end
  end.

(** *** [std::ifstream] *)

Record ifstream : Type := mk_ifstream {
  in_is_open : bool;
  in_pending : list byte;  (** bytes of the file not yet extracted *)
  in_eofbit : bool;
  in_failbit : bool        (** [failbit] or [badbit]: what [operator!] tests *)
}.

Definition ifstream_new : ifstream := mk_ifstream false [] false false.

Definition ifstream_good (s : ifstream) : bool :=
  negb (in_eofbit s) && negb (in_failbit s).

Definition ifstream_setfail (s : ifstream) : ifstream :=
  mk_ifstream (in_is_open s) (in_pending s) (in_eofbit s) true.

(** [s.open(path, mode)]: opens with [mode | in]; on success the state
    is cleared, on failure [failbit] is set. *)
Definition ifstream_open (fs : filesystem) (path : string) (mode : openmode)
    (s : ifstream) : ifstream :=
  if in_is_open s then ifstream_setfail s
  else
    match filebuf_mode (openmode_or mode ios_in) with
    | Some (fopen_r as fm) | Some (fopen_r_plus as fm) =>
        match fopen fs path fm, fs !! path with
        | Some _, Some content => mk_ifstream true content false false
        | _, _ => ifstream_setfail s
        end
    | _ => ifstream_setfail s
    end.

(** [s.close()]: fails, setting [failbit], when no file is open. *)
Definition ifstream_close (s : ifstream) : ifstream :=
  if in_is_open s then mk_ifstream false [] (in_eofbit s) (in_failbit s)
  else ifstream_setfail s.

(** [s.read(buf, n)]: the bytes stored into [buf] and the new state.
    Reading past the end stores what is there and sets [eofbit] and
    [failbit]; a stream that is not good stores nothing. *)
Definition ifstream_read (n : nat) (s : ifstream) : list byte * ifstream :=
  if negb (ifstream_good s) then ([], ifstream_setfail s)
  else if (n <=? length (in_pending s))%nat then
    (take n (in_pending s),
     mk_ifstream (in_is_open s) (drop n (in_pending s)) false false)
  else
    (in_pending s, mk_ifstream (in_is_open s) [] true true).

Definition newline : byte := x0a.

(** Splits at the first newline: the line and, when a newline was found,
    what follows it. *)
Fixpoint split_line (bs : list byte) : list byte * option (list byte) :=
  match bs with
  | [] => ([], None)
  | b :: bs' =>
      if Byte.eqb b newline then ([], Some bs')
      else let '(line, rest) := split_line bs' in (b :: line, rest)
  end.

(** [std::getline(s, line)]: extracts up to and including the next
    newline; at end of file sets [eofbit], and [failbit] too when no
    character was extracted. *)
Definition ifstream_getline (s : ifstream) : string * ifstream :=
  if negb (ifstream_good s) then ("", ifstream_setfail s)
  else
    match split_line (in_pending s) with
    | (line, Some rest) =>
        (string_of_list_byte line, mk_ifstream (in_is_open s) rest false false)
    | (line, None) =>
        (string_of_list_byte line,
         mk_ifstream (in_is_open s) [] true
                     (match line with [] => true | _ => false end))
    end.

(** *** [std::ofstream] *)

Record ofstream : Type := mk_ofstream {
  out_file : option string;  (** path of the open file *)
  out_pos : nat;             (** put position *)
  out_failbit : bool         (** [failbit] or [badbit] *)
}.

Definition ofstream_new : ofstream := mk_ofstream None 0 false.

Definition ofstream_is_open (s : ofstream) : bool :=
  match out_file s with Some _ => true | None => false end.

Definition ofstream_setfail (s : ofstream) : ofstream :=
  mk_ofstream (out_file s) (out_pos s) true.

(** [s.open(path, mode)]: opens with [mode | out]. *)
Definition ofstream_open (fs : filesystem) (path : string) (mode : openmode)
    (s : ofstream) : filesystem * ofstream :=
  if ofstream_is_open s then (fs, ofstream_setfail s)
  else
    match filebuf_mode (openmode_or mode ios_out) with
    | Some fm =>
        match fopen fs path fm with
        | Some (fs', pos) => (fs', mk_ofstream (Some path) pos false)
        | None => (fs, ofstream_setfail s)
        end
    | None => (fs, ofstream_setfail s)
    end.

Definition ofstream_close (s : ofstream) : ofstream :=
  if ofstream_is_open s then mk_ofstream None 0 (out_failbit s)
  else ofstream_setfail s.

(** Storing [data] at offset [pos] of a file: bytes there are replaced,
    the file grows when the data extends past its end. *)
Definition overwrite (pos : nat) (data old : list byte) : list byte :=
  take pos old ++ data ++ drop (pos + length data) old.

(** [s.write(data, n)]; the file is updated at once (buffering only
    delays this until the stream is flushed or closed). *)
Definition ofstream_write (fs : filesystem) (data : list byte) (s : ofstream)
  : filesystem * ofstream :=
  if out_failbit s then (fs, s)
  else
    match out_file s with
    | Some path =>
        match fs !! path with
        | Some old =>
            (<[path := overwrite (out_pos s) data old]> fs,
             mk_ofstream (Some path) (out_pos s + length data) false)
        | None => (fs, ofstream_setfail s)
        end
    | None => (fs, ofstream_setfail s)
    end.

(** ** Transports

    [File], [FileIn<O>] and [FileOut<O>] are abstract classes; a type
    class per role lists their virtual functions.  Functions that can
    throw return a [result]; those that touch files take the file system
    and, when they can change it, return it. *)

Class FileIn (F O : Type) : Type := {
  fin_new : F;
  fin_open : filesystem -> string -> F -> result unit * F;
  fin_close : F -> F;
  fin_read : F -> result O * F
}.

Class FileOut (F O : Type) : Type := {
  fout_new : F;
  fout_open : filesystem -> string -> F -> result unit * filesystem * F;
  fout_close : F -> F;
  fout_write : filesystem -> O -> F -> result unit * filesystem * F
}.

(** *** [BinFileIn] *)

Record BinFileIn : Type := mk_BinFileIn { bin_inFile : ifstream }.

Definition BinFileIn_close (f : BinFileIn) : BinFileIn :=
  if in_is_open (bin_inFile f) then mk_BinFileIn (ifstream_close (bin_inFile f))
  else f.

Definition BinFileIn_open (fs : filesystem) (file : string) (f : BinFileIn)
  : result unit * BinFileIn :=
  let f1 := BinFileIn_close f in
  let s := ifstream_open fs file (openmode_or ios_binary ios_in) (bin_inFile f1) in
  if in_failbit s
  then (Throw (runtime_error ("Failed to open file: " ++ file)), mk_BinFileIn s)
  else (Ok tt, mk_BinFileIn s).

(** How the loop over the four length bytes ends. *)
Inductive size_field : Type :=
| size_eof                 (** [return {}] inside the loop *)
| size_failed              (** the throw inside the loop *)
| size_read (dataSize : N) (** the loop ran to completion *).

(** The [for] loop of [BinFileIn::read], with [todo] iterations left,
    loop index [i] and the bits gathered so far in [dataSize]. *)
Fixpoint read_size_field (todo : nat) (i : N) (dataSize : N) (s : ifstream)
  : size_field * ifstream :=
  match todo with
  | O => (size_read dataSize, s)
  | S todo' =>
      let '(got, s1) := ifstream_read 1 s in
      if in_eofbit s1 then (size_eof, s1)
      else if in_failbit s1 then (size_failed, s1)
      else
        let byte := nth 0 got x00 in
        read_size_field todo' (i + 1)
          (N.lor dataSize (static_cast_uint32 (N.shiftl (Byte.to_N byte) (i * 8))))
          s1
  end.

(** [buffer.resize(dataSize)] fills the buffer with zero bytes (the
    allocation is taken to succeed); the stream read then stores what it
    extracted at its front. *)
Definition fill_buffer (dataSize : nat) (got : list byte) : list byte :=
  got ++ repeat x00 (dataSize - length got).

Definition BinFileIn_read (f : BinFileIn) : result (list byte) * BinFileIn :=
  let s := bin_inFile f in
  if in_failbit s then (Throw (runtime_error "No file opened for reading"), f)
  else
    match read_size_field 4 0 0 s with
    | (size_eof, s1) => (Ok [], mk_BinFileIn s1)
    | (size_failed, s1) =>
        (Throw (runtime_error "Failed to read data size"), mk_BinFileIn s1)
    | (size_read dataSize, s1) =>
        let '(got, s2) := ifstream_read (N.to_nat dataSize) s1 in
        let buffer := fill_buffer (N.to_nat dataSize) got in
        if in_failbit s2 && negb (in_eofbit s2)
        then (Throw (runtime_error "Failed to read data content"), mk_BinFileIn s2)
        else (Ok buffer, mk_BinFileIn s2)
    end.

#[export] Instance BinFileIn_FileIn : FileIn BinFileIn (list byte) := {
  fin_new := mk_BinFileIn ifstream_new;
  fin_open := BinFileIn_open;
  fin_close := BinFileIn_close;
  fin_read := BinFileIn_read
}.

(** *** [BinFileOut] *)

Record BinFileOut : Type := mk_BinFileOut { bin_outFile : ofstream }.

Definition BinFileOut_close (f : BinFileOut) : BinFileOut :=
  if ofstream_is_open (bin_outFile f) then mk_BinFileOut (ofstream_close (bin_outFile f))
  else f.

Definition BinFileOut_open (fs : filesystem) (file : string) (f : BinFileOut)
  : result unit * filesystem * BinFileOut :=
  let f1 := BinFileOut_close f in
  let '(fs', s) :=
    ofstream_open fs file (openmode_or ios_binary ios_in) (bin_outFile f1) in
  if out_failbit s
  then (Throw (runtime_error ("Failed to open file: " ++ file)), fs', mk_BinFileOut s)
  else (Ok tt, fs', mk_BinFileOut s).

(** The four single-byte writes of the length, least significant first. *)
Fixpoint write_size_field (todo : nat) (i : N) (dataSize : N)
    (fs : filesystem) (s : ofstream) : filesystem * ofstream :=
  match todo with
  | O => (fs, s)
  | S todo' =>
      let byte := static_cast_uint8 (N.shiftr dataSize (i * 8)) in
      let '(fs1, s1) := ofstream_write fs [byte] s in
      write_size_field todo' (i + 1) dataSize fs1 s1
  end.

Definition BinFileOut_write (fs : filesystem) (data : list byte) (f : BinFileOut)
  : result unit * filesystem * BinFileOut :=
  let s := bin_outFile f in
  if out_failbit s then (Throw (runtime_error "Failed to open file for writing"), fs, f)
  else
    let dataSize := static_cast_uint32 (N.of_nat (length data)) in
    let '(fs1, s1) := write_size_field 4 0 dataSize fs s in
    let '(fs2, s2) := ofstream_write fs1 data s1 in
    (Ok tt, fs2, mk_BinFileOut s2).

#[export] Instance BinFileOut_FileOut : FileOut BinFileOut (list byte) := {
  fout_new := mk_BinFileOut ofstream_new;
  fout_open := BinFileOut_open;
  fout_close := BinFileOut_close;
  fout_write := BinFileOut_write
}.

(** *** [CSVFileIn] and [CSVFileOut] *)

Record CSVFileIn : Type := mk_CSVFileIn { csv_inFile : ifstream }.

Definition CSVFileIn_close (f : CSVFileIn) : CSVFileIn :=
  if in_is_open (csv_inFile f) then mk_CSVFileIn (ifstream_close (csv_inFile f))
  else f.

Definition CSVFileIn_open (fs : filesystem) (file : string) (f : CSVFileIn)
  : result unit * CSVFileIn :=
  let f1 := CSVFileIn_close f in
  let s := ifstream_open fs file (openmode_or ios_binary ios_in) (csv_inFile f1) in
  if in_failbit s
  then (Throw (runtime_error ("Failed to open file: " ++ file)), mk_CSVFileIn s)
  else (Ok tt, mk_CSVFileIn s).

Definition CSVFileIn_read (f : CSVFileIn) : result string * CSVFileIn :=
  let '(line, s1) := ifstream_getline (csv_inFile f) in
  if in_failbit s1 then
    if in_eofbit s1
    then (Throw (runtime_error "End of file reached"), mk_CSVFileIn s1)
    else (Throw (runtime_error "Error reading file"), mk_CSVFileIn s1)
  else (Ok line, mk_CSVFileIn s1).

#[export] Instance CSVFileIn_FileIn : FileIn CSVFileIn string := {
  fin_new := mk_CSVFileIn ifstream_new;
  fin_open := CSVFileIn_open;
  fin_close := CSVFileIn_close;
  fin_read := CSVFileIn_read
}.

Record CSVFileOut : Type := mk_CSVFileOut { csv_outFile : ofstream }.

Definition CSVFileOut_close (f : CSVFileOut) : CSVFileOut :=
  if ofstream_is_open (csv_outFile f) then mk_CSVFileOut (ofstream_close (csv_outFile f))
  else f.

Definition CSVFileOut_open (fs : filesystem) (file : string) (f : CSVFileOut)
  : result unit * filesystem * CSVFileOut :=
  let f1 := CSVFileOut_close f in
  let '(fs', s) :=
    ofstream_open fs file (openmode_or ios_binary ios_in) (csv_outFile f1) in
  if out_failbit s
  then (Throw (runtime_error ("Failed to open file: " ++ file)), fs', mk_CSVFileOut s)
  else (Ok tt, fs', mk_CSVFileOut s).

Definition CSVFileOut_write (fs : filesystem) (data : string) (f : CSVFileOut)
  : result unit * filesystem * CSVFileOut :=
  let s := csv_outFile f in
  if out_failbit s then (Throw (runtime_error "No file opened for writing"), fs, f)
  else
    let '(fs1, s1) := ofstream_write fs (list_byte_of_string data) s in
    let '(fs2, s2) := ofstream_write fs1 [newline] s1 in
    (Ok tt, fs2, mk_CSVFileOut s2).

#[export] Instance CSVFileOut_FileOut : FileOut CSVFileOut string := {
  fout_new := mk_CSVFileOut ofstream_new;
  fout_open := CSVFileOut_open;
  fout_close := CSVFileOut_close;
  fout_write := CSVFileOut_write
}.

(** Ghost accessor used only to bound the loop of [Reader::load]: the
    number of bytes a transport has not extracted yet. *)
Class Pending (F : Type) : Type := pending : F -> nat.

#[export] Instance BinFileIn_Pending : Pending BinFileIn :=
  fun f => length (in_pending (bin_inFile f)).
#[export] Instance CSVFileIn_Pending : Pending CSVFileIn :=
  fun f => length (in_pending (csv_inFile f)).

(** [Reader::read] tests [fileData.empty()] when the unit of exchange is
    a [std::string] or a [std::vector<uint8_t>]. *)
Class ExchangeUnit (O : Type) : Type := unit_empty : O -> bool.

#[export] Instance string_ExchangeUnit : ExchangeUnit string :=
  fun s => match s with EmptyString => true | String _ _ => false end.
#[export] Instance bytes_ExchangeUnit : ExchangeUnit (list byte) :=
  fun v => match v with [] => true | _ :: _ => false end.

(** ** Converters *)

(** [Converter<T, O>]: the two overloads of [convert]. *)
Class Converter (T O : Type) : Type := {
  convert_to : T -> O;
  convert_from : O -> result T
}.

(** The byte order of the machine the program runs on. *)
Class Host : Type := host_endianness : endianness.

Definition little_endian_host : Host := LittleEndian.
Definition big_endian_host : Host := BigEndian.

(** [CasinoBinConverter::convert(const double &)] *)
Definition CasinoBinConverter_encode {host : Host} (data : double) : list byte :=
  let count := 1%N in
  memcpy_from_uint32 host_endianness count ++ memcpy_from_double data.

(** [CasinoBinConverter::convert(const std::vector<uint8_t> &)] *)
Definition CasinoBinConverter_decode {host : Host} (data : list byte) : result double :=
  if (length data <? 4 + 8)%nat
  then Throw (runtime_error "Invalid data size for double conversion")
  else
    let count := memcpy_to_uint32 host_endianness data in
    if negb (count =? 1)%N
    then Throw (runtime_error "Expected count of 1 for single double conversion")
    else Ok (memcpy_to_double (drop 4 data)).

#[export] Instance CasinoBinConverter {host : Host} : Converter double (list byte) := {
  convert_to := CasinoBinConverter_encode;
  convert_from := CasinoBinConverter_decode
}.

(** The text conversions [CasinoCSVConverter] delegates to: output with
    [std::fixed << std::setprecision(2)] and [std::stod].  They are
    floating-point library functions and stay parameters. *)
Class FloatText : Type := {
  format_fixed2 : double -> string;
  stod : string -> result double
}.

#[export] Instance CasinoCSVConverter {ft : FloatText} : Converter double string := {
  convert_to := format_fixed2;
  convert_from := stod
}.

(** [std::string::find(needle) != npos] *)
Fixpoint contains (needle hay : string) : bool :=
  if String.prefix needle hay then true
  else match hay with
       | EmptyString => false
       | String _ hay' => contains needle hay'
       end.

(** ** [Reader<T, C, F>] *)

Record Reader (T F : Type) : Type := mk_Reader {
  r_file : F;
  r_data : list T;
  r_path : string;
  r_isOpen : bool
}.
Arguments mk_Reader {T F}.
Arguments r_file {T F}.
Arguments r_data {T F}.
Arguments r_path {T F}.
Arguments r_isOpen {T F}.

Section ReaderOps.
Context {T O F : Type}.
Context {conv : Converter T O} {fin : FileIn F O}.
Context {eu : ExchangeUnit O} {pend : Pending F}.

(** [Reader(const std::string &pFile)] *)
Definition Reader_new (pFile : string) : Reader T F :=
  mk_Reader fin_new [] pFile false.

Definition Reader_open (fs : filesystem) (pFile : string) (r : Reader T F)
  : result unit * Reader T F :=
  match fin_open fs pFile (r_file r) with
  | (Ok _, f') => (Ok tt, mk_Reader f' (r_data r) (r_path r) true)
  | (Throw e, f') =>
      (Throw (runtime_error
                ("Failed to open file: " ++ pFile ++ " (" ++ what e ++ ")")),
       mk_Reader f' (r_data r) (r_path r) (r_isOpen r))
  end.

Definition Reader_close (r : Reader T F) : Reader T F :=
  mk_Reader (fin_close (r_file r)) (r_data r) (r_path r) false.

Definition Reader_flush (r : Reader T F) : Reader T F :=
  mk_Reader (r_file r) [] (r_path r) (r_isOpen r).

Definition Reader_getData (r : Reader T F) : list T := r_data r.

(** The [try] block of [Reader::read] and its handler, which rethrows
    every [std::exception] as a [std::runtime_error]. *)
Definition Reader_read_opened (r : Reader T F) : result T * Reader T F :=
  let wrap e := Throw (runtime_error ("Failed to read/convert data: " ++ what e)) in
  match fin_read (r_file r) with
  | (Throw e, f') => (wrap e, mk_Reader f' (r_data r) (r_path r) (r_isOpen r))
  | (Ok fileData, f') =>
      let r' := mk_Reader f' (r_data r) (r_path r) (r_isOpen r) in
      if unit_empty fileData
      then (wrap (runtime_error "End of file reached"), r')
      else
        match convert_from fileData with
        | Ok v => (Ok v, r')
        | Throw e => (wrap e, r')
        end
  end.

Definition Reader_read (fs : filesystem) (r : Reader T F) : result T * Reader T F :=
  if negb (r_isOpen r) then
    match Reader_open fs (r_path r) r with
    | (Throw e, r1) => (Throw e, r1)
    | (Ok _, r1) => Reader_read_opened r1
    end
  else Reader_read_opened r.

Definition Reader_push_back (item : T) (r : Reader T F) : Reader T F :=
  mk_Reader (r_file r) (r_data r ++ [item]) (r_path r) (r_isOpen r).

(** The [while (true)] loop of [Reader::load] with both handlers.
    [cerr] collects the lines written to [std::cerr].  The result is
    [None] when [fuel] iterations did not reach a [break]. *)
Fixpoint Reader_load_loop (fuel : nat) (fs : filesystem) (r : Reader T F)
    (cerr : list string) : option (result unit * Reader T F * list string) :=
  match fuel with
  | 0%nat => None
  | S fuel' =>
      match Reader_read fs r with
      | (Ok item, r1) => Reader_load_loop fuel' fs (Reader_push_back item r1) cerr
      | (Throw e, r1) =>
          if is_runtime_error e then
            if contains "End of file" (what e) then Some (Ok tt, r1, cerr)
            else Some (Ok tt, r1, cerr ++ [("Error reading file: " ++ what e)%string])
          else Some (Throw e, r1, cerr ++ [("Error during load: " ++ what e)%string])
      end
  end.

(** [Reader::load]: every unit read consumes input, so one iteration
    more than the number of pending bytes is enough fuel. *)
Definition Reader_load (fs : filesystem) (r : Reader T F)
  : option (result unit * Reader T F * list string) :=
  let opened :=
    if negb (r_isOpen r) then
      if bool_decide (r_path r = "")
      then (Throw (runtime_error "File path is not set"), r)
      else Reader_open fs (r_path r) r
    else (Ok tt, r) in
  match opened with
  | (Throw e, r1) => Some (Throw e, r1, [])
  | (Ok _, r1) =>
      let r2 := Reader_flush r1 in
      match Reader_load_loop (S (pending (r_file r2))) fs r2 [] with
      | None => None
      | Some (Throw e, r3, cerr) => Some (Throw e, r3, cerr)
      | Some (Ok _, r3, cerr) => Some (Ok tt, Reader_close r3, cerr)
      end
  end.

(** What a transport hands out from the state [f] on: the values of its
    successive units, in order, up to the first [read] that throws, the
    first empty unit or the first unit the converter rejects, and the
    transport that last [read] leaves. *)
Inductive decoded_units : F -> list T -> F -> Prop :=
| decoded_read_throws f e f' :
    fin_read f = (Throw e, f') -> decoded_units f [] f'
| decoded_empty_unit f u f' :
    fin_read f = (Ok u, f') -> unit_empty u = true -> decoded_units f [] f'
| decoded_bad_unit f u f' e :
    fin_read f = (Ok u, f') -> unit_empty u = false ->
    convert_from u = Throw e -> decoded_units f [] f'
| decoded_unit f u f' item items fend :
    fin_read f = (Ok u, f') -> unit_empty u = false ->
    convert_from u = Ok item ->
    decoded_units f' items fend -> decoded_units f (item :: items) fend.

(** What [load()] does on the reader [r], for a transport whose closed
    states are [closed] and whose files hold the values [file_items]
    tells.  It returns.  It throws only when [r] is not open and either
    has no path or the open of the transport throws; the buffer is then
    as it was.  Otherwise the reader it leaves is marked closed, its
    transport is closed, and its buffer holds, with nothing of the prior
    buffer, exactly the values of the units the transport hands out
    from the state the open left (or the state it was in, for a reader
    already open); for a reader that had to be opened these are the
    values of the file at its path. *)
Definition load_contract (file_items : list byte -> list T -> Prop) (closed : F -> Prop)
    (fs : filesystem) (r : Reader T F) : Prop :=
  exists res r' cerr,
    Reader_load fs r = Some (res, r', cerr) /\
    match res with
    | Throw e =>
        r_isOpen r = false /\ r_data r' = r_data r /\
        (r_path r = "" /\ e = runtime_error "File path is not set" \/
         r_path r <> "" /\
         exists e0 f',
           fin_open fs (r_path r) (r_file r) = (Throw e0, f') /\
           e = runtime_error
                 ("Failed to open file: " ++ r_path r ++ " (" ++ what e0 ++ ")"))
    | Ok _ =>
        exists f0 fend,
          (if r_isOpen r then f0 = r_file r
           else r_path r <> "" /\
                fin_open fs (r_path r) (r_file r) = (Ok tt, f0) /\
                exists content,
                  fs !! r_path r = Some content /\ file_items content (r_data r')) /\
          decoded_units f0 (r_data r') fend /\
          r' = mk_Reader (fin_close fend) (r_data r') (r_path r) false /\
          closed (r_file r')
    end.
End ReaderOps.

(** [CasinoBinReader] and [CasinoCSVReader] *)
Abbreviation CasinoBinReader := (Reader double BinFileIn).
Abbreviation CasinoCSVReader := (Reader double CSVFileIn).

(** ** [Writer<T, C, F>] *)

Record Writer (F : Type) : Type := mk_Writer {
  w_file : F;
  w_path : string;
  w_isOpen : bool
}.
Arguments mk_Writer {F}.
Arguments w_file {F}.
Arguments w_path {F}.
Arguments w_isOpen {F}.

Section WriterOps.
Context {T O F : Type}.
Context {conv : Converter T O} {fout : FileOut F O}.

(** [Writer(const std::string &pFile)] *)
Definition Writer_new (pFile : string) : Writer F :=
  mk_Writer fout_new pFile false.

Definition Writer_open (fs : filesystem) (pFile : string) (w : Writer F)
  : result unit * filesystem * Writer F :=
  match fout_open fs pFile (w_file w) with
  | (Ok _, fs', f') => (Ok tt, fs', mk_Writer f' (w_path w) true)
  | (Throw e, fs', f') =>
      (Throw (runtime_error
                ("Failed to open file: " ++ pFile ++ " (" ++ what e ++ ")")),
       fs', mk_Writer f' (w_path w) (w_isOpen w))
  end.

Definition Writer_close (w : Writer F) : Writer F :=
  mk_Writer (fout_close (w_file w)) (w_path w) false.

(** The lazy open shared by both overloads of [Writer::write]. *)
Definition Writer_ensure_open (fs : filesystem) (w : Writer F)
  : result unit * filesystem * Writer F :=
  if negb (w_isOpen w) then
    if bool_decide (w_path w = "")
    then (Throw (runtime_error "File path is not set"), fs, w)
    else Writer_open fs (w_path w) w
  else (Ok tt, fs, w).

(** [file.write(converter.convert(data))] *)
Definition Writer_put (fs : filesystem) (data : T) (w : Writer F)
  : result unit * filesystem * Writer F :=
  match fout_write fs (convert_to data) (w_file w) with
  | (res, fs', f') => (res, fs', mk_Writer f' (w_path w) (w_isOpen w))
  end.

(** [Writer::write(const T &)] *)
Definition Writer_write (fs : filesystem) (data : T) (w : Writer F)
  : result unit * filesystem * Writer F :=
  match Writer_ensure_open fs w with
  | (Throw e, fs1, w1) => (Throw e, fs1, w1)
  | (Ok _, fs1, w1) => Writer_put fs1 data w1
  end.

(** The [std::ranges::for_each] of the range overload. *)
Fixpoint Writer_put_each (fs : filesystem) (dataRange : list T) (w : Writer F)
  : result unit * filesystem * Writer F :=
  match dataRange with
  | [] => (Ok tt, fs, w)
  | item :: rest =>
      match Writer_put fs item w with
      | (Throw e, fs1, w1) => (Throw e, fs1, w1)
      | (Ok _, fs1, w1) => Writer_put_each fs1 rest w1
      end
  end.

(** [Writer::write(const Range &)] *)
Definition Writer_write_range (fs : filesystem) (dataRange : list T) (w : Writer F)
  : result unit * filesystem * Writer F :=
  match Writer_ensure_open fs w with
  | (Throw e, fs1, w1) => (Throw e, fs1, w1)
  | (Ok _, fs1, w1) => Writer_put_each fs1 dataRange w1
  end.
End WriterOps.

(** [CasinoBinWriter] and [CasinoCSVWriter] *)
Abbreviation CasinoBinWriter := (Writer BinFileOut).
Abbreviation CasinoCSVWriter := (Writer CSVFileOut).

(** Writing a sequence with a [CasinoBinWriter] bound to [path], closing
    it, and loading the file with a fresh [CasinoBinReader]: the outcome
    of the write, and of the load with the loaded data. *)
Definition bin_write_then_load {host : Host} (fs : filesystem) (path : string)
    (values : list double)
  : result unit * option (result unit * list double) :=
  match Writer_write_range fs values (Writer_new (F:=BinFileOut) path) with
  | (wres, fs1, w1) =>
      let w2 := Writer_close w1 in
      (wres,
       match Reader_load fs1 (Reader_new (T:=double) (F:=BinFileIn) path) with
       | Some (rres, r, _) => Some (rres, Reader_getData r)
       | None => None
       end)
  end.

(** ** Standard string functions used by the managers *)

Definition SIZE_MOD : N := 18446744073709551616.

(** [std::string::npos], the largest [size_t]. *)
Definition npos : N := SIZE_MOD - 1.

Definition INT_MIN : Z := -2147483648.

Definition char_in (c : ascii) (chars : string) : bool :=
  existsb (Ascii.eqb c) (list_ascii_of_string chars).

Fixpoint find_last_not_of_from (chars s : string) (i found : N) : N :=
  match s with
  | EmptyString => found
  | String c s' =>
      find_last_not_of_from chars s' (i + 1) (if char_in c chars then found else i)
  end.

(** [s.find_last_not_of(chars)]: the index of the last character of [s]
    that is not in [chars], or [npos]. *)
Definition find_last_not_of (chars s : string) : N :=
  find_last_not_of_from chars s 0 npos.

(** [find_last_not_of(...) + 1] in [size_t] arithmetic: [npos + 1] wraps
    to zero. *)
Definition size_t_succ (n : N) : N := (n + 1) mod SIZE_MOD.

Fixpoint string_drop (n : nat) (s : string) : string :=
  match n, s with
  | O, _ => s
  | S n', String _ s' => string_drop n' s'
  | S _, EmptyString => EmptyString
  end.

(** [s.substr(pos)] *)
Definition substr (s : string) (pos : N) : result string :=
  if (N.of_nat (String.length s) <? pos)%N
  then Throw (out_of_range "basic_string::substr")
  else Ok (string_drop (N.to_nat pos) s).

Definition is_digit (c : ascii) : bool := char_in c "0123456789".

Definition is_space (c : ascii) : bool :=
  let n := N_of_ascii c in ((n =? 32) || ((9 <=? n) && (n <=? 13)))%N.

Fixpoint skip_spaces (s : string) : string :=
  match s with
  | String c s' => if is_space c then skip_spaces s' else s
  | EmptyString => s
  end.

(** The value of the leading run of decimal digits of [s], continuing
    from [acc]; [None] when [s] does not start with a digit and no digit
    was seen before ([seen = false]). *)
Fixpoint leading_digits (s : string) (seen : bool) (acc : Z) : option Z :=
  match s with
  | String c s' =>
      if is_digit c
      then leading_digits s' true (10 * acc + Z.of_N (N_of_ascii c - 48))
      else if seen then Some acc else None
  | EmptyString => if seen then Some acc else None
  end.

(** [std::stoi(s)]: optional white space, optional sign, decimal digits.
    Throws [std::invalid_argument] when there is no digit and
    [std::out_of_range] when the value does not fit an [int]. *)
Definition stoi (s : string) : result Z :=
  let s1 := skip_spaces s in
  let '(negative, s2) :=
    match s1 with
    | String "-" rest => (true, rest)
    | String "+" rest => (false, rest)
    | _ => (false, s1)
    end in
  match leading_digits s2 false 0 with
  | None => Throw (invalid_argument "stoi")
  | Some magnitude =>
      let value := if negative then (- magnitude)%Z else magnitude in
      if ((INT_MIN <=? value) && (value <=? INT_MAX))%Z then Ok value
      else Throw (out_of_range "stoi")
  end.

(** [std::to_string(int)] *)
Definition to_string (z : Z) : string := NilZero.string_of_int (Z.to_int z).

(** The integer a directory name ends with, as both managers extract it:
    [std::stoi(name.substr(name.find_last_not_of("0123456789") + 1))]. *)
Definition trailing_number (name : string) : result Z :=
  let numStart := size_t_succ (find_last_not_of "0123456789" name) in
  match substr name numStart with
  | Throw e => Throw e
  | Ok digits => stoi digits
  end.

(** [std::sort(first, last, comp)].  The standard fixes the result only
    as some permutation that [comp] orders; insertion from the right is
    the executable model used here ([sorted_by] below states the
    postcondition itself). *)
Fixpoint linear_insert {A} (comp : A -> A -> bool) (val : A) (rev_sorted : list A)
  : list A :=
  match rev_sorted with
  | [] => [val]
  | prev :: rest =>
      if comp val prev then prev :: linear_insert comp val rest
      else val :: prev :: rest
  end.

Definition std_sort {A} (comp : A -> A -> bool) (l : list A) : list A :=
  rev (fold_left (fun rev_sorted val => linear_insert comp val rev_sorted) l []).

(** No element is ordered before one that precedes it. *)
Fixpoint sorted_by {A} (comp : A -> A -> bool) (l : list A) : bool :=
  match l with
  | [] => true
  | x :: l' => forallb (fun y => negb (comp y x)) l' && sorted_by comp l'
  end.

(** ** [Replication] *)

Record Replication (Rd : Type) : Type := mk_Replication {
  rep_name : string;
  rep_basePath : string;
  rep_readers : list Rd
}.
Arguments mk_Replication {Rd}.
Arguments rep_name {Rd}.
Arguments rep_basePath {Rd}.
Arguments rep_readers {Rd}.

(** The last character of a non-empty string. *)
Fixpoint string_back (s : string) : option ascii :=
  match s with
  | EmptyString => None
  | String c EmptyString => Some c
  | String _ s' => string_back s'
  end.

(** The normalisation every [setBasePath] performs: a non-empty path
    gets a final slash. *)
Definition with_final_slash (path : string) : string :=
  match string_back path with
  | None => path
  | Some c => if Ascii.eqb c "/" then path else path ++ "/"
  end.

(** The pure virtual [Replication::init], which registers the readers
    of the channels. *)
Class ReplicationInit (Rd : Type) : Type :=
  Replication_init : Replication Rd -> Replication Rd.

Section ReplicationOps.
Context {Rd : Type}.

Definition Replication_new (name : string) : Replication Rd :=
  mk_Replication name "" [].

Definition Replication_setBasePath (path : string) (r : Replication Rd)
  : Replication Rd :=
  mk_Replication (rep_name r) (with_final_slash path) (rep_readers r).

Definition Replication_setName (newName : string) (r : Replication Rd)
  : Replication Rd :=
  mk_Replication newName (rep_basePath r) (rep_readers r).

Definition Replication_registerReader (reader : Rd) (r : Replication Rd)
  : Replication Rd :=
  mk_Replication (rep_name r) (rep_basePath r) (rep_readers r ++ [reader]).

(** [getReader<R>(int index)] *)
Definition Replication_getReader (index : Z) (r : Replication Rd) : result Rd :=
  if ((index <? 0) || (Z.of_nat (length (rep_readers r)) <=? index))%Z
  then Throw (out_of_range "Index out of range")
  else match rep_readers r !! Z.to_nat index with
       | Some reader => Ok reader
       | None => Throw (out_of_range "Index out of range")
       end.

Definition Replication_getReaderCount (r : Replication Rd) : nat :=
  length (rep_readers r).
End ReplicationOps.

(** The channel files of a casino replication, in channel order. *)
Definition casino_channel_files : list string :=
  ["ruleta_red.csv"; "ruleta_alt.csv"; "automat.csv";
   "blackjack_con.csv"; "blackjack_agg.csv"].

(** [CasinoBinReplication::init] *)
#[export] Instance CasinoBinReplication_init : ReplicationInit CasinoBinReader :=
  fun r =>
    let path := rep_basePath r in
    fold_left (fun r' file =>
                 Replication_registerReader
                   (Reader_new (T:=double) (F:=BinFileIn) (path ++ file)) r')
              casino_channel_files r.

(** [CasinoReplication::init] *)
#[export] Instance CasinoReplication_init : ReplicationInit CasinoCSVReader :=
  fun r =>
    let path := rep_basePath r in
    fold_left (fun r' file =>
                 Replication_registerReader
                   (Reader_new (T:=double) (F:=CSVFileIn) (path ++ file)) r')
              casino_channel_files r.

(** ** [InputManager<R>] *)

(** What [std::filesystem::directory_iterator] yields for one entry. *)
Record directory_entry : Type := mk_entry {
  entry_filename : string;
  entry_is_directory : bool
}.

Record InputManager (Rd : Type) : Type := mk_InputManager {
  im_replications : list (Replication Rd);
  im_basePath : string
}.
Arguments mk_InputManager {Rd}.
Arguments im_replications {Rd}.
Arguments im_basePath {Rd}.

(** The helper structure local to [sortReplications]. *)
Record SortableReplication (Rd : Type) : Type := mk_Sortable {
  sr_replication : Replication Rd;
  sr_number : Z;
  sr_name : string
}.
Arguments mk_Sortable {Rd}.
Arguments sr_replication {Rd}.
Arguments sr_number {Rd}.
Arguments sr_name {Rd}.

(** The comparison the lambda passed to [std::sort] makes, on the two
    fields it reads. *)
Definition sortable_less (a_number : Z) (a_name : string)
    (b_number : Z) (b_name : string) : bool :=
  if (negb (a_number =? -1) && negb (b_number =? -1))%Z
  then (a_number <? b_number)%Z
  else String.ltb a_name b_name.

(** [num] as [sortReplications] computes it: [-1] unless [std::stoi]
    succeeds. *)
Definition sort_number (name : string) : Z :=
  match trailing_number name with
  | Ok num => num
  | Throw _ => (-1)%Z
  end.

Section InputManagerOps.
Context {Rd : Type} {rinit : ReplicationInit Rd}.

Definition InputManager_new : InputManager Rd := mk_InputManager [] "".

Definition InputManager_setBasePath (path : string) (im : InputManager Rd)
  : InputManager Rd :=
  mk_InputManager (im_replications im) (with_final_slash path).

Definition InputManager_push (rep : Replication Rd) (im : InputManager Rd)
  : InputManager Rd :=
  mk_InputManager (im_replications im ++ [rep]) (im_basePath im).

(** The four statements that build and initialise the replication of
    one directory. *)
Definition make_replication (ctor_name path name : string) : Replication Rd :=
  Replication_init
    (Replication_setName name
       (Replication_setBasePath path (Replication_new ctor_name))).

Definition SortableReplication_less (a b : SortableReplication Rd) : bool :=
  sortable_less (sr_number a) (sr_name a) (sr_number b) (sr_name b).

Definition InputManager_sortReplications (im : InputManager Rd) : InputManager Rd :=
  let sortable :=
    map (fun rep =>
           let name := rep_name rep in
           mk_Sortable rep (sort_number name) name)
        (im_replications im) in
  let sorted := std_sort SortableReplication_less sortable in
  mk_InputManager (map sr_replication sorted) (im_basePath im).

(** [loadReplications()]; [listing] is what iterating over the base
    path yields, or the error the iterator raises. *)
Definition InputManager_loadReplications
    (listing : result (list directory_entry)) (im : InputManager Rd)
  : result unit * InputManager Rd :=
  match listing with
  | Throw e => (Throw e, im)
  | Ok entries =>
      let loaded :=
        fold_left
          (fun im' entry =>
             if entry_is_directory entry then
               let folderName := entry_filename entry in
               InputManager_push
                 (make_replication folderName
                    (im_basePath im ++ folderName ++ "/") folderName) im'
             else im')
          entries im in
      (Ok tt, InputManager_sortReplications loaded)
  end.

(** [loadSpecificReplication(name)]; [is_dir] answers
    [exists(p) && is_directory(p)]. *)
Definition InputManager_loadSpecificReplication (is_dir : string -> bool)
    (name : string) (im : InputManager Rd) : result unit * InputManager Rd :=
  let fullPath := (im_basePath im ++ name)%string in
  if negb (is_dir fullPath)
  then (Throw (runtime_error ("Directory not found: " ++ fullPath)), im)
  else (Ok tt, InputManager_push (make_replication name (fullPath ++ "/") name) im).

(** The body of the loop of [loadBatch] over the directory entries. *)
Fixpoint loadBatch_entries (start end_ : Z) (entries : list directory_entry)
    (im : InputManager Rd) : result unit * InputManager Rd :=
  match entries with
  | [] => (Ok tt, im)
  | entry :: rest =>
      if entry_is_directory entry then
        let folderName := entry_filename entry in
        match trailing_number folderName with
        | Throw _ =>
            (Throw (runtime_error ("Failed processing file: " ++ folderName)), im)
        | Ok num =>
            if ((start <=? num) && (num <=? end_))%Z
            then loadBatch_entries start end_ rest
                   (InputManager_push
                      (make_replication folderName
                         (im_basePath im ++ folderName ++ "/") folderName) im)
            else loadBatch_entries start end_ rest im
        end
      else loadBatch_entries start end_ rest im
  end.

(** [loadBatch(int start, int end)] *)
Definition InputManager_loadBatch (start end_ : Z)
    (listing : result (list directory_entry)) (im : InputManager Rd)
  : result unit * InputManager Rd :=
  if (end_ <? start)%Z
  then (Throw (invalid_argument
                 "End value must be greater than or equal to start value"), im)
  else
    match listing with
    | Throw e => (Throw e, im)
    | Ok entries => loadBatch_entries start end_ entries im
    end.

(** [loadReplications(const std::vector<std::string> folders)] *)
Fixpoint InputManager_loadFolders (is_dir : string -> bool) (folders : list string)
    (im : InputManager Rd) : result unit * InputManager Rd :=
  match folders with
  | [] => (Ok tt, im)
  | folder :: rest =>
      match InputManager_loadSpecificReplication is_dir folder im with
      | (Throw e, im') => (Throw e, im')
      | (Ok _, im') => InputManager_loadFolders is_dir rest im'
      end
  end.

(** [getReplication(int index)] *)
Definition InputManager_getReplication (index : Z) (im : InputManager Rd)
  : result (Replication Rd) :=
  if ((index <? 0) || (Z.of_nat (length (im_replications im)) <=? index))%Z
  then Throw (out_of_range "Index out of range")
  else match im_replications im !! Z.to_nat index with
       | Some rep => Ok rep
       | None => Throw (out_of_range "Index out of range")
       end.

Definition InputManager_clearReplications (im : InputManager Rd) : InputManager Rd :=
  mk_InputManager [] (im_basePath im).
End InputManagerOps.

(** The names of the loaded replications, in collection order. *)
Definition replication_names {Rd} (im : InputManager Rd) : list string :=
  map rep_name (im_replications im).

(** ** [OutputManager] *)

(** Code whose behaviour the language leaves undefined (signed overflow,
    a call through a null pointer) has no result. *)
Inductive behaviour (A : Type) : Type :=
| Defined (a : A)
| Undefined.
Arguments Defined {A} a.
Arguments Undefined {A}.

Record OutputManager (W : Type) : Type := mk_OutputManager {
  om_writers : list W;
  om_basePath : string;
  om_replicationName : string;
  om_currentReplicationName : string;
  om_currentReplicationPath : string;
  om_counter : Z
}.
Arguments mk_OutputManager {W}.
Arguments om_writers {W}.
Arguments om_basePath {W}.
Arguments om_replicationName {W}.
Arguments om_currentReplicationName {W}.
Arguments om_currentReplicationPath {W}.
Arguments om_counter {W}.

(** The pure virtual [OutputManager::init]: the writers a subclass
    registers for the replication directory [path]. *)
Class OutputInit (W : Type) : Type := init_writers : string -> list W.

(** [IWriter::close] *)
Class IWriter (W : Type) : Type := IWriter_close : W -> W.

#[export] Instance Writer_IWriter {F O} {fout : FileOut F O} : IWriter (Writer F) :=
  Writer_close.

(** [CasinoBinOutputManager::init] and [CasinoOutputManager::init] *)
#[export] Instance CasinoBinOutputManager_init : OutputInit CasinoBinWriter :=
  fun path => map (fun file => Writer_new (F:=BinFileOut) (path ++ file)) casino_channel_files.
#[export] Instance CasinoOutputManager_init : OutputInit CasinoCSVWriter :=
  fun path => map (fun file => Writer_new (F:=CSVFileOut) (path ++ file)) casino_channel_files.

(** What the file system answers during one call of [newReplication]:
    [std::filesystem::exists] and, when asked, [create_directory]. *)
Record directory_oracle : Type := mk_oracle {
  fs_exists : string -> result bool;
  fs_create_directory : string -> result bool
}.

Section OutputManagerOps.
Context {W : Type} {oinit : OutputInit W} {iw : IWriter W}.

Definition OutputManager_new : OutputManager W :=
  mk_OutputManager [] "" "" "" "" 1.

Definition OutputManager_setBasePath (path : string) (om : OutputManager W)
  : OutputManager W :=
  mk_OutputManager (om_writers om) (with_final_slash path) (om_replicationName om)
    (om_currentReplicationName om) (om_currentReplicationPath om) (om_counter om).

Definition OutputManager_setName (name : string) (om : OutputManager W)
  : OutputManager W :=
  mk_OutputManager (om_writers om) (om_basePath om) name
    (om_currentReplicationName om) (om_currentReplicationPath om) (om_counter om).

Definition OutputManager_getCurrentReplicationName (om : OutputManager W) : string :=
  om_currentReplicationName om.

Definition OutputManager_closeAllWriters (om : OutputManager W) : OutputManager W :=
  mk_OutputManager (map IWriter_close (om_writers om)) (om_basePath om)
    (om_replicationName om) (om_currentReplicationName om)
    (om_currentReplicationPath om) (om_counter om).

(** [getWriter<W>(int index)] *)
Definition OutputManager_getWriter (index : Z) (om : OutputManager W) : result W :=
  if ((index <? 0) || (Z.of_nat (length (om_writers om)) <=? index))%Z
  then Throw (out_of_range "Index out of range")
  else match om_writers om !! Z.to_nat index with
       | Some w => Ok w
       | None => Throw (out_of_range "Index out of range")
       end.

(** [newReplication()].  [counter++] on an [int] that holds [INT_MAX]
    is undefined. *)
Definition OutputManager_newReplication (env : directory_oracle)
    (om : OutputManager W) : behaviour (result unit * OutputManager W) :=
  let closed := OutputManager_closeAllWriters om in
  let name := (om_replicationName closed ++ to_string (om_counter closed))%string in
  let path := (om_basePath closed ++ name ++ "/")%string in
  if (INT_MAX <=? om_counter closed)%Z then Undefined
  else
    (* [writers.clear()] drops the writers just closed *)
    let om1 :=
      mk_OutputManager [] (om_basePath closed) (om_replicationName closed)
        name path (om_counter closed + 1) in
    let created : result unit :=
      match fs_exists env path with
      | Throw e => Throw e
      | Ok true => Ok tt
      | Ok false =>
          match fs_create_directory env path with
          | Throw e => Throw e
          | Ok true => Ok tt
          | Ok false => Throw (runtime_error ("Failed to create directory: " ++ path))
          end
      end in
    match created with
    | Throw e => Defined (Throw e, om1)
    | Ok _ =>
        Defined (Ok tt,
                 mk_OutputManager (init_writers path) (om_basePath om1)
                   (om_replicationName om1) (om_currentReplicationName om1)
                   (om_currentReplicationPath om1) (om_counter om1))
    end.

(** Consecutive calls of [newReplication], one per oracle, whatever
    each call's outcome; the current replication name after each call.
    The caller may catch what a call throws and go on. *)
Fixpoint newReplication_calls (envs : list directory_oracle) (om : OutputManager W)
  : behaviour (list string * OutputManager W) :=
  match envs with
  | [] => Defined ([], om)
  | env :: rest =>
      match OutputManager_newReplication env om with
      | Undefined => Undefined
      | Defined (_, om1) =>
          match newReplication_calls rest om1 with
          | Undefined => Undefined
          | Defined (names, om2) =>
              Defined (om_currentReplicationName om1 :: names, om2)
          end
      end
  end.
End OutputManagerOps.

(** ** Statistics *)

(** Single-precision values appear only as data handed to the chart
    view. *)
Record float : Type := mk_float { f0 : byte; f1 : byte; f2 : byte; f3 : byte }.

(** The floating-point operations of the statistics classes, which come
    from Armadillo and the C++ library and stay parameters:
    [arma::mean], multiplication by [100], [static_cast<float>] and the
    [float] with a given integral value. *)
Class FloatLib : Type := {
  arma_mean : list double -> double;
  times_100 : double -> double;
  static_cast_float : double -> float;
  float_literal : Z -> float
}.

(** The views [PresenterManager] creates; only the members the setters
    write are kept. *)
Inductive Presenter : Type :=
| TextPresenter (text : string)
| TablePresenter (rows : list (list string))
| GraphPresenter (values : list float) (labels : list string)
    (graphSize : float * float) (title : string) (scaleMin scaleMax : float).

Record PresenterManager : Type := mk_PresenterManager {
  presenters : list Presenter
}.

Section PresenterOps.
Context {fl : FloatLib}.

(** Each [create...Presenter] appends a default-constructed view and
    returns a handle to it: its position in [presenters]. *)
Definition create_presenter (p : Presenter) (m : PresenterManager)
  : nat * PresenterManager :=
  (length (presenters m), mk_PresenterManager (presenters m ++ [p])).

Definition createTextPresenter := create_presenter (TextPresenter "").
Definition createTablePresenter := create_presenter (TablePresenter []).
Definition createGraphPresenter :=
  create_presenter
    (GraphPresenter [] [] (float_literal 0, float_literal 400) "Data"
       (float_literal 0) (float_literal 100)).

(** A setter called through the handle. *)
Definition with_presenter (h : nat) (f : Presenter -> Presenter)
    (m : PresenterManager) : PresenterManager :=
  mk_PresenterManager (alter f h (presenters m)).

Definition setText (newText : string) (p : Presenter) : Presenter :=
  match p with TextPresenter _ => TextPresenter newText | _ => p end.

Definition addRow (row : list string) (p : Presenter) : Presenter :=
  match p with TablePresenter rows => TablePresenter (rows ++ [row]) | _ => p end.

Definition setData (newValues : list float) (p : Presenter) : Presenter :=
  match p with
  | GraphPresenter _ l s t lo hi => GraphPresenter newValues l s t lo hi
  | _ => p
  end.

Definition setLabels (newLabels : list string) (p : Presenter) : Presenter :=
  match p with
  | GraphPresenter v _ s t lo hi => GraphPresenter v newLabels s t lo hi
  | _ => p
  end.

Definition setTitle (newTitle : string) (p : Presenter) : Presenter :=
  match p with
  | GraphPresenter v l s _ lo hi => GraphPresenter v l s newTitle lo hi
  | _ => p
  end.

Definition setSize (size : float * float) (p : Presenter) : Presenter :=
  match p with
  | GraphPresenter v l _ t lo hi => GraphPresenter v l size t lo hi
  | _ => p
  end.

Definition setScale (min max : float) (p : Presenter) : Presenter :=
  match p with
  | GraphPresenter v l s t _ _ => GraphPresenter v l s t min max
  | _ => p
  end.
End PresenterOps.

(** [size_t] to [int], as in [getReplication(index)] called with a
    [size_t]: the low 32 bits, read as two's complement. *)
Definition size_t_to_int (n : N) : Z :=
  let low := (Z.of_N n mod 4294967296)%Z in
  if (low <=? INT_MAX)%Z then low else (low - 4294967296)%Z.

(** [CasinoBinStatistics] and [CasinoStatistics] have the same members
    and, up to the reader type, the same member functions.  [F] is the
    transport of the readers. *)
Record CasinoStats (F : Type) : Type := mk_CasinoStats {
  st_inputManager : InputManager (Reader double F);
  st_basePath : string;
  armaVecs : list (list double)
}.
Arguments mk_CasinoStats {F}.
Arguments st_inputManager {F}.
Arguments st_basePath {F}.
Arguments armaVecs {F}.

Abbreviation CasinoBinStatistics := (CasinoStats BinFileIn).
Abbreviation CasinoStatistics := (CasinoStats CSVFileIn).

Section StatisticsOps.
Context {O F : Type}.
Context {conv : Converter double O} {fin : FileIn F O}.
Context {eu : ExchangeUnit O} {pend : Pending F}.
Context {rinit : ReplicationInit (Reader double F)}.
Context {fl : FloatLib} {ft : FloatText}.

(** The constructor: [armaVecs.resize(5, arma::vec())]. *)
Definition CasinoStats_new : CasinoStats F :=
  mk_CasinoStats InputManager_new "" (replicate 5 []).

Definition Statistics_setBasePath (path : string) (s : CasinoStats F) : CasinoStats F :=
  mk_CasinoStats (InputManager_setBasePath path (st_inputManager s)) path (armaVecs s).

Definition Statistics_loadFolders (is_dir : string -> bool) (folderNames : list string)
    (s : CasinoStats F) : result unit * CasinoStats F :=
  match InputManager_loadFolders is_dir folderNames (st_inputManager s) with
  | (res, im') => (res, mk_CasinoStats im' (st_basePath s) (armaVecs s))
  end.

Definition set_reader (i : nat) (reader : Reader double F)
    (rep : Replication (Reader double F)) : Replication (Reader double F) :=
  mk_Replication (rep_name rep) (rep_basePath rep) (<[i := reader]> (rep_readers rep)).

(** The loop of [processReplication] over the readers, with [todo]
    iterations left and loop index [i].  The readers are shared with
    the replication, so what [load] and [flush] do to them is stored
    back.  What [load] writes to [std::cerr] is not kept. *)
Fixpoint process_readers (todo i : nat) (fs : filesystem)
    (rep : Replication (Reader double F)) (vecs : list (list double))
  : option (result unit * Replication (Reader double F) * list (list double)) :=
  match todo with
  | 0%nat => Some (Ok tt, rep, vecs)
  | S todo' =>
      match Replication_getReader (Z.of_nat i) rep with
      | Throw e => Some (Throw e, rep, vecs)
      | Ok reader =>
          match Reader_load fs reader with
          | None => None
          | Some (Throw e, reader1, _) => Some (Throw e, set_reader i reader1 rep, vecs)
          | Some (Ok _, reader1, _) =>
              let convertedData := Reader_getData reader1 in
              let vecs1 :=
                if (i <? length vecs)%nat
                then alter (fun vec => vec ++ convertedData) i vecs
                else vecs in
              process_readers todo' (S i) fs
                (set_reader i (Reader_flush reader1) rep) vecs1
          end
      end
  end.

(** [processReplication(size_t index)] *)
Definition processReplication (fs : filesystem) (index : N) (s : CasinoStats F)
  : option (result unit * CasinoStats F) :=
  let im := st_inputManager s in
  match InputManager_getReplication (size_t_to_int index) im with
  | Throw e => Some (Throw e, s)
  | Ok rep =>
      match process_readers (Replication_getReaderCount rep) 0 fs rep (armaVecs s) with
      | None => None
      | Some (res, rep', vecs') =>
          Some (res,
                mk_CasinoStats
                  (mk_InputManager
                     (<[Z.to_nat (size_t_to_int index) := rep']> (im_replications im))
                     (im_basePath im))
                  (st_basePath s) vecs')
      end
  end.

(** [processAllReplications()], with [todo] iterations left. *)
Fixpoint processAll_from (todo : nat) (i : N) (fs : filesystem) (s : CasinoStats F)
  : option (result unit * CasinoStats F) :=
  match todo with
  | 0%nat => Some (Ok tt, s)
  | S todo' =>
      match processReplication fs i s with
      | None => None
      | Some (Throw e, s') => Some (Throw e, s')
      | Some (Ok _, s') => processAll_from todo' (i + 1) fs s'
      end
  end.

Definition processAllReplications (fs : filesystem) (s : CasinoStats F)
  : option (result unit * CasinoStats F) :=
  processAll_from (length (im_replications (st_inputManager s))) 0 fs s.

Definition clearData (s : CasinoStats F) : CasinoStats F :=
  mk_CasinoStats (InputManager_clearReplications (st_inputManager s)) (st_basePath s)
    (map (fun _ => []) (armaVecs s)).

(** [getMean(size_t index)] *)
Definition getMean (index : N) (s : CasinoStats F) : double :=
  if (N.of_nat (length (armaVecs s)) <=? index)%N then double_zero
  else
    let vec := armaVecs s !!! N.to_nat index in
    if bool_decide (vec = []) then double_zero
    else arma_mean vec.

(** [Statistics::setupPresenters], the default the base class gives;
    [None] is the null pointer. *)
Definition Statistics_setupPresenters (manager : option PresenterManager)
    (s : CasinoStats F) : behaviour (result unit * option PresenterManager) :=
  match manager with
  | None => Defined (Throw (invalid_argument "PresenterManager cannot be nullptr"), None)
  | Some m => Defined (Ok tt, Some m)
  end.

(** [getMean(i) * 100] written to a stream with
    [std::fixed << std::setprecision(2)]. *)
Definition percent_text (i : N) (s : CasinoStats F) : string :=
  format_fixed2 (times_100 (getMean i s)).

Definition casino_labels : list string :=
  ["Ruleta AR"; "Ruleta ALT"; "Automaty"; "Blackjack con"; "Blackjack agg"].

(** The statements both overrides of [setupPresenters] share, run on
    the manager [manager] points to; the result carries the handle of
    the chart view. *)
Definition setup_views (m : PresenterManager) (s : CasinoStats F)
  : nat * PresenterManager :=
  let '(textPresenter, m1) := createTextPresenter m in
  let text :=
    ("Ruleta AR: " ++ percent_text 0 s ++ "%" ++ String "010" "" ++
     "Ruleta ALT: " ++ percent_text 1 s ++ "%" ++ String "010" "" ++
     "Automaty: " ++ percent_text 2 s ++ "%" ++ String "010" "" ++
     "Blackjack con: " ++ percent_text 3 s ++ "%" ++ String "010" "" ++
     "Blackjack agg: " ++ percent_text 4 s ++ "%")%string in
  let m2 := with_presenter textPresenter (setText text) m1 in
  let '(tablePresenter, m3) := createTablePresenter m2 in
  let m4 := with_presenter tablePresenter (addRow ["Game"; "Win Rate"]) m3 in
  let m5 :=
    fold_left
      (fun m' '(label, i) =>
         with_presenter tablePresenter
           (addRow [label; (percent_text i s ++ "%")%string]) m')
      (zip casino_labels [0; 1; 2; 3; 4]%N) m4 in
  let '(graphPresenter, m6) := createGraphPresenter m5 in
  let graphData :=
    map (fun i => static_cast_float (times_100 (getMean i s))) [0; 1; 2; 3; 4]%N in
  let m7 := with_presenter graphPresenter (setData graphData) m6 in
  let m8 := with_presenter graphPresenter (setLabels casino_labels) m7 in
  let m9 := with_presenter graphPresenter (setTitle "Casino Game Win Rates") m8 in
  (graphPresenter, m9).

(** [CasinoStatistics::setupPresenters]: the first statement calls
    [manager->createTextPresenter()], which is undefined for a null
    [manager]. *)
Definition CasinoStatistics_setupPresenters (manager : option PresenterManager)
    (s : CasinoStats F) : behaviour (result unit * option PresenterManager) :=
  match manager with
  | None => Undefined
  | Some m => let '(_, m') := setup_views m s in Defined (Ok tt, Some m')
  end.

(** [CasinoBinStatistics::setupPresenters], which also sets the size
    and the scale of the chart. *)
Definition CasinoBinStatistics_setupPresenters (manager : option PresenterManager)
    (s : CasinoStats F) : behaviour (result unit * option PresenterManager) :=
  match manager with
  | None => Undefined
  | Some m =>
      let '(graphPresenter, m1) := setup_views m s in
      let m2 :=
        with_presenter graphPresenter (setSize (float_literal 0, float_literal 300)) m1 in
      let m3 :=
        with_presenter graphPresenter
          (setScale (float_literal 0) (float_literal 100)) m2 in
      Defined (Ok tt, Some m3)
  end.
(** The instances a program can reach: built by the constructor and
    changed by the public member functions.  [getInputManager]
    returns a reference, so callers can change the input manager at
    will. *)
Inductive reachable : CasinoStats F -> Prop :=
| reach_new : reachable CasinoStats_new
| reach_setBasePath s path :
    reachable s -> reachable (Statistics_setBasePath path s)
| reach_loadFolders s is_dir folderNames res s' :
    reachable s ->
    Statistics_loadFolders is_dir folderNames s = (res, s') -> reachable s'
| reach_getInputManager s im :
    reachable s -> reachable (mk_CasinoStats im (st_basePath s) (armaVecs s))
| reach_processReplication s fs index res s' :
    reachable s -> processReplication fs index s = Some (res, s') -> reachable s'
| reach_processAllReplications s fs res s' :
    reachable s -> processAllReplications fs s = Some (res, s') -> reachable s'
| reach_clearData s :
    reachable s -> reachable (clearData s).
End StatisticsOps.

(** ** Vocabulary of the statements *)

(** One frame of a binary channel file: the length, least significant
    byte first on four bytes, then the payload. *)
Definition frame (payload : list byte) : list byte :=
  le_bytes 4 (static_cast_uint32 (N.of_nat (length payload))) ++ payload.

Definition frames {host : Host} (values : list double) : list byte :=
  concat (map (fun d => frame (CasinoBinConverter_encode d)) values).

(** The values a binary channel file holds: frame after frame, what the
    converter decodes from the payload, up to the end of the file (fewer
    than four bytes left for a length), a frame of length zero, or a
    payload the converter rejects.  A payload the end of the file cuts
    short counts as it is read: filled up with zero bytes. *)
Inductive bin_file_items {T : Type} {conv : Converter T (list byte)}
  : list byte -> list T -> Prop :=
| bin_items_end bs :
    (length bs < 4)%nat -> bin_file_items bs []
| bin_items_empty_frame b0 b1 b2 b3 rest :
    le_value [b0; b1; b2; b3] = 0%N ->
    bin_file_items (b0 :: b1 :: b2 :: b3 :: rest) []
| bin_items_bad_frame b0 b1 b2 b3 rest n e :
    n = N.to_nat (le_value [b0; b1; b2; b3]) -> n <> 0%nat ->
    convert_from (fill_buffer n (take n rest)) = Throw e ->
    bin_file_items (b0 :: b1 :: b2 :: b3 :: rest) []
| bin_items_frame b0 b1 b2 b3 rest n item items :
    n = N.to_nat (le_value [b0; b1; b2; b3]) -> n <> 0%nat ->
    convert_from (fill_buffer n (take n rest)) = Ok item ->
    bin_file_items (drop n rest) items ->
    bin_file_items (b0 :: b1 :: b2 :: b3 :: rest) (item :: items).

(** The values a text channel file holds: line after line, what the
    converter decodes from the line, up to the end of the file, an empty
    line, or a line the converter rejects. *)
Inductive csv_file_items {T : Type} {conv : Converter T string}
  : list byte -> list T -> Prop :=
| csv_items_end bs tail :
    split_line bs = ([], tail) -> csv_file_items bs []
| csv_items_bad_line bs line tail e :
    split_line bs = (line, tail) -> line <> [] ->
    convert_from (string_of_list_byte line) = Throw e ->
    csv_file_items bs []
| csv_items_line bs line tail item items :
    split_line bs = (line, tail) -> line <> [] ->
    convert_from (string_of_list_byte line) = Ok item ->
    csv_file_items (default [] tail) items ->
    csv_file_items bs (item :: items).

(** The order [std::sort] follows, on names alone. *)
Definition name_less (a b : string) : bool :=
  sortable_less (sort_number a) a (sort_number b) b.

Definition discovered_names : list string := ["Rep2"; "Rep10"; "Rep1"; "Foo"].
Definition sorted_names : list string := ["Foo"; "Rep1"; "Rep2"; "Rep10"].

Definition dir (name : string) : directory_entry := mk_entry name true.

(** A name whose last character is not a digit (or that is empty). *)
Definition lacks_numeric_suffix (name : string) : bool :=
  match string_back name with
  | Some c => negb (is_digit c)
  | None => true
  end.

(** The [i]-th replication name of an [OutputManager] named [P]. *)
Definition replication_name (P : string) (i : nat) : string :=
  P ++ to_string (Z.of_nat i).

(** Answers of the file system: the directory is already there, it can
    be created, or creating it raises. *)
Definition dir_exists : directory_oracle :=
  mk_oracle (fun _ => Ok true) (fun _ => Ok false).
Definition dir_creatable : directory_oracle :=
  mk_oracle (fun _ => Ok false) (fun _ => Ok true).
Definition dir_denied : directory_oracle :=
  mk_oracle (fun _ => Ok false)
            (fun p => Throw (filesystem_error ("cannot create directory: " ++ p))).

(** Concrete inputs for the examples. *)
Definition two_length_bytes : BinFileIn :=
  mk_BinFileIn (mk_ifstream true [x0c; x00] false false).

Definition short_payload : BinFileIn :=
  mk_BinFileIn (mk_ifstream true [x04; x00; x00; x00; x01; x02] false false).

Definition stale_double : double := mk_double x07 x07 x07 x07 x07 x07 x07 x07.
Definition first_double : double := mk_double x01 x01 x01 x01 x01 x01 x01 x01.
Definition fresh_double : double := mk_double x02 x02 x02 x02 x02 x02 x02 x02.

(** Arbitrary instances of the floating-point parameters, used only to
    state examples on concrete inputs; no statement depends on what
    they compute. *)
Definition example_FloatLib : FloatLib := {|
  arma_mean := fun vec => nth 0 vec double_zero;
  times_100 := fun d => d;
  static_cast_float := fun d => mk_float (d0 d) (d1 d) (d2 d) (d3 d);
  float_literal := fun _ => mk_float x00 x00 x00 x00
|}.

Definition example_FloatText : FloatText := {|
  format_fixed2 := fun _ => "0.00";
  stod := fun _ => Ok double_zero
|}.

(** ** [writeResults] *)

Section WriteResults.
Context {O F : Type} {conv : Converter double O} {fout : FileOut F O}.

(** One statement [getWriterX()->write(results[i])]: the writer is
    fetched first; [results[i]] is undefined past the end of [results].
    The writer is shared with the manager, so what [write] does to it
    is stored back. *)
Definition write_result (i : nat) (results : list double) (fs : filesystem)
    (om : OutputManager (Writer F))
  : behaviour (result unit * filesystem * OutputManager (Writer F)) :=
  match OutputManager_getWriter (Z.of_nat i) om with
  | Throw e => Defined (Throw e, fs, om)
  | Ok writer =>
      match results !! i with
      | None => Undefined
      | Some value =>
          match Writer_write fs value writer with
          | (res, fs', writer') =>
              Defined (res, fs',
                       mk_OutputManager (<[i := writer']> (om_writers om))
                         (om_basePath om) (om_replicationName om)
                         (om_currentReplicationName om) (om_currentReplicationPath om)
                         (om_counter om))
          end
      end
  end.

(** The statements of [writeResults] for the channels [channels], in
    order. *)
Fixpoint write_results_from (channels : list nat) (results : list double)
    (fs : filesystem) (om : OutputManager (Writer F))
  : behaviour (result unit * filesystem * OutputManager (Writer F)) :=
  match channels with
  | [] => Defined (Ok tt, fs, om)
  | i :: rest =>
      match write_result i results fs om with
      | Undefined => Undefined
      | Defined (Throw e, fs', om') => Defined (Throw e, fs', om')
      | Defined (Ok _, fs', om') => write_results_from rest results fs' om'
      end
  end.

(** [CasinoBinOutputManager::writeResults] and
    [CasinoOutputManager::writeResults] *)
Definition writeResults (results : list double) (fs : filesystem)
    (om : OutputManager (Writer F))
  : behaviour (result unit * filesystem * OutputManager (Writer F)) :=
  write_results_from [0; 1; 2; 3; 4]%nat results fs om.
End WriteResults.

(** ** [main] *)

Section Main.
Context {O F : Type} {conv : Converter double O} {fout : FileOut F O}.
Context {oinit : OutputInit (Writer F)}.

(** The statements of [main] that store a replication: the one pass of
    its loop, [newReplication()] and [writeResults(results)], and the
    [closeAllWriters()] after the loop.  [results] is what
    [simulateCasino()] returned.  Nothing catches an exception, so the
    statements after the one that throws are not run.  On success the
    file system returned is the one [closeAllWriters()] leaves, when
    every stream has been closed and so has handed on to its file all
    it was given. *)
Definition main_store (env : directory_oracle) (results : list double)
    (fs : filesystem) (om : OutputManager (Writer F))
  : behaviour (result unit * filesystem * OutputManager (Writer F)) :=
  match OutputManager_newReplication env om with
  | Undefined => Undefined
  | Defined (Throw e, om1) => Defined (Throw e, fs, om1)
  | Defined (Ok _, om1) =>
      match writeResults results fs om1 with
      | Undefined => Undefined
      | Defined (Throw e, fs1, om2) => Defined (Throw e, fs1, om2)
      | Defined (Ok _, fs1, om2) =>
          Defined (Ok tt, fs1, OutputManager_closeAllWriters om2)
      end
  end.
End Main.

(** ** [StatisticsManager] *)

(** The member of [IStatistics] the manager calls.  [S] is the type of
    the statistics objects the map holds behind
    [std::shared_ptr<IStatistics>]; the pointer the manager hands out
    is represented by the name the object is stored under.
    [listStatistics] and [getStatisticsNames] iterate over the
    [std::unordered_map] in an order the language leaves open and are
    not modelled. *)
Class IStatistics (S : Type) : Type :=
  IStatistics_processAllReplications : filesystem -> S -> option (result unit * S).

#[export] Instance CasinoStats_IStatistics {O F : Type}
    {conv : Converter double O} {fin : FileIn F O}
    {eu : ExchangeUnit O} {pend : Pending F}
    {rinit : ReplicationInit (Reader double F)} : IStatistics (CasinoStats F) :=
  processAllReplications.

Record StatisticsManager (S : Type) : Type := mk_StatisticsManager {
  statisticsMap : gmap string S
}.
Arguments mk_StatisticsManager {S}.
Arguments statisticsMap {S}.

Section StatisticsManagerOps.
Context {S : Type} {istat : IStatistics S}.

Definition StatisticsManager_new : StatisticsManager S := mk_StatisticsManager ∅.

(** [addStatistics<S>(name, args...)]; [stats] is the object
    [std::make_shared<S>(args...)] constructs. *)
Definition StatisticsManager_addStatistics (name : string) (stats : S)
    (m : StatisticsManager S) : result S * StatisticsManager S :=
  match statisticsMap m !! name with
  | Some _ =>
      (Throw (runtime_error ("Statistics with name '" ++ name ++ "' already exists.")), m)
  | None => (Ok stats, mk_StatisticsManager (<[name := stats]> (statisticsMap m)))
  end.

Definition StatisticsManager_getStatistics (name : string) (m : StatisticsManager S)
  : result S :=
  match statisticsMap m !! name with
  | None => Throw (runtime_error ("Statistics with name '" ++ name ++ "' not found."))
  | Some stats => Ok stats
  end.

Definition StatisticsManager_removeStatistics (name : string) (m : StatisticsManager S)
  : result unit * StatisticsManager S :=
  match statisticsMap m !! name with
  | None => (Throw (runtime_error ("Statistics with name '" ++ name ++ "' not found.")), m)
  | Some _ => (Ok tt, mk_StatisticsManager (delete name (statisticsMap m)))
  end.

Definition StatisticsManager_clearStatistics (m : StatisticsManager S)
  : StatisticsManager S :=
  mk_StatisticsManager ∅.

Definition StatisticsManager_count (m : StatisticsManager S) : nat :=
  size (statisticsMap m).

(** [processStatistics(name)]: what [processAllReplications] throws
    propagates. *)
Definition StatisticsManager_processStatistics (fs : filesystem) (name : string)
    (m : StatisticsManager S) : option (result bool * StatisticsManager S) :=
  match statisticsMap m !! name with
  | Some stats =>
      match IStatistics_processAllReplications fs stats with
      | None => None
      | Some (res, stats') =>
          let m' := mk_StatisticsManager (<[name := stats']> (statisticsMap m)) in
          match res with
          | Ok _ => Some (Ok true, m')
          | Throw e => Some (Throw e, m')
          end
      end
  | None => Some (Ok false, m)
  end.
End StatisticsManagerOps.

(** ** Vocabulary of the further statements *)

(** Orders of a list by an integer key. *)
Definition ascending {A} (key : A -> Z) (a b : A) : Prop := (key a <= key b)%Z.
Definition descending {A} (key : A -> Z) (a b : A) : Prop := (key b <= key a)%Z.

(** The replication [loadReplications], [loadBatch] and
    [loadSpecificReplication] build for the directory [name] under
    [base]. *)
Definition replication_of {Rd} {rinit : ReplicationInit Rd} (base name : string)
  : Replication Rd :=
  make_replication name ((base ++ name) ++ "/") name.

(** Whether the number a name ends with lies in [start, end]. *)
Definition in_batch (start end_ : Z) (name : string) : bool :=
  ((start <=? sort_number name) && (sort_number name <=? end_))%Z.

(** A reader of the channel file [path] that is not open, as
    [Replication::init] registers it and as [load] leaves it. *)
Definition closed_reader (path : string) (r : CasinoBinReader) : Prop :=
  r_path r = path /\ r_isOpen r = false /\ in_is_open (bin_inFile (r_file r)) = false.

(** The reader [load] and [flush] leave behind. *)
Definition drained_reader (path : string) : CasinoBinReader :=
  mk_Reader (mk_BinFileIn (mk_ifstream false [] true true)) [] path false.

(** The closed reader [r] is bound to the channel file [ch.1], which
    holds the frames of the values [ch.2] and nothing else. *)
Definition channel_holds {host : Host} (fs : filesystem) (r : CasinoBinReader)
    (ch : string * list double) : Prop :=
  closed_reader ch.1 r /\ ch.1 <> "" /\ fs !! ch.1 = Some (frames ch.2).

(** The aggregate vectors with the values of each channel appended. *)
Definition collect (vecs : list (list double)) (channels : list (string * list double))
  : list (list double) :=
  zip_with (fun vec ch => vec ++ ch.2) vecs channels.

(** One line of a text channel file. *)
Definition csv_line (text : string) : list byte :=
  list_byte_of_string text ++ [newline].

Definition csv_lines {ft : FloatText} (values : list double) : list byte :=
  concat (map (fun d => csv_line (format_fixed2 d)) values).

(** A text that makes one non-empty line. *)
Definition line_text (text : string) : Prop :=
  text <> "" /\ newline ∉ list_byte_of_string text.

(** The replication [rep] after its channels were processed: every
    reader drained. *)
Definition drained_replication (rep : Replication CasinoBinReader)
    (channels : list (string * list double)) : Replication CasinoBinReader :=
  mk_Replication (rep_name rep) (rep_basePath rep)
    (map (fun ch => drained_reader ch.1) channels).

(** The readers of [rep] are bound to the channels, as many as there
    are aggregate vectors. *)
Definition replication_holds {host : Host} (fs : filesystem) (count : nat)
    (rep : Replication CasinoBinReader) (channels : list (string * list double)) : Prop :=
  Forall2 (channel_holds fs) (rep_readers rep) channels /\ length channels = count.

(** Storing the files [files] one after the other. *)
Definition store_all (files : list (string * list byte)) (fs : filesystem) : filesystem :=
  fold_left (fun fs' file => <[file.1 := file.2]> fs') files fs.

(** The writer [write] leaves behind after its first frame. *)
Definition writer_after_frame (path : string) : CasinoBinWriter :=
  mk_Writer (mk_BinFileOut (mk_ofstream (Some path) 16 false)) path true.


(** * Properties *)

(** ** Bytes *)

Lemma static_cast_uint8_to_N n : Byte.to_N (static_cast_uint8 n) = (n mod 256)%N.
Proof.
  unfold static_cast_uint8.
  destruct (Byte.of_N (n mod 256)) as [b|] eqn:E.
  - by apply Byte.to_of_N.
  - apply Byte.of_N_None_iff in E.
    pose proof (N.mod_upper_bound n 256). lia.
Qed.

Lemma static_cast_uint8_of_byte b : static_cast_uint8 (Byte.to_N b) = b.
Proof.
  unfold static_cast_uint8.
  pose proof (Byte.to_N_bounded b) as Hb.
  rewrite N.mod_small by lia.
  by rewrite Byte.of_to_N.
Qed.

Lemma memcpy_double_roundtrip d rest :
  memcpy_to_double (memcpy_from_double d ++ rest) = d.
Proof. by destruct d. Qed.

Lemma memcpy_uint32_one host rest :
  memcpy_to_uint32 host (memcpy_from_uint32 host 1 ++ rest) = 1%N.
Proof. by destruct host. Qed.

(** ** The binary transport *)

Lemma byte_shift_lt_uint32 (b : byte) (k : N) :
  (k <= 24)%N -> (N.shiftl (Byte.to_N b) k < UINT32_MOD)%N.
Proof.
  intros Hk. pose proof (Byte.to_N_bounded b) as Hb.
  rewrite N.shiftl_mul_pow2.
  assert (2 ^ k <= 2 ^ 24)%N by (apply N.pow_le_mono_r; lia).
  unfold UINT32_MOD. change (2 ^ 24)%N with 16777216%N in *. nia.
Qed.

(** The bits the loop of [BinFileIn::read] gathers from four bytes are
    the little-endian value of these bytes. *)
Lemma gathered_size_le_value (b0 b1 b2 b3 : byte) :
  N.lor (N.lor (N.lor (N.lor 0
     (static_cast_uint32 (N.shiftl (Byte.to_N b0) (0 * 8))))
     (static_cast_uint32 (N.shiftl (Byte.to_N b1) ((0 + 1) * 8))))
     (static_cast_uint32 (N.shiftl (Byte.to_N b2) ((0 + 1 + 1) * 8))))
     (static_cast_uint32 (N.shiftl (Byte.to_N b3) ((0 + 1 + 1 + 1) * 8)))
  = le_value [b0; b1; b2; b3].
Proof.
  unfold static_cast_uint32.
  rewrite !N.mod_small by (apply byte_shift_lt_uint32; lia).
  cbn [le_value].
  rewrite N.shiftl_0_l, N.lor_0_r, N.lor_0_l.
  rewrite !N.shiftl_lor, !N.shiftl_shiftl.
  change (0 * 8)%N with 0%N. rewrite N.shiftl_0_r.
  rewrite <- !N.lor_assoc. reflexivity.
Qed.

Lemma read_size_field_full o b0 b1 b2 b3 rest :
  read_size_field 4 0 0 (mk_ifstream o (b0 :: b1 :: b2 :: b3 :: rest) false false)
  = (size_read (le_value [b0; b1; b2; b3]), mk_ifstream o rest false false).
Proof.
  rewrite <- gathered_size_le_value. reflexivity.
Qed.

Lemma read_size_field_short o bs e :
  (length bs < 4)%nat ->
  read_size_field 4 0 0 (mk_ifstream o bs e false)
  = (size_eof, mk_ifstream o (if e then bs else []) true true).
Proof.
  intros Hlen. destruct e.
  - reflexivity.
  - destruct bs as [|b0 [|b1 [|b2 [|b3 ?]]]]; simpl in Hlen; try lia; reflexivity.
Qed.

Lemma BinFileIn_destruct (f : BinFileIn) :
  f = mk_BinFileIn (mk_ifstream (in_is_open (bin_inFile f)) (in_pending (bin_inFile f))
                      (in_eofbit (bin_inFile f)) (in_failbit (bin_inFile f))).
Proof. by destruct f as [[? ? ? ?]]. Qed.

Lemma ifstream_good_bits s :
  ifstream_good s = true -> in_eofbit s = false /\ in_failbit s = false.
Proof.
  unfold ifstream_good. destruct (in_eofbit s), (in_failbit s); simpl; intros; split; congruence.
Qed.

Lemma length_fill_buffer n got : (length got <= n)%nat -> length (fill_buffer n got) = n.
Proof. intros H. unfold fill_buffer. rewrite length_app, repeat_length. lia. Qed.

(** [read] on a good stream that holds a complete length field. *)
Lemma BinFileIn_read_frame o b0 b1 b2 b3 rest :
  let n := N.to_nat (le_value [b0; b1; b2; b3]) in
  BinFileIn_read (mk_BinFileIn (mk_ifstream o (b0 :: b1 :: b2 :: b3 :: rest) false false))
  = (Ok (fill_buffer n (take n rest)),
     mk_BinFileIn (if (n <=? length rest)%nat
                   then mk_ifstream o (drop n rest) false false
                   else mk_ifstream o [] true true)).
Proof.
  intros n. unfold BinFileIn_read.
  cbn [bin_inFile in_failbit]. rewrite read_size_field_full. fold n.
  unfold ifstream_read. cbn [ifstream_good in_eofbit in_failbit in_pending in_is_open negb andb].
  destruct (n <=? length rest)%nat eqn:E.
  - reflexivity.
  - cbn [in_failbit in_eofbit negb andb].
    apply Nat.leb_gt in E. rewrite take_ge by lia. reflexivity.
Qed.

(** [read] on a good stream that ends inside the length field. *)
Lemma BinFileIn_read_short o bs :
  (length bs < 4)%nat ->
  BinFileIn_read (mk_BinFileIn (mk_ifstream o bs false false))
  = (Ok [], mk_BinFileIn (mk_ifstream o [] true true)).
Proof.
  intros H. unfold BinFileIn_read. cbn [bin_inFile in_failbit].
  by rewrite read_size_field_short.
Qed.

(** Claim C4, as amended.  On an open binary transport in good state,
    [read()] that meets the end of the stream inside the length field,
    with zero or with only one to three of its four bytes available,
    returns an empty block and raises nothing; and an empty block is
    returned only then or when a complete length field holds zero. *)
Theorem BinFileIn_read_incomplete_length_field (f : BinFileIn) :
  in_is_open (bin_inFile f) = true ->
  ifstream_good (bin_inFile f) = true ->
  let avail := in_pending (bin_inFile f) in
  ((length avail < 4)%nat -> (BinFileIn_read f).1 = Ok []) /\
  ((BinFileIn_read f).1 = Ok [] ->
   (length avail < 4)%nat \/ le_value (take 4 avail) = 0%N).
Proof.
  intros Hopen Hgood avail.
  destruct (ifstream_good_bits _ Hgood) as [He Hf].
  rewrite (BinFileIn_destruct f). subst avail. rewrite He, Hf.
  set (bs := in_pending (bin_inFile f)). split.
  - intros Hlen. by rewrite BinFileIn_read_short.
  - intros Hres. destruct (decide (length bs < 4)%nat) as [|Hge]; [by left|right].
    destruct bs as [|b0 [|b1 [|b2 [|b3 rest]]]]; simpl in Hge; try lia.
    rewrite BinFileIn_read_frame in Hres. cbn [fst] in Hres.
    injection Hres as Hres.
    apply (f_equal length) in Hres.
    rewrite length_fill_buffer in Hres by (rewrite length_take; lia).
    change (take 4 (b0 :: b1 :: b2 :: b3 :: rest)) with [b0; b1; b2; b3].
    apply N2Nat.inj. exact Hres.
Qed.

Lemma BinFileIn_read_incomplete_length_field_witness :
  ((length [x0c; x00] < 4)%nat -> (BinFileIn_read two_length_bytes).1 = Ok []) /\
  ((BinFileIn_read two_length_bytes).1 = Ok [] ->
   (length [x0c; x00] < 4)%nat \/ le_value (take 4 [x0c; x00]) = 0%N).
Proof. apply (BinFileIn_read_incomplete_length_field two_length_bytes); reflexivity. Defined.

(** Claim C4 as stated fails: with two of the four length bytes
    available, [read()] returns the empty block and raises no error. *)
Lemma BinFileIn_read_partial_length_no_error :
  in_is_open (bin_inFile two_length_bytes) = true /\
  length (in_pending (bin_inFile two_length_bytes)) = 2%nat /\
  (BinFileIn_read two_length_bytes).1 = Ok [] /\
  forall e, (BinFileIn_read two_length_bytes).1 <> Throw e.
Proof. repeat split. intros e. discriminate. Qed.

(** Claim C5, as amended.  On an open binary transport in good state,
    when [read()] has a complete length field but fewer payload bytes
    than it announces remain, it raises nothing: it returns a block of
    exactly the announced length, made of the bytes that were there
    followed by zero bytes, and leaves the stream failed, so that the
    next [read()] raises. *)
Theorem BinFileIn_read_short_payload_padded (f : BinFileIn) (field payload : list byte) :
  in_is_open (bin_inFile f) = true ->
  ifstream_good (bin_inFile f) = true ->
  in_pending (bin_inFile f) = field ++ payload ->
  length field = 4%nat ->
  (length payload < N.to_nat (le_value field))%nat ->
  exists f',
    BinFileIn_read f
    = (Ok (payload ++ repeat x00 (N.to_nat (le_value field) - length payload)), f')
    /\ in_failbit (bin_inFile f') = true
    /\ (BinFileIn_read f').1 = Throw (runtime_error "No file opened for reading").
Proof.
  intros Hopen Hgood Hpend Hfield Hshort.
  destruct (ifstream_good_bits _ Hgood) as [He Hf].
  rewrite (BinFileIn_destruct f), He, Hf, Hpend.
  destruct field as [|b0 [|b1 [|b2 [|b3 [|]]]]]; simpl in Hfield; try lia.
  cbn [app]. rewrite BinFileIn_read_frame.
  set (n := N.to_nat (le_value [b0; b1; b2; b3])) in *.
  assert ((n <=? length payload)%nat = false) as -> by (apply Nat.leb_gt; lia).
  rewrite take_ge by lia.
  eexists. split; [reflexivity|]. split; reflexivity.
Qed.

Lemma BinFileIn_read_short_payload_padded_witness :
  exists f',
    BinFileIn_read short_payload = (Ok ([x01; x02] ++ repeat x00 (4 - 2)), f')
    /\ in_failbit (bin_inFile f') = true
    /\ (BinFileIn_read f').1 = Throw (runtime_error "No file opened for reading").
Proof.
  apply (BinFileIn_read_short_payload_padded short_payload [x04; x00; x00; x00] [x01; x02]);
    reflexivity || (vm_compute; lia).
Defined.

(** Claim C5 as stated fails: a frame announcing four bytes with two
    left is returned zero-padded, and no error is raised. *)
Lemma BinFileIn_read_short_payload_no_error :
  in_pending (bin_inFile short_payload) = [x04; x00; x00; x00] ++ [x01; x02] /\
  le_value [x04; x00; x00; x00] = 4%N /\
  (BinFileIn_read short_payload).1 = Ok [x01; x02; x00; x00] /\
  forall e, (BinFileIn_read short_payload).1 <> Throw e.
Proof. repeat split. intros e. discriminate. Qed.

(** ** [Reader::load] *)

Section ReaderFacts.
Context {T O F : Type}.
Context {conv : Converter T O} {fin : FileIn F O}.
Context {eu : ExchangeUnit O} {pend : Pending F}.

Lemma Reader_read_opened_throw r e r1 :
  Reader_read_opened r = (Throw e, r1) -> is_runtime_error e = true.
Proof.
  unfold Reader_read_opened.
  destruct (fin_read (r_file r)) as [[fileData|e0] f'].
  - destruct (unit_empty fileData).
    + intros [= <- _]. reflexivity.
    + destruct (convert_from fileData); intros [= <- _] || intros [=]. reflexivity.
  - intros [= <- _]. reflexivity.
Qed.

Lemma Reader_read_opened_fields r res r1 :
  Reader_read_opened r = (res, r1) ->
  r_data r1 = r_data r /\ r_path r1 = r_path r /\ r_isOpen r1 = r_isOpen r.
Proof.
  unfold Reader_read_opened.
  destruct (fin_read (r_file r)) as [[fileData|e0] f'].
  - destruct (unit_empty fileData); [|destruct (convert_from fileData)];
      intros [= _ <-]; auto.
  - intros [= _ <-]; auto.
Qed.

Lemma Reader_read_when_open fs r :
  r_isOpen r = true -> Reader_read fs r = Reader_read_opened r.
Proof. intros H. unfold Reader_read. by rewrite H. Qed.

Hypothesis read_consumes :
  forall (f f' : F) (u : O),
    fin_read f = (Ok u, f') -> unit_empty u = false -> (pending f' < pending f)%nat.

Lemma Reader_load_loop_decodes fs fuel r cerr :
  r_isOpen r = true ->
  (pending (r_file r) < fuel)%nat ->
  exists items fend cerr',
    decoded_units (r_file r) items fend /\
    Reader_load_loop fuel fs r cerr
    = Some (Ok tt, mk_Reader fend (r_data r ++ items) (r_path r) true, cerr').
Proof.
  revert r cerr. induction fuel as [|fuel IH]; intros r cerr Hopen Hfuel; [lia|].
  cbn [Reader_load_loop]. rewrite Reader_read_when_open by done.
  unfold Reader_read_opened. rewrite Hopen.
  destruct (fin_read (r_file r)) as [[u|e] f'] eqn:Hread.
  - destruct (unit_empty u) eqn:Hempty.
    + exists [], f', cerr. split; [by eapply decoded_empty_unit|].
      by rewrite app_nil_r.
    + destruct (convert_from u) as [item|e] eqn:Hconv.
      * destruct (IH (Reader_push_back item (mk_Reader f' (r_data r) (r_path r) true)) cerr)
          as (items & fend & cerr' & Hrun & Hloop).
        { reflexivity. }
        { cbn [Reader_push_back r_file]. pose proof (read_consumes _ _ _ Hread Hempty). lia. }
        exists (item :: items), fend, cerr'. split; [by eapply decoded_unit|].
        rewrite Hloop. cbn [Reader_push_back r_data r_path]. by rewrite <- app_assoc.
      * cbn [is_runtime_error].
        destruct (contains _ _); eexists [], f', _;
          (split; [by eapply decoded_bad_unit|by rewrite app_nil_r]).
  - cbn [is_runtime_error].
    destruct (contains _ _); eexists [], f', _;
      (split; [by eapply decoded_read_throws|by rewrite app_nil_r]).
Qed.

Variable file_items : list byte -> list T -> Prop.
Variable closed : F -> Prop.
Hypothesis close_closed : forall f : F, closed (fin_close f).
Hypothesis open_content :
  forall (fs : filesystem) p (f f0 : F) items fend,
    fin_open fs p f = (Ok tt, f0) -> decoded_units f0 items fend ->
    exists content, fs !! p = Some content /\ file_items content items.

Lemma Reader_load_contract fs r : load_contract file_items closed fs r.
Proof.
  unfold load_contract, Reader_load.
  destruct (r_isOpen r) eqn:Hopen; cbn [negb].
  - destruct (Reader_load_loop_decodes fs (S (pending (r_file (Reader_flush r))))
                (Reader_flush r) [])
      as (items & fend & cerr' & Hrun & Hloop); [done|lia|].
    rewrite Hloop. do 3 eexists. split; [reflexivity|].
    exists (r_file r), fend. cbn. auto.
  - case_bool_decide as Hpath.
    + do 3 eexists. split; [reflexivity|]. cbn. auto.
    + unfold Reader_open.
      destruct (fin_open fs (r_path r) (r_file r)) as [[[]|e] f0] eqn:Ho.
      * set (r0 := mk_Reader f0 (r_data r) (r_path r) true).
        destruct (Reader_load_loop_decodes fs (S (pending (r_file (Reader_flush r0))))
                    (Reader_flush r0) [])
          as (items & fend & cerr' & Hrun & Hloop); [done|lia|].
        rewrite Hloop. do 3 eexists. split; [reflexivity|].
        exists f0, fend. cbn. cbn in Hrun.
        destruct (open_content _ _ _ _ _ _ Ho Hrun) as (content & Hfile & Hitems).
        eauto 10.
      * do 3 eexists. split; [reflexivity|]. cbn. eauto 10.
Qed.
End ReaderFacts.

Lemma BinFileIn_read_consumes (f f' : BinFileIn) (u : list byte) :
  BinFileIn_read f = (Ok u, f') -> unit_empty u = false -> (pending f' < pending f)%nat.
Proof.
  rewrite (BinFileIn_destruct f).
  destruct (in_failbit (bin_inFile f)) eqn:Hf.
  { unfold BinFileIn_read. cbn [bin_inFile in_failbit]. intros [=]. }
  destruct (in_eofbit (bin_inFile f)) eqn:He.
  { cbv. intros [= <- _]. intros [=]. }
  set (o := in_is_open _). set (bs := in_pending _).
  destruct (decide (length bs < 4)%nat) as [Hlt|Hge].
  - rewrite BinFileIn_read_short by done. intros [= <- _]. intros [=].
  - destruct bs as [|b0 [|b1 [|b2 [|b3 rest]]]]; simpl in Hge; try lia.
    rewrite BinFileIn_read_frame. intros [= _ <-] _.
    unfold pending, BinFileIn_Pending. cbn [bin_inFile].
    destruct (_ <=? _)%nat; cbn [in_pending length]; [rewrite length_drop|]; lia.
Qed.

Lemma split_line_length bs line rest :
  split_line bs = (line, Some rest) -> (length rest < length bs)%nat.
Proof.
  revert line. induction bs as [|b bs IH]; intros line; cbn [split_line]; [intros [=]|].
  destruct (Byte.eqb b newline).
  - intros [= _ <-]. cbn. lia.
  - destruct (split_line bs) as [line' rest'] eqn:E. intros [= _ ->].
    specialize (IH _ eq_refl). cbn. lia.
Qed.

Lemma CSVFileIn_read_consumes (f f' : CSVFileIn) (u : string) :
  CSVFileIn_read f = (Ok u, f') -> unit_empty u = false -> (pending f' < pending f)%nat.
Proof.
  destruct f as [[o bs e fl]]. unfold CSVFileIn_read, ifstream_getline, ifstream_good.
  cbn [csv_inFile in_eofbit in_failbit in_pending in_is_open].
  destruct e, fl; cbn [negb andb ifstream_setfail in_failbit in_eofbit]; try (intros [=]; fail).
  destruct (split_line bs) as [line [rest|]] eqn:E; cbn [in_failbit in_eofbit].
  - intros [= _ <-] _. unfold pending, CSVFileIn_Pending. cbn.
    by eapply split_line_length.
  - destruct line as [|c line]; [intros [=]|].
    intros [= _ <-] _. unfold pending, CSVFileIn_Pending. cbn.
    destruct bs; [discriminate E|cbn; lia].
Qed.

(** *** What the two transports hand out of a file *)

Lemma ifstream_open_closed (fs : filesystem) p s :
  in_is_open s = false ->
  ifstream_open fs p (openmode_or ios_binary ios_in) s
  = match fs !! p with
    | Some content => mk_ifstream true content false false
    | None => ifstream_setfail s
    end.
Proof. intros H. unfold ifstream_open, fopen. rewrite H. cbn. by destruct (fs !! p). Qed.

Lemma BinFileIn_close_closed f : in_is_open (bin_inFile (BinFileIn_close f)) = false.
Proof.
  unfold BinFileIn_close. destruct (in_is_open (bin_inFile f)) eqn:E; [|done].
  cbn. unfold ifstream_close. by rewrite E.
Qed.

Lemma CSVFileIn_close_closed f : in_is_open (csv_inFile (CSVFileIn_close f)) = false.
Proof.
  unfold CSVFileIn_close. destruct (in_is_open (csv_inFile f)) eqn:E; [|done].
  cbn. unfold ifstream_close. by rewrite E.
Qed.

Lemma BinFileIn_open_ok (fs : filesystem) p f f0 :
  BinFileIn_open fs p f = (Ok tt, f0) ->
  exists content,
    fs !! p = Some content /\ f0 = mk_BinFileIn (mk_ifstream true content false false).
Proof.
  unfold BinFileIn_open.
  rewrite ifstream_open_closed by apply BinFileIn_close_closed.
  destruct (fs !! p) as [content|].
  - intros [= <-]. by exists content.
  - cbn. intros [=].
Qed.

Lemma CSVFileIn_open_ok (fs : filesystem) p f f0 :
  CSVFileIn_open fs p f = (Ok tt, f0) ->
  exists content,
    fs !! p = Some content /\ f0 = mk_CSVFileIn (mk_ifstream true content false false).
Proof.
  unfold CSVFileIn_open.
  rewrite ifstream_open_closed by apply CSVFileIn_close_closed.
  destruct (fs !! p) as [content|].
  - intros [= <-]. by exists content.
  - cbn. intros [=].
Qed.

Section TransportUnits.
Context {T : Type}.

Lemma BinFileIn_failed_units {conv : Converter T (list byte)} (f fend : BinFileIn) items :
  in_failbit (bin_inFile f) = true -> decoded_units f items fend -> items = [].
Proof.
  intros Hfail Hrun.
  inversion Hrun as [| | |g u g' item items' gend Hread]; subst; try reflexivity.
  cbn [fin_read BinFileIn_FileIn] in Hread. unfold BinFileIn_read in Hread.
  rewrite Hfail in Hread. discriminate Hread.
Qed.

Lemma BinFileIn_units_items {conv : Converter T (list byte)} (f fend : BinFileIn) items :
  decoded_units f items fend ->
  in_eofbit (bin_inFile f) = false -> in_failbit (bin_inFile f) = false ->
  bin_file_items (in_pending (bin_inFile f)) items.
Proof.
  induction 1 as [f e f' Hread|f u f' Hread Hempty|f u f' e Hread Hempty Hconv
                  |f u f' item items fend Hread Hempty Hconv Hrun IH];
    intros Heof Hfail;
    cbn [fin_read BinFileIn_FileIn] in Hread;
    rewrite (BinFileIn_destruct f), Heof, Hfail in Hread;
    destruct (decide (length (in_pending (bin_inFile f)) < 4)%nat) as [Hlt|Hge];
    try (rewrite BinFileIn_read_short in Hread by done);
    try (by apply bin_items_end);
    try (injection Hread as <- <-; discriminate Hempty).
  all: destruct (in_pending (bin_inFile f)) as [|b0 [|b1 [|b2 [|b3 rest]]]];
    simpl in Hge; try lia.
  all: rewrite BinFileIn_read_frame in Hread; cbv zeta in Hread.
  all: remember (N.to_nat (le_value [b0; b1; b2; b3])) as n eqn:Hn.
  all: assert (length (fill_buffer n (take n rest)) = n) as Hlen
      by (apply length_fill_buffer; rewrite length_take; lia).
  - discriminate Hread.
  - injection Hread as <- <-. apply bin_items_empty_frame.
    destruct (fill_buffer n (take n rest)); [|discriminate Hempty].
    apply N2Nat.inj. rewrite <- Hn, <- Hlen. reflexivity.
  - injection Hread as <- <-. apply (bin_items_bad_frame _ _ _ _ _ n e); [done| |done].
    intros Hz. rewrite Hz in Hempty. by cbv in Hempty.
  - injection Hread as <- <-. apply (bin_items_frame _ _ _ _ _ n); [done| |done|].
    + intros Hz. rewrite Hz in Hempty. by cbv in Hempty.
    + destruct (n <=? length rest)%nat eqn:E.
      * by apply IH.
      * apply Nat.leb_gt in E.
        apply BinFileIn_failed_units in Hrun as ->; [|reflexivity].
        apply bin_items_end. rewrite length_drop. lia.
Qed.

Lemma CSVFileIn_ended_units {conv : Converter T string} (f fend : CSVFileIn) items :
  ifstream_good (csv_inFile f) = false -> decoded_units f items fend -> items = [].
Proof.
  intros Hgood Hrun.
  inversion Hrun as [| | |g u g' item items' gend Hread]; subst; try reflexivity.
  cbn [fin_read CSVFileIn_FileIn] in Hread.
  unfold CSVFileIn_read, ifstream_getline in Hread. rewrite Hgood in Hread.
  cbn in Hread. by destruct (in_eofbit (csv_inFile f)).
Qed.

Lemma unit_empty_line (line : list byte) :
  unit_empty (string_of_list_byte line) = bool_decide (line = []).
Proof. by destruct line. Qed.

Lemma CSVFileIn_units_items {conv : Converter T string} (f fend : CSVFileIn) items :
  decoded_units f items fend ->
  ifstream_good (csv_inFile f) = true ->
  csv_file_items (in_pending (csv_inFile f)) items.
Proof.
  induction 1 as [f e f' Hread|f u f' Hread Hempty|f u f' e Hread Hempty Hconv
                  |f u f' item items fend Hread Hempty Hconv Hrun IH];
    intros Hgood;
    cbn [fin_read CSVFileIn_FileIn] in Hread;
    unfold CSVFileIn_read, ifstream_getline in Hread; rewrite Hgood in Hread;
    cbn [negb] in Hread;
    destruct (split_line (in_pending (csv_inFile f))) as [line [rest|]] eqn:Hsplit;
    cbn [in_failbit in_eofbit] in Hread.
  - discriminate Hread.
  - destruct line; [by eapply csv_items_end|discriminate Hread].
  - injection Hread as <- <-. rewrite unit_empty_line in Hempty.
    apply bool_decide_eq_true_1 in Hempty as ->. by eapply csv_items_end.
  - destruct line; [discriminate Hread|]. injection Hread as <- <-. discriminate Hempty.
  - injection Hread as <- <-. rewrite unit_empty_line in Hempty.
    apply bool_decide_eq_false_1 in Hempty. by eapply csv_items_bad_line.
  - destruct line; [discriminate Hread|]. injection Hread as <- <-.
    by eapply csv_items_bad_line.
  - injection Hread as <- <-. rewrite unit_empty_line in Hempty.
    apply bool_decide_eq_false_1 in Hempty.
    eapply csv_items_line; [exact Hsplit|done|done|]. by apply IH.
  - destruct line as [|c line]; [discriminate Hread|]. injection Hread as <- <-.
    apply CSVFileIn_ended_units in Hrun as ->; [|reflexivity].
    eapply csv_items_line; [exact Hsplit|done|done|].
    by eapply (csv_items_end [] None).
Qed.
End TransportUnits.

(** The values of a file are determined by its bytes. *)
Lemma bin_file_items_functional {T : Type} {conv : Converter T (list byte)} bs
    (items1 items2 : list T) :
  bin_file_items bs items1 -> bin_file_items bs items2 -> items1 = items2.
Proof.
  intros H1. revert items2.
  induction H1 as [bs Hlt|b0 b1 b2 b3 rest Hz|b0 b1 b2 b3 rest n e Hn Hnz Hconv
                   |b0 b1 b2 b3 rest n item items Hn Hnz Hconv Hrest IH];
    intros items2 H2; inversion H2; subst;
    try reflexivity; try (cbn in *; lia); try congruence.
  f_equal; [congruence|]. by apply IH.
Qed.

Lemma csv_file_items_functional {T : Type} {conv : Converter T string} bs
    (items1 items2 : list T) :
  csv_file_items bs items1 -> csv_file_items bs items2 -> items1 = items2.
Proof.
  intros H1. revert items2.
  induction H1 as [bs tail Hs|bs line tail e Hs Hne Hconv
                   |bs line tail item items Hs Hne Hconv Hrest IH];
    intros items2 H2; inversion H2; subst;
    try reflexivity; try congruence.
  assert (line0 = line /\ tail0 = tail) as [-> ->] by (split; congruence).
  f_equal; [congruence|]. by apply IH.
Qed.

(** A binary channel file of two frames and two more bytes holds the
    two values of its frames. *)
Example channel_file_values :
  let host := little_endian_host in
  bin_file_items (frames [first_double; fresh_double] ++ [x10; x00])
    [first_double; fresh_double].
Proof.
  intros host.
  eapply (bin_items_frame _ _ _ _ _ 12); [reflexivity|done|reflexivity|].
  eapply (bin_items_frame _ _ _ _ _ 12); [reflexivity|done|reflexivity|].
  apply bin_items_end. cbn. lia.
Qed.

(** Claim C6.  For the binary and the text transport and every
    converter, [Reader::load()] always returns.  It raises only when the
    reader is not open and either no path is configured or the open of
    the transport raises, and the buffer is then untouched.  Otherwise
    it returns normally, however the reading ends: the buffer holds,
    with nothing of the prior buffer, the values decoded from the
    successive units of the transport, in order, up to the first unit
    that is missing, empty or not decodable; when the reader had to be
    opened these are the values the file at its path holds, frame after
    frame or line after line; and the reader is marked closed and its
    stream is closed. *)
Theorem Reader_load_contract_holds :
  (forall (T : Type) (conv : Converter T (list byte)) (fs : filesystem)
          (r : Reader T BinFileIn),
      load_contract bin_file_items (fun f => in_is_open (bin_inFile f) = false) fs r) /\
  (forall (T : Type) (conv : Converter T string) (fs : filesystem)
          (r : Reader T CSVFileIn),
      load_contract csv_file_items (fun f => in_is_open (csv_inFile f) = false) fs r).
Proof.
  split; intros T conv fs r; apply Reader_load_contract.
  - apply BinFileIn_read_consumes.
  - apply BinFileIn_close_closed.
  - intros fs' p f f0 items fend Hopen Hrun.
    apply BinFileIn_open_ok in Hopen as (content & Hfile & ->).
    exists content. split; [done|]. by apply (BinFileIn_units_items _ _ _ Hrun).
  - apply CSVFileIn_read_consumes.
  - apply CSVFileIn_close_closed.
  - intros fs' p f f0 items fend Hopen Hrun.
    apply CSVFileIn_open_ok in Hopen as (content & Hfile & ->).
    exists content. split; [done|]. by apply (CSVFileIn_units_items _ _ _ Hrun).
Qed.

(** A reader that still buffers a value of an earlier load: the buffer
    is replaced by the values of the file, and the reader and its
    stream end up closed. *)
Example Reader_load_replaces_buffer :
  let host := little_endian_host in
  Reader_load {[ "f" := frames [first_double; fresh_double] ]}
    (mk_Reader (F:=BinFileIn) fin_new [stale_double] "f" false)
  = Some (Ok tt,
          mk_Reader (mk_BinFileIn (mk_ifstream false [] true true))
            [first_double; fresh_double] "f" false,
          []).
Proof. vm_compute. reflexivity. Qed.

(** Two truncated channel files on a little-endian host.  Cut inside
    the length field of the second frame, the file loads as its first
    frame, silently.  Cut inside the payload of the second frame, it
    loads as the first frame followed by the zero-padded rest, and the
    failed stream ends the loop with a logged error. *)
Example Reader_load_truncated_files :
  let host := little_endian_host in
  let exhausted := mk_BinFileIn (mk_ifstream false [] true true) in
  Reader_load {[ "f" := frames [first_double] ++ [x10; x00] ]}
    (Reader_new (T:=double) (F:=BinFileIn) "f")
  = Some (Ok tt, mk_Reader exhausted [first_double] "f" false, [])
  /\ Reader_load {[ "f" := frames [first_double] ++ take 10 (frames [fresh_double]) ]}
       (Reader_new (T:=double) (F:=BinFileIn) "f")
     = Some (Ok tt,
             mk_Reader exhausted
               [first_double; mk_double x02 x02 x00 x00 x00 x00 x00 x00] "f" false,
             ["Error reading file: Failed to read/convert data: No file opened for reading"]).
Proof. split; vm_compute; reflexivity. Qed.

(** ** Writing and reading back binary channel files *)

Lemma overwrite_app pos a b old :
  (pos <= length old)%nat ->
  overwrite (pos + length a) b (overwrite pos a old) = overwrite pos (a ++ b) old.
Proof.
  intros Hpos. unfold overwrite.
  assert (length (take pos old) = pos) as Hlen by (rewrite length_take; lia).
  rewrite (app_assoc (take pos old) a).
  rewrite take_app_length' by (rewrite length_app; lia).
  rewrite drop_app_ge by (rewrite length_app; lia).
  rewrite length_app, Hlen, drop_drop, length_app, <- !app_assoc.
  do 3 f_equal. f_equal. lia.
Qed.

Lemma overwrite_nil pos old : overwrite pos [] old = old.
Proof. unfold overwrite. cbn. rewrite Nat.add_0_r. apply take_drop. Qed.

Lemma length_overwrite pos data old :
  (pos <= length old)%nat -> (pos + length data <= length (overwrite pos data old))%nat.
Proof. intros H. unfold overwrite. rewrite !length_app, length_take. lia. Qed.

Lemma ofstream_write_open (fs : filesystem) path pos data content :
  fs !! path = Some content ->
  ofstream_write fs data (mk_ofstream (Some path) pos false)
  = (<[path := overwrite pos data content]> fs,
     mk_ofstream (Some path) (pos + length data) false).
Proof. intros H. unfold ofstream_write. cbn. by rewrite H. Qed.

Lemma ofstream_write_twice (fs : filesystem) path pos a b content :
  fs !! path = Some content -> (pos <= length content)%nat ->
  (let '(fs1, s1) := ofstream_write fs a (mk_ofstream (Some path) pos false) in
   ofstream_write fs1 b s1)
  = ofstream_write fs (a ++ b) (mk_ofstream (Some path) pos false).
Proof.
  intros H Hpos.
  rewrite !(ofstream_write_open fs _ _ _ _ H).
  rewrite (ofstream_write_open _ _ _ _ (overwrite pos a content)) by apply lookup_insert_eq.
  rewrite insert_insert_eq, overwrite_app, length_app by done.
  by rewrite Nat.add_assoc.
Qed.

Lemma write_size_field_open (fs : filesystem) path pos n content :
  fs !! path = Some content -> (pos <= length content)%nat ->
  write_size_field 4 0 n fs (mk_ofstream (Some path) pos false)
  = ofstream_write fs (le_bytes 4 n) (mk_ofstream (Some path) pos false).
Proof.
  intros H Hpos.
  change (le_bytes 4 n) with
    ([static_cast_uint8 (N.shiftr n (0 * 8))] ++ [static_cast_uint8 (N.shiftr n ((0 + 1) * 8))]
     ++ [static_cast_uint8 (N.shiftr n ((0 + 1 + 1) * 8))]
     ++ [static_cast_uint8 (N.shiftr n ((0 + 1 + 1 + 1) * 8))]).
  rewrite <- !(ofstream_write_twice fs path pos _ _ content) by done.
  cbn [write_size_field].
  rewrite (ofstream_write_open fs _ _ _ _ H).
  set (c1 := overwrite pos _ content).
  assert (pos + 1 <= length c1)%nat by (apply (length_overwrite pos [_]); done).
  rewrite <- !(ofstream_write_twice _ path _ _ _ c1) by (done || apply lookup_insert_eq).
  erewrite (ofstream_write_open (<[path := c1]> fs)) by apply lookup_insert_eq.
  set (c2 := overwrite _ _ c1).
  assert (pos + 1 + 1 <= length c2)%nat by (apply (length_overwrite (pos + 1) [_]); done).
  cbn [length].
  rewrite <- !(ofstream_write_twice _ path _ _ _ c2) by (done || apply lookup_insert_eq).
  destruct (ofstream_write (<[path:=c2]> _) _ _) as [fs1 s1].
  by destruct (ofstream_write fs1 _ s1).
Qed.

Lemma BinFileOut_write_open (fs : filesystem) path pos data content :
  fs !! path = Some content -> (pos <= length content)%nat ->
  BinFileOut_write fs data (mk_BinFileOut (mk_ofstream (Some path) pos false))
  = (Ok tt, <[path := overwrite pos (frame data) content]> fs,
     mk_BinFileOut (mk_ofstream (Some path) (pos + length (frame data)) false)).
Proof.
  intros H Hpos. unfold BinFileOut_write. cbn [bin_outFile out_failbit].
  rewrite (write_size_field_open fs path pos _ content) by done.
  pose proof (ofstream_write_twice fs path pos
                (le_bytes 4 (static_cast_uint32 (N.of_nat (length data)))) data content H Hpos)
    as Htwice.
  destruct (ofstream_write fs (le_bytes 4 _) _) as [fs1 s1].
  rewrite Htwice. fold (frame data).
  by rewrite (ofstream_write_open fs _ _ _ _ H).
Qed.

Section BinRoundTrip.
Context {host : Host}.

Lemma length_encode d : length (CasinoBinConverter_encode d) = 12%nat.
Proof. by destruct host. Qed.

Lemma length_frame_encode d : length (frame (CasinoBinConverter_encode d)) = 16%nat.
Proof. unfold frame. rewrite length_app, length_encode. reflexivity. Qed.

Lemma length_frames values : length (frames values) = (16 * length values)%nat.
Proof.
  unfold frames. induction values as [|d vs IH]; [done|].
  cbn [map concat]. rewrite length_app, length_frame_encode, IH. cbn [length]. lia.
Qed.

Lemma decode_encode d rest :
  CasinoBinConverter_decode (CasinoBinConverter_encode d ++ rest) = Ok d.
Proof. destruct d. by destruct host. Qed.

Lemma Writer_put_each_open (fs : filesystem) path p pos values content :
  fs !! path = Some content -> (pos <= length content)%nat ->
  Writer_put_each fs values
    (mk_Writer (mk_BinFileOut (mk_ofstream (Some path) pos false)) p true)
  = (Ok tt, <[path := overwrite pos (frames values) content]> fs,
     mk_Writer (mk_BinFileOut
                  (mk_ofstream (Some path) (pos + length (frames values)) false)) p true).
Proof.
  revert fs pos content. induction values as [|d vs IH]; intros fs pos content H Hpos.
  - cbn [Writer_put_each frames map concat length].
    by rewrite overwrite_nil, insert_id, Nat.add_0_r.
  - cbn [Writer_put_each]. unfold Writer_put at 1.
    cbn [w_file w_path w_isOpen fout_write BinFileOut_FileOut convert_to CasinoBinConverter].
    rewrite (BinFileOut_write_open fs path pos _ content) by done.
    rewrite (IH _ _ (overwrite pos (frame (CasinoBinConverter_encode d)) content))
      by (apply lookup_insert_eq || (etrans; [|by apply length_overwrite]; lia)).
    rewrite insert_insert_eq, overwrite_app by done.
    change (frames (d :: vs)) with (frame (CasinoBinConverter_encode d) ++ frames vs).
    by rewrite length_app, Nat.add_assoc.
Qed.

Lemma Reader_load_loop_frames fs fuel o values data p cerr :
  (length values < fuel)%nat ->
  Reader_load_loop fuel fs
    (mk_Reader (mk_BinFileIn (mk_ifstream o (frames values) false false)) data p true) cerr
  = Some (Ok tt,
          mk_Reader (mk_BinFileIn (mk_ifstream o [] true true)) (data ++ values) p true,
          cerr).
Proof.
  revert fuel data. induction values as [|d vs IH]; intros fuel data Hfuel;
    (destruct fuel as [|fuel]; [cbn in Hfuel; lia|]).
  - cbn [Reader_load_loop]. rewrite Reader_read_when_open by done.
    unfold Reader_read_opened.
    cbn [r_file fin_read BinFileIn_FileIn frames map concat].
    rewrite BinFileIn_read_short by (cbn; lia).
    cbn. by rewrite app_nil_r.
  - cbn [Reader_load_loop]. rewrite Reader_read_when_open by done.
    unfold Reader_read_opened.
    cbn [r_file fin_read BinFileIn_FileIn].
    unfold frames. cbn [map concat]. fold (frames vs).
    unfold frame at 1. rewrite length_encode.
    change (le_bytes 4 (static_cast_uint32 (N.of_nat 12))) with [x0c; x00; x00; x00].
    cbn [app]. rewrite BinFileIn_read_frame.
    change (N.to_nat (le_value [x0c; x00; x00; x00])) with 12%nat.
    assert (take 12 (CasinoBinConverter_encode d ++ frames vs)
            = CasinoBinConverter_encode d) as ->
      by (rewrite <- (length_encode d); apply take_app_length).
    assert (drop 12 (CasinoBinConverter_encode d ++ frames vs) = frames vs) as ->
      by (rewrite <- (length_encode d); apply drop_app_length).
    assert ((12 <=? length (CasinoBinConverter_encode d ++ frames vs))%nat = true) as ->
      by (apply Nat.leb_le; rewrite length_app, length_encode; lia).
    assert (fill_buffer 12 (CasinoBinConverter_encode d) = CasinoBinConverter_encode d) as ->
      by (unfold fill_buffer; rewrite length_encode; apply app_nil_r).
    assert (unit_empty (CasinoBinConverter_encode d) = false) as ->
      by (by destruct host).
    cbn [convert_from CasinoBinConverter].
    rewrite <- (app_nil_r (CasinoBinConverter_encode d)), decode_encode.
    cbn [r_data r_path r_isOpen].
    unfold Reader_push_back. cbn [r_file r_data r_path r_isOpen].
    rewrite IH by (cbn in Hfuel; lia).
    by rewrite <- app_assoc.
Qed.
End BinRoundTrip.

Lemma BinFileOut_open_existing (fs : filesystem) path content :
  fs !! path = Some content ->
  BinFileOut_open fs path (mk_BinFileOut ofstream_new)
  = (Ok tt, fs, mk_BinFileOut (mk_ofstream (Some path) 0 false)).
Proof.
  intros H. unfold BinFileOut_open, BinFileOut_close, ofstream_open, fopen.
  cbn. by rewrite H.
Qed.

Lemma BinFileIn_open_existing (fs : filesystem) path content :
  fs !! path = Some content ->
  BinFileIn_open fs path (mk_BinFileIn ifstream_new)
  = (Ok tt, mk_BinFileIn (mk_ifstream true content false false)).
Proof.
  intros H. unfold BinFileIn_open, BinFileIn_close, ifstream_open, fopen.
  cbn. by rewrite H.
Qed.

(** Round trip through a file that was no longer than the encoded
    sequence when the writer opened it: every double comes back, bit
    for bit. *)
Lemma bin_write_then_load_roundtrip {host : Host} (fs : filesystem) path values old :
  path <> "" ->
  fs !! path = Some old ->
  (length old <= 16 * length values)%nat ->
  bin_write_then_load fs path values = (Ok tt, Some (Ok tt, values)).
Proof.
  intros Hpath Hold Hlen. unfold bin_write_then_load.
  unfold Writer_write_range, Writer_ensure_open, Writer_new, Writer_open.
  cbn [w_isOpen negb w_path w_file fout_open fout_new BinFileOut_FileOut].
  rewrite bool_decide_eq_false_2 by done.
  rewrite (BinFileOut_open_existing fs path old) by done.
  rewrite (Writer_put_each_open fs path path 0 values old) by (done || lia).
  assert (overwrite 0 (frames values) old = frames values) as ->.
  { unfold overwrite. cbn [take Nat.add app].
    rewrite drop_ge by (rewrite length_frames; lia). apply app_nil_r. }
  unfold Reader_load, Reader_new, Reader_open.
  cbn [r_isOpen negb r_path r_file fin_open fin_new BinFileIn_FileIn].
  rewrite bool_decide_eq_false_2 by done.
  rewrite (BinFileIn_open_existing _ path (frames values)) by apply lookup_insert_eq.
  unfold Reader_flush. cbn [r_file r_data r_path r_isOpen].
  rewrite Reader_load_loop_frames.
  - reflexivity.
  - unfold pending, BinFileIn_Pending. cbn [bin_inFile in_pending].
    rewrite length_frames. lia.
Qed.

(** Claim C1, evaluated on a little-endian host at the failing input:
    the channel file already holds two frames, both transports open, one
    double is written and the file is read back; two doubles come back,
    the second one from the old content, because the writer opens its
    file for update without truncating it
    ([bin_write_then_load_roundtrip] gives the round trip for files that
    were not longer than what is written). *)
Theorem stale_file_breaks_roundtrip :
  let path := "Replication1/automat.csv" in
  let old := frames (host:=little_endian_host) [first_double; stale_double] in
  bin_write_then_load (host:=little_endian_host) {[ path := old ]} path [fresh_double]
  = (Ok tt, Some (Ok tt, [fresh_double; stale_double]))
  /\ [fresh_double; stale_double] <> [fresh_double].
Proof. split; [vm_compute; reflexivity | discriminate]. Qed.

(** Claim C3.  When the target file does not exist, [BinFileOut::open]
    and [CSVFileOut::open] raise from any transport state and create
    nothing, and the first [Writer::write] through either transport, for
    any converter and value, raises the runtime error of the lazy open
    and leaves the file system as it was. *)
Theorem writer_open_requires_existing_file (fs : filesystem) (path : string) :
  fs !! path = None ->
  path <> "" ->
  (forall f, exists f',
      BinFileOut_open fs path f
      = (Throw (runtime_error ("Failed to open file: " ++ path)), fs, f')) /\
  (forall f, exists f',
      CSVFileOut_open fs path f
      = (Throw (runtime_error ("Failed to open file: " ++ path)), fs, f')) /\
  (forall (T : Type) (conv : Converter T (list byte)) (data : T), exists w',
      Writer_write fs data (Writer_new (F:=BinFileOut) path)
      = (Throw (runtime_error ("Failed to open file: " ++ path ++
                               " (Failed to open file: " ++ path ++ ")")), fs, w')) /\
  (forall (T : Type) (conv : Converter T string) (data : T), exists w',
      Writer_write fs data (Writer_new (F:=CSVFileOut) path)
      = (Throw (runtime_error ("Failed to open file: " ++ path ++
                               " (Failed to open file: " ++ path ++ ")")), fs, w')).
Proof.
  intros Hnone Hpath.
  assert (forall s, ofstream_is_open s = false ->
            ofstream_open fs path (openmode_or ios_binary ios_in) s = (fs, ofstream_setfail s))
    as Hopen.
  { intros s Hs. unfold ofstream_open, fopen. rewrite Hs. cbn. by rewrite Hnone. }
  assert (forall s, ofstream_is_open (if ofstream_is_open s then ofstream_close s else s) = false)
    as Hclosed.
  { intros s. destruct (ofstream_is_open s) eqn:E; [|done].
    unfold ofstream_close. by rewrite E. }
  assert (forall f, exists f', BinFileOut_open fs path f
            = (Throw (runtime_error ("Failed to open file: " ++ path)), fs, f')) as Hbin.
  { intros [s]. unfold BinFileOut_open, BinFileOut_close. cbn [bin_outFile].
    pose proof (Hclosed s) as Hc.
    destruct (ofstream_is_open s); cbn [bin_outFile]; rewrite Hopen by done; cbn; eauto. }
  assert (forall f, exists f', CSVFileOut_open fs path f
            = (Throw (runtime_error ("Failed to open file: " ++ path)), fs, f')) as Hcsv.
  { intros [s]. unfold CSVFileOut_open, CSVFileOut_close. cbn [csv_outFile].
    pose proof (Hclosed s) as Hc.
    destruct (ofstream_is_open s); cbn [csv_outFile]; rewrite Hopen by done; cbn; eauto. }
  split; [exact Hbin|]. split; [exact Hcsv|]. split.
  - intros T conv data.
    unfold Writer_write, Writer_ensure_open, Writer_new, Writer_open.
    cbn [w_isOpen negb w_path w_file fout_open fout_new BinFileOut_FileOut].
    rewrite bool_decide_eq_false_2 by done.
    destruct (Hbin (mk_BinFileOut ofstream_new)) as [f' ->]. cbn. eauto.
  - intros T conv data.
    unfold Writer_write, Writer_ensure_open, Writer_new, Writer_open.
    cbn [w_isOpen negb w_path w_file fout_open fout_new CSVFileOut_FileOut].
    rewrite bool_decide_eq_false_2 by done.
    destruct (Hcsv (mk_CSVFileOut ofstream_new)) as [f' ->]. cbn. eauto.
Qed.

Lemma writer_open_requires_existing_file_witness :
  exists w',
    Writer_write (T:=double) (conv:=CasinoBinConverter (host:=little_endian_host))
      (∅ : filesystem) double_zero (Writer_new (F:=BinFileOut) "Replication1/automat.csv")
    = (Throw (runtime_error
                "Failed to open file: Replication1/automat.csv (Failed to open file: Replication1/automat.csv)"),
       ∅, w').
Proof.
  destruct (writer_open_requires_existing_file ∅ "Replication1/automat.csv") as (_ & _ & H & _);
    [reflexivity | discriminate |].
  exact (H double (CasinoBinConverter (host:=little_endian_host)) double_zero).
Defined.

(** ** Sorting the discovered replications *)

Lemma map_linear_insert {A B} (f : A -> B) comp comp' val l :
  (forall a b, comp a b = comp' (f a) (f b)) ->
  map f (linear_insert comp val l) = linear_insert comp' (f val) (map f l).
Proof.
  intros Hc. induction l as [|x l IH]; [done|].
  cbn [linear_insert map]. rewrite <- Hc.
  destruct (comp val x); cbn [map]; by rewrite ?IH.
Qed.

Lemma map_std_sort {A B} (f : A -> B) comp comp' l :
  (forall a b, comp a b = comp' (f a) (f b)) ->
  map f (std_sort comp l) = std_sort comp' (map f l).
Proof.
  intros Hc. unfold std_sort. rewrite map_rev. f_equal.
  change (@nil B) with (map f []). generalize (@nil A).
  induction l as [|x l IH]; intros acc; [done|].
  cbn [fold_left map]. rewrite IH. f_equal. by apply map_linear_insert.
Qed.

Section DiscoveryFacts.
Context {Rd : Type} {rinit : ReplicationInit Rd}.

Lemma sortReplications_names (im : InputManager Rd) :
  replication_names (InputManager_sortReplications im)
  = std_sort name_less (replication_names im).
Proof.
  unfold replication_names, InputManager_sortReplications. cbn [im_replications].
  set (mk := fun rep : Replication Rd =>
               mk_Sortable rep (sort_number (rep_name rep)) (rep_name rep)).
  rewrite <- (map_std_sort mk (fun a b => SortableReplication_less (mk a) (mk b)))
    by reflexivity.
  rewrite !map_map.
  exact (map_std_sort rep_name _ name_less _ (fun a b => eq_refl)).
Qed.

Hypothesis init_keeps_name :
  forall r : Replication Rd, rep_name (Replication_init r) = rep_name r.

Lemma make_replication_name ctor path name :
  rep_name (make_replication (Rd:=Rd) ctor path name) = name.
Proof. unfold make_replication. by rewrite init_keeps_name. Qed.

Lemma loadReplications_names entries (im : InputManager Rd) :
  replication_names (InputManager_loadReplications (Ok entries) im).2
  = std_sort name_less
      (replication_names im
       ++ map entry_filename (List.filter entry_is_directory entries)).
Proof.
  unfold InputManager_loadReplications. cbn [snd].
  rewrite sortReplications_names. f_equal.
  generalize (im_basePath im) as base. intros base.
  revert im. induction entries as [|entry rest IH]; intros im.
  - cbn. by rewrite app_nil_r.
  - cbn [fold_left List.filter]. rewrite IH.
    destruct (entry_is_directory entry); [|done].
    unfold replication_names, InputManager_push. cbn [im_replications map].
    rewrite map_app. cbn [map]. rewrite make_replication_name, <- app_assoc. done.
Qed.
End DiscoveryFacts.

Lemma CasinoBinReplication_init_name (r : Replication CasinoBinReader) :
  rep_name (Replication_init r) = rep_name r.
Proof. reflexivity. Qed.

Lemma CasinoReplication_init_name (r : Replication CasinoCSVReader) :
  rep_name (Replication_init r) = rep_name r.
Proof. reflexivity. Qed.

(** Whatever the order of discovery, the four names leave the sort in
    one order. *)
Lemma std_sort_discovered (names : list string) :
  names ≡ₚ discovered_names -> std_sort name_less names = sorted_names.
Proof.
  intros Hperm. symmetry in Hperm.
  apply permutations_Permutation, list_elem_of_In in Hperm.
  assert (forallb (fun l => bool_decide (std_sort name_less l = sorted_names))
            (permutations discovered_names) = true) as Hall
    by (vm_compute; reflexivity).
  rewrite List.forallb_forall in Hall.
  specialize (Hall _ Hperm). by apply bool_decide_eq_true in Hall.
Qed.

(** [sorted_names] is the only arrangement of the four names that the
    comparison orders, so the outcome does not depend on the sorting
    algorithm. *)
Lemma sorted_by_discovered_unique (names : list string) :
  names ≡ₚ discovered_names -> sorted_by name_less names = true -> names = sorted_names.
Proof.
  intros Hperm. symmetry in Hperm.
  apply permutations_Permutation, list_elem_of_In in Hperm.
  assert (forallb (fun l => implb (sorted_by name_less l) (bool_decide (l = sorted_names)))
            (permutations discovered_names) = true) as Hall
    by (vm_compute; reflexivity).
  rewrite List.forallb_forall in Hall.
  specialize (Hall _ Hperm). intros Hsorted. rewrite Hsorted in Hall.
  by apply bool_decide_eq_true in Hall.
Qed.

(** Claim C2, as amended.  After discovery over exactly the
    subdirectories "Rep2", "Rep10", "Rep1" and "Foo", listed in any
    order and among any plain files, the replication collection of both
    casino input managers is ordered Foo, Rep1, Rep2, Rep10: the name
    without a numeric key is placed by the lexicographic fallback, which
    puts it first. *)
Theorem discovery_order_of_named_directories (basePath : string) (entries : list directory_entry) :
  map entry_filename (List.filter entry_is_directory entries) ≡ₚ discovered_names ->
  replication_names
    (InputManager_loadReplications (Rd:=CasinoBinReader) (Ok entries)
       (InputManager_setBasePath basePath InputManager_new)).2 = sorted_names
  /\ replication_names
       (InputManager_loadReplications (Rd:=CasinoCSVReader) (Ok entries)
          (InputManager_setBasePath basePath InputManager_new)).2 = sorted_names.
Proof.
  intros Hperm. split.
  - rewrite (loadReplications_names CasinoBinReplication_init_name).
    by apply std_sort_discovered.
  - rewrite (loadReplications_names CasinoReplication_init_name).
    by apply std_sort_discovered.
Qed.

Lemma discovery_order_of_named_directories_witness :
  replication_names
    (InputManager_loadReplications (Rd:=CasinoBinReader)
       (Ok [dir "Rep2"; dir "Rep10"; mk_entry "notes.txt" false; dir "Rep1"; dir "Foo"])
       (InputManager_setBasePath "/results" InputManager_new)).2 = sorted_names.
Proof.
  refine (proj1 (discovery_order_of_named_directories "/results"
                   [dir "Rep2"; dir "Rep10"; mk_entry "notes.txt" false; dir "Rep1"; dir "Foo"]
                   _)).
  reflexivity.
Defined.

(** Claim C2 as stated fails: the collection is not ordered Rep1, Rep2,
    Rep10, Foo. *)
Lemma discovery_order_not_as_specified :
  replication_names
    (InputManager_loadReplications (Rd:=CasinoBinReader)
       (Ok [dir "Rep2"; dir "Rep10"; dir "Rep1"; dir "Foo"])
       (InputManager_setBasePath "/results" InputManager_new)).2
  <> ["Rep1"; "Rep2"; "Rep10"; "Foo"].
Proof. vm_compute. discriminate. Qed.

(** ** [loadBatch] *)

Lemma find_last_not_of_from_back chars s c i found :
  string_back s = Some c -> char_in c chars = false ->
  find_last_not_of_from chars s i found = (i + N.of_nat (String.length s) - 1)%N.
Proof.
  revert i found. induction s as [|a s IH]; intros i found; [intros [=]|].
  destruct s as [|b s'].
  - intros [= ->] Hc. cbn [find_last_not_of_from String.length]. rewrite Hc. lia.
  - intros Hback Hc.
    change (find_last_not_of_from chars (String a (String b s')) i found)
      with (find_last_not_of_from chars (String b s') (i + 1)
              (if char_in a chars then found else i)).
    rewrite IH by done. cbn [String.length]. lia.
Qed.

Lemma string_back_None s : string_back s = None -> s = "".
Proof.
  induction s as [|a s IH]; [done|].
  destruct s as [|b s']; [intros [=]|].
  intros H. discriminate (IH H).
Qed.

Lemma string_drop_all s : string_drop (String.length s) s = "".
Proof. induction s; [done|]. by cbn. Qed.

Lemma trailing_number_lacking name :
  (N.of_nat (String.length name) < SIZE_MOD)%N ->
  lacks_numeric_suffix name = true ->
  trailing_number name = Throw (invalid_argument "stoi").
Proof.
  intros Hlen. unfold lacks_numeric_suffix, trailing_number.
  destruct (string_back name) as [c|] eqn:Hback.
  - intros Hc. apply negb_true_iff in Hc.
    unfold find_last_not_of.
    rewrite (find_last_not_of_from_back _ _ c) by done.
    assert (String.length name <> 0%nat) by (destruct name; [discriminate Hback|done]).
    unfold size_t_succ.
    replace (0 + N.of_nat (String.length name) - 1 + 1)%N
      with (N.of_nat (String.length name)) by lia.
    rewrite N.mod_small by done.
    unfold substr. rewrite N.ltb_irrefl, Nat2N.id, string_drop_all. reflexivity.
  - intros _. by rewrite (string_back_None _ Hback).
Qed.

(** Claim C9.  [loadBatch(start, end)] with [end < start] raises
    [std::invalid_argument] and leaves the manager unchanged; and when
    [start <= end] and the scanned entries hold a subdirectory whose
    name lacks a trailing digit, the load does not skip it but aborts
    with the runtime error "Failed processing file: ..." naming a
    scanned subdirectory. *)
Theorem loadBatch_errors {Rd : Type} {rinit : ReplicationInit Rd}
    (start end_ : Z) (listing : result (list directory_entry)) (im : InputManager Rd) :
  ((end_ < start)%Z ->
   InputManager_loadBatch start end_ listing im
   = (Throw (invalid_argument "End value must be greater than or equal to start value"),
      im)) /\
  ((start <= end_)%Z ->
   forall entries bad,
     listing = Ok entries ->
     bad ∈ entries ->
     entry_is_directory bad = true ->
     lacks_numeric_suffix (entry_filename bad) = true ->
     (N.of_nat (String.length (entry_filename bad)) < SIZE_MOD)%N ->
     exists culprit im',
       culprit ∈ entries /\
       InputManager_loadBatch start end_ listing im
       = (Throw (runtime_error ("Failed processing file: " ++ entry_filename culprit)),
          im')).
Proof.
  split.
  - intros Hlt. unfold InputManager_loadBatch.
    by rewrite (proj2 (Z.ltb_lt _ _) Hlt).
  - intros Hle entries bad -> Hin Hdir Hlack Hlen.
    unfold InputManager_loadBatch.
    rewrite (proj2 (Z.ltb_ge _ _) Hle).
    pose proof (trailing_number_lacking _ Hlen Hlack) as Hbad.
    revert im. induction Hin as [bad rest|bad entry rest Hin IH]; intros im.
    + cbn [loadBatch_entries]. rewrite Hdir, Hbad.
      exists bad, im. split; [left|reflexivity].
    + cbn [loadBatch_entries].
      assert (forall im0, exists culprit im',
                 culprit ∈ entry :: rest /\
                 loadBatch_entries start end_ rest im0
                 = (Throw (runtime_error
                             ("Failed processing file: " ++ entry_filename culprit)), im'))
        as IH'.
      { intros im0. destruct (IH Hdir Hlack Hlen Hbad im0) as (culprit & im' & Hc & Heq).
        exists culprit, im'. split; [by right|exact Heq]. }
      destruct (entry_is_directory entry); [|apply IH'].
      destruct (trailing_number (entry_filename entry)) as [num|e].
      * destruct ((start <=? num)%Z && (num <=? end_)%Z); apply IH'.
      * exists entry, im. split; [left|reflexivity].
Qed.

Lemma loadBatch_errors_witness :
  InputManager_loadBatch (Rd:=CasinoBinReader) 5 1 (Ok [dir "Rep1"]) InputManager_new
  = (Throw (invalid_argument "End value must be greater than or equal to start value"),
     InputManager_new)
  /\ exists culprit im',
       culprit ∈ [dir "Rep1"; dir "Foo"; dir "Rep2"] /\
       InputManager_loadBatch (Rd:=CasinoBinReader) 1 5
         (Ok [dir "Rep1"; dir "Foo"; dir "Rep2"]) InputManager_new
       = (Throw (runtime_error ("Failed processing file: " ++ entry_filename culprit)), im').
Proof.
  split.
  - apply (loadBatch_errors (Rd:=CasinoBinReader) 5 1). reflexivity.
  - apply (proj2 (loadBatch_errors (Rd:=CasinoBinReader) 1 5 _ InputManager_new)) with (bad := dir "Foo").
    + discriminate.
    + reflexivity.
    + apply list_elem_of_In. right. left. reflexivity.
    + reflexivity.
    + reflexivity.
    + reflexivity.
Defined.

(** ** [newReplication] *)

Lemma to_int_not_nil (z : Z) :
  Z.to_int z <> Decimal.Pos Decimal.Nil /\ Z.to_int z <> Decimal.Neg Decimal.Nil.
Proof.
  split; intros H; pose proof (f_equal Z.of_int H) as H';
    rewrite DecimalZ.of_to in H'; cbn in H'; subst z; discriminate H.
Qed.

Lemma to_string_inj (a b : Z) : to_string a = to_string b -> a = b.
Proof.
  unfold to_string. intros H.
  apply (f_equal NilZero.int_of_string) in H.
  destruct (to_int_not_nil a), (to_int_not_nil b).
  rewrite !NilZero.isi in H by done.
  injection H as H. by apply DecimalZ.to_int_inj.
Qed.

Lemma string_app_inv_head (p a b : string) : (p ++ a = p ++ b)%string -> a = b.
Proof. induction p as [|c p IH]; [done|]. cbn. intros [= H]. auto. Qed.

Lemma replication_name_inj P : Finite.Injective (replication_name P).
Proof.
  intros i j H. apply string_app_inv_head, to_string_inj in H. lia.
Qed.

Section NewReplicationFacts.
Context {W : Type} {oinit : OutputInit W} {iw : IWriter W}.

Lemma newReplication_step env (om : OutputManager W) :
  (om_counter om < INT_MAX)%Z ->
  exists res om1,
    OutputManager_newReplication env om = Defined (res, om1) /\
    om_currentReplicationName om1
    = (om_replicationName om ++ to_string (om_counter om))%string /\
    om_counter om1 = (om_counter om + 1)%Z /\
    om_replicationName om1 = om_replicationName om.
Proof.
  intros Hlt. unfold OutputManager_newReplication, OutputManager_closeAllWriters.
  cbn [om_counter om_replicationName om_basePath].
  rewrite (proj2 (Z.leb_gt _ _) Hlt).
  destruct (fs_exists env _) as [[|]|e];
    [|destruct (fs_create_directory env _) as [[|]|e']|]; do 2 eexists; split;
    try reflexivity; auto.
Qed.

Lemma newReplication_calls_from (P : string) envs (k : nat) (om : OutputManager W) :
  om_replicationName om = P ->
  om_counter om = Z.of_nat k ->
  (Z.of_nat (k + length envs) <= INT_MAX)%Z ->
  exists om',
    newReplication_calls envs om
    = Defined (map (replication_name P) (seq k (length envs)), om').
Proof.
  revert k om. induction envs as [|env rest IH]; intros k om HP Hk Hmax.
  - eexists. reflexivity.
  - cbn [newReplication_calls length seq map].
    destruct (newReplication_step env om) as (res & om1 & -> & Hname & Hc & HP1).
    { cbn [length] in Hmax. lia. }
    destruct (IH (S k) om1) as (om' & ->).
    { congruence. }
    { rewrite Hc, Hk. lia. }
    { cbn [length] in Hmax. lia. }
    eexists. rewrite Hname, HP, Hk. reflexivity.
Qed.

(** Claim C7.  For an [OutputManager] named [P] whose counter holds
    its initial value 1, any number of consecutive [newReplication()]
    calls below [INT_MAX], whatever the file system answers in each
    call (directory present, created, or creation failing, in which
    case the call raises), sets the current replication name of the
    [i]-th call to [P] followed by [i]; these names are pairwise
    distinct. *)
Theorem newReplication_names (P : string) (envs : list directory_oracle) (om : OutputManager W) :
  om_replicationName om = P ->
  om_counter om = 1%Z ->
  (Z.of_nat (length envs) < INT_MAX)%Z ->
  let names := map (replication_name P) (seq 1 (length envs)) in
  (exists om', newReplication_calls envs om = Defined (names, om')) /\
  List.NoDup names.
Proof.
  intros HP Hc Hmax names. split.
  - apply newReplication_calls_from; [done|done|lia].
  - subst names.
    apply Finite.Injective_map_NoDup; [apply replication_name_inj|apply seq_NoDup].
Qed.
End NewReplicationFacts.

Lemma newReplication_names_witness :
  (exists om',
     newReplication_calls (W:=CasinoBinWriter) [dir_creatable; dir_denied; dir_exists]
       (OutputManager_setName "Replication"
          (OutputManager_setBasePath "/results" OutputManager_new))
     = Defined (["Replication1"; "Replication2"; "Replication3"], om'))
  /\ List.NoDup ["Replication1"; "Replication2"; "Replication3"].
Proof.
  apply (newReplication_names (W:=CasinoBinWriter) "Replication" [dir_creatable; dir_denied; dir_exists]).
  - reflexivity.
  - reflexivity.
  - vm_compute. reflexivity.
Defined.

(** ** Statistics *)

Section StatisticsFacts.
Context {O F : Type}.
Context {conv : Converter double O} {fin : FileIn F O}.
Context {eu : ExchangeUnit O} {pend : Pending F}.
Context {rinit : ReplicationInit (Reader double F)}.
Context {fl : FloatLib} {ft : FloatText}.

Lemma process_readers_length todo i fs rep vecs res rep' vecs' :
  process_readers todo i fs rep vecs = Some (res, rep', vecs') ->
  length vecs' = length vecs.
Proof.
  revert i rep vecs. induction todo as [|todo IH]; intros i rep vecs; cbn [process_readers].
  - by intros [= _ _ <-].
  - destruct (Replication_getReader _ rep) as [reader|e]; [|by intros [= _ _ <-]].
    destruct (Reader_load fs reader) as [[[[[]|e] reader1] cerr]|]; [| |intros [=]].
    + intros H. apply IH in H. rewrite H.
      destruct (i <? length vecs)%nat; [apply length_alter|done].
    + by intros [= _ _ <-].
Qed.

Lemma processReplication_length fs index s res s' :
  processReplication fs index s = Some (res, s') ->
  length (armaVecs s') = length (armaVecs s).
Proof.
  unfold processReplication.
  destruct (InputManager_getReplication _ _) as [rep|e]; [|by intros [= _ <-]].
  destruct (process_readers _ _ _ _ _) as [[[res' rep'] vecs']|] eqn:E; [|intros [=]].
  intros [= _ <-]. cbn [armaVecs]. by eapply process_readers_length.
Qed.

Lemma processAll_from_length todo i fs s res s' :
  processAll_from todo i fs s = Some (res, s') ->
  length (armaVecs s') = length (armaVecs s).
Proof.
  revert i s. induction todo as [|todo IH]; intros i s; cbn [processAll_from].
  - by intros [= _ <-].
  - destruct (processReplication fs i s) as [[[[]|e] s1]|] eqn:E; [| |intros [=]].
    + intros H. apply IH in H. rewrite H. by eapply processReplication_length.
    + intros [= _ <-]. by eapply processReplication_length.
Qed.

(** Every instance keeps exactly five aggregate vectors. *)
Lemma reachable_channels s : reachable s -> length (armaVecs s) = 5%nat.
Proof.
  induction 1 as [|s path _ IH|s is_dir names res s' _ IH Hload|s im _ IH
                  |s fs index res s' _ IH Hp|s fs res s' _ IH Hp|s _ IH].
  - reflexivity.
  - exact IH.
  - unfold Statistics_loadFolders in Hload.
    destruct (InputManager_loadFolders _ _ _) as [res0 im']. by injection Hload as _ <-.
  - exact IH.
  - rewrite <- IH. by eapply processReplication_length.
  - rewrite <- IH. by eapply processAll_from_length.
  - unfold clearData. cbn [armaVecs]. by rewrite length_map.
Qed.

(** Claim C8.  Every reachable statistics instance holds exactly five
    aggregate vectors, and for every index [getMean] returns a value:
    below 5 the index names a vector, and the value is [0.0] when this
    vector is empty and its mean otherwise; at 5 or more the value is
    [0.0]; and a fresh instance gives [0.0] at every index. *)
Theorem getMean_total (s : CasinoStats F) (index : N) :
  reachable s ->
  length (armaVecs s) = 5%nat /\
  ((index < 5)%N ->
   exists vec,
     armaVecs s !! N.to_nat index = Some vec /\
     getMean index s = if bool_decide (vec = []) then double_zero
                       else arma_mean vec) /\
  ((5 <= index)%N -> getMean index s = double_zero) /\
  getMean index (CasinoStats_new (F:=F)) = double_zero.
Proof.
  intros Hreach. pose proof (reachable_channels s Hreach) as Hlen.
  split; [exact Hlen|].
  unfold getMean. rewrite Hlen. split; [|split].
  - intros Hlt.
    destruct (lookup_lt_is_Some_2 (armaVecs s) (N.to_nat index)) as [vec Hvec]; [lia|].
    exists vec. split; [exact Hvec|].
    rewrite (proj2 (N.leb_gt _ _)) by (cbn; lia).
    by rewrite (list_lookup_total_correct _ _ _ Hvec).
  - intros Hge. by rewrite (proj2 (N.leb_le _ _)) by (cbn; lia).
  - cbn [CasinoStats_new armaVecs].
    destruct (N.of_nat (length (replicate 5 [])) <=? index)%N eqn:E; [done|].
    destruct (N.to_nat index) as [|[|[|[|[|n]]]]]; reflexivity.
Qed.

(** Claim C10, evaluated at the failing input: with a null manager
    the two casino overrides of [setupPresenters] call through the
    null pointer, which is undefined, where the default of the base
    class raises [std::invalid_argument]. *)
Theorem setupPresenters_null_manager (s : CasinoStats F) :
  CasinoBinStatistics_setupPresenters None s = Undefined /\
  CasinoStatistics_setupPresenters None s = Undefined /\
  Statistics_setupPresenters None s
  = Defined (Throw (invalid_argument "PresenterManager cannot be nullptr"), None).
Proof. repeat split. Qed.
End StatisticsFacts.

Lemma getMean_total_witness :
  let host := little_endian_host in
  let fl := example_FloatLib in
  let ft := example_FloatText in
  let fs : filesystem :=
    list_to_map
      [("/d/Rep1/ruleta_red.csv", frames [first_double; fresh_double]);
       ("/d/Rep1/ruleta_alt.csv", frames []);
       ("/d/Rep1/automat.csv", frames [stale_double]);
       ("/d/Rep1/blackjack_con.csv", frames []);
       ("/d/Rep1/blackjack_agg.csv", frames [fresh_double])] in
  let loaded : CasinoBinStatistics :=
    (Statistics_loadFolders (fun _ => true) ["Rep1"]
       (Statistics_setBasePath "/d" CasinoStats_new)).2 in
  let s : CasinoBinStatistics :=
    match processReplication fs 0 loaded with
    | Some (_, s) => s
    | None => loaded
    end in
  (armaVecs s = [[first_double; fresh_double]; []; [stale_double]; []; [fresh_double]] /\
   getMean 0 s = arma_mean [first_double; fresh_double] /\
   getMean 1 s = double_zero /\
   getMean 5 s = double_zero) /\
  reachable s /\
  length (armaVecs s) = 5%nat /\
  ((0 < 5)%N ->
   exists vec,
     armaVecs s !! N.to_nat 0 = Some vec /\
     getMean 0 s = if bool_decide (vec = []) then double_zero
                   else arma_mean vec) /\
  ((5 <= 0)%N -> getMean 0 s = double_zero) /\
  getMean 0 (CasinoStats_new (F:=BinFileIn)) = double_zero.
Proof.
  intros host fl ft fs loaded s.
  assert (reachable s) as Hreach.
  { apply (reach_processReplication loaded fs 0 (Ok tt) s).
    - apply (reach_loadFolders (Statistics_setBasePath "/d" CasinoStats_new)
               (fun _ => true) ["Rep1"] (Ok tt) loaded).
      + apply reach_setBasePath, reach_new.
      + vm_compute. reflexivity.
    - vm_compute. reflexivity. }
  split; [|split; [exact Hreach|]].
  - vm_compute. repeat split.
  - apply (getMean_total s 0 Hreach).
Defined.

(** * Further properties *)

(** ** Little-endian length fields *)

Lemma lor_shiftl_byte (b : byte) (x : N) :
  N.lor (Byte.to_N b) (N.shiftl x 8) = (Byte.to_N b + 256 * x)%N.
Proof.
  pose proof (Byte.to_N_bounded b) as Hb.
  assert (N.land (Byte.to_N b) (N.shiftl x 8) = 0%N) as Hdisj.
  { apply N.bits_inj. intros n. rewrite N.land_spec, N.bits_0.
    destruct (N.lt_ge_cases n 8) as [Hn|Hn].
    - rewrite N.shiftl_spec_low by done. apply andb_false_r.
    - destruct (N.eq_dec (Byte.to_N b) 0%N) as [->|Hnz]; [by rewrite N.bits_0|].
      rewrite N.bits_above_log2; [done|].
      apply N.lt_le_trans with 8%N; [|done].
      apply N.log2_lt_pow2; [lia|]. change (2 ^ 8)%N with 256%N. lia. }
  rewrite <- N.lxor_lor, <- N.add_nocarry_lxor by done.
  rewrite N.shiftl_mul_pow2. change (2 ^ 8)%N with 256%N. lia.
Qed.

Lemma le_value_cons b bs : le_value (b :: bs) = (Byte.to_N b + 256 * le_value bs)%N.
Proof. cbn [le_value]. apply lor_shiftl_byte. Qed.

Lemma static_cast_uint8_eq (y : N) (b : byte) :
  (y mod 256 = Byte.to_N b)%N -> static_cast_uint8 y = b.
Proof.
  intros H. unfold static_cast_uint8. rewrite H, Byte.of_to_N. reflexivity.
Qed.

(** Reading back the four bytes written for a length gives the length,
    reduced to 32 bits. *)
Lemma le_value_le_bytes (n : N) : le_value (le_bytes 4 n) = (n mod UINT32_MOD)%N.
Proof.
  unfold le_bytes. cbn [seq map].
  rewrite !le_value_cons, !static_cast_uint8_to_N. cbn [le_value].
  rewrite !N.shiftr_div_pow2. unfold UINT32_MOD.
  change (2 ^ (8 * N.of_nat 0))%N with 1%N.
  change (2 ^ (8 * N.of_nat 1))%N with 256%N.
  change (2 ^ (8 * N.of_nat 2))%N with (256 * 256)%N.
  change (2 ^ (8 * N.of_nat 3))%N with (256 * 256 * 256)%N.
  rewrite N.div_1_r, <- !N.Div0.div_div.
  set (q1 := (n / 256)%N). set (q2 := (q1 / 256)%N). set (q3 := (q2 / 256)%N).
  pose proof (N.div_mod n 256). pose proof (N.div_mod q1 256).
  pose proof (N.div_mod q2 256). pose proof (N.div_mod q3 256).
  pose proof (N.mod_upper_bound n 256). pose proof (N.mod_upper_bound q1 256).
  pose proof (N.mod_upper_bound q2 256). pose proof (N.mod_upper_bound q3 256).
  apply (N.mod_unique n 4294967296 (q3 / 256)); subst q1 q2 q3; lia.
Qed.

Lemma le_value_cons_mod b bs : (le_value (b :: bs) mod 256 = Byte.to_N b)%N.
Proof.
  pose proof (Byte.to_N_bounded b).
  rewrite le_value_cons.
  replace (Byte.to_N b + 256 * le_value bs)%N with (Byte.to_N b + le_value bs * 256)%N by lia.
  rewrite N.Div0.mod_add. apply N.mod_small. lia.
Qed.

Lemma le_value_cons_div b bs : (le_value (b :: bs) / 256 = le_value bs)%N.
Proof.
  pose proof (Byte.to_N_bounded b).
  rewrite le_value_cons.
  replace (Byte.to_N b + 256 * le_value bs)%N with (le_value bs * 256 + Byte.to_N b)%N by lia.
  rewrite N.div_add_l by done. rewrite N.div_small by lia. lia.
Qed.

Lemma le_bytes_le_value (b0 b1 b2 b3 : byte) :
  le_bytes 4 (le_value [b0; b1; b2; b3]) = [b0; b1; b2; b3].
Proof.
  unfold le_bytes. cbn [seq map].
  rewrite !N.shiftr_div_pow2.
  change (2 ^ (8 * N.of_nat 0))%N with 1%N.
  change (2 ^ (8 * N.of_nat 1))%N with 256%N.
  change (2 ^ (8 * N.of_nat 2))%N with (256 * 256)%N.
  change (2 ^ (8 * N.of_nat 3))%N with (256 * 256 * 256)%N.
  rewrite N.div_1_r, <- !N.Div0.div_div, !le_value_cons_div.
  repeat f_equal; apply static_cast_uint8_eq, le_value_cons_mod.
Qed.

(** ** [CasinoBinConverter] *)

Lemma memcpy_uint32_inv (host : endianness) (b0 b1 b2 b3 : byte) (rest : list byte) (x : N) :
  memcpy_to_uint32 host (b0 :: b1 :: b2 :: b3 :: rest) = x ->
  [b0; b1; b2; b3] = memcpy_from_uint32 host x.
Proof.
  intros <-. destruct host; cbn [memcpy_to_uint32 memcpy_from_uint32 take].
  - change (take 0 rest) with (@nil byte). by rewrite le_bytes_le_value.
  - change (take 0 rest) with (@nil byte).
    change (rev [b0; b1; b2; b3]) with [b3; b2; b1; b0].
    by rewrite le_bytes_le_value.
Qed.

Lemma memcpy_uint32_roundtrip (host : endianness) (x : N) (rest : list byte) :
  memcpy_to_uint32 host (memcpy_from_uint32 host x ++ rest) = (x mod UINT32_MOD)%N.
Proof.
  rewrite <- le_value_le_bytes.
  destruct host; cbn [memcpy_to_uint32 memcpy_from_uint32]; reflexivity.
Qed.

(** Decoding a byte sequence yields the double [d] exactly when the
    sequence starts with the twelve bytes that encoding [d] produces:
    the count 1 in host byte order, then the eight bytes of [d].
    Whatever follows them is ignored. *)
Theorem CasinoBinConverter_decode_iff {host : Host} (data : list byte) (d : double) :
  CasinoBinConverter_decode data = Ok d <->
  exists rest, data = CasinoBinConverter_encode d ++ rest.
Proof.
  split.
  - unfold CasinoBinConverter_decode.
    destruct (length data <? 4 + 8)%nat eqn:Hlen; [intros [=]|].
    apply Nat.ltb_ge in Hlen.
    destruct (memcpy_to_uint32 host_endianness data =? 1)%N eqn:Hcount; [|intros [=]].
    apply N.eqb_eq in Hcount. cbn [negb]. intros [= <-].
    destruct data as [|b0 [|b1 [|b2 [|b3 [|c0 [|c1 [|c2 [|c3 [|c4 [|c5 [|c6 [|c7 rest]]]]]]]]]]]];
      cbn [length] in Hlen; try lia.
    exists rest. unfold CasinoBinConverter_encode.
    rewrite <- (memcpy_uint32_inv _ _ _ _ _ _ _ Hcount). reflexivity.
  - intros [rest ->]. unfold CasinoBinConverter_decode, CasinoBinConverter_encode.
    destruct d. by destruct host.
Qed.

(** The two ways decoding fails: "Invalid data size for double
    conversion" exactly for fewer than twelve bytes, "Expected count of
    1 for single double conversion" exactly for twelve bytes or more
    whose first four are not the count 1 in host byte order.  Every
    failure is a [std::runtime_error]. *)
Theorem CasinoBinConverter_decode_errors {host : Host} (data : list byte) :
  (CasinoBinConverter_decode data
   = Throw (runtime_error "Invalid data size for double conversion")
   <-> (length data < 12)%nat) /\
  (CasinoBinConverter_decode data
   = Throw (runtime_error "Expected count of 1 for single double conversion")
   <-> (12 <= length data)%nat /\ take 4 data <> memcpy_from_uint32 host_endianness 1) /\
  (forall e, CasinoBinConverter_decode data = Throw e -> is_runtime_error e = true).
Proof.
  unfold CasinoBinConverter_decode.
  destruct (length data <? 4 + 8)%nat eqn:Hlen.
  - apply Nat.ltb_lt in Hlen. cbn in Hlen. split; [|split].
    + split; [lia|done].
    + split; [intros [=]|lia].
    + by intros e [= <-].
  - apply Nat.ltb_ge in Hlen. cbn in Hlen.
    destruct data as [|b0 [|b1 [|b2 [|b3 rest]]]]; cbn [length] in Hlen; try lia.
    change (take 4 (b0 :: b1 :: b2 :: b3 :: rest)) with (b0 :: b1 :: b2 :: b3 :: take 0 rest).
    change (take 0 rest) with (@nil byte).
    destruct (memcpy_to_uint32 host_endianness (b0 :: b1 :: b2 :: b3 :: rest) =? 1)%N eqn:Hc;
      cbn [negb].
    + apply N.eqb_eq in Hc. apply memcpy_uint32_inv in Hc. split; [|split].
      * split; [intros [=]|cbn [length]; lia].
      * split; [intros [=]|]. intros [_ Hne]. done.
      * intros e [=].
    + apply N.eqb_neq in Hc. split; [|split].
      * split; [intros [=]|cbn [length]; lia].
      * split; [|done]. intros _. split; [cbn [length]; lia|].
        intros Heq. apply Hc.
        change (b0 :: b1 :: b2 :: b3 :: rest) with ([b0; b1; b2; b3] ++ rest).
        rewrite Heq. by rewrite memcpy_uint32_roundtrip.
      * by intros e [= <-].
Qed.

(** ** Frames of the binary transport *)

Lemma overwrite_at_end (data old : list byte) : overwrite (length old) data old = old ++ data.
Proof.
  unfold overwrite. rewrite take_ge by lia. rewrite drop_ge by lia. by rewrite app_nil_r.
Qed.

Lemma BinFileIn_read_whole_frame o payload rest :
  (N.of_nat (length payload) < UINT32_MOD)%N ->
  BinFileIn_read (mk_BinFileIn (mk_ifstream o (frame payload ++ rest) false false))
  = (Ok payload, mk_BinFileIn (mk_ifstream o rest false false)).
Proof.
  intros Hlen. unfold frame.
  set (n := static_cast_uint32 (N.of_nat (length payload))).
  assert (N.to_nat (le_value (le_bytes 4 n)) = length payload) as Hn.
  { rewrite le_value_le_bytes. subst n. unfold static_cast_uint32.
    rewrite N.Div0.mod_mod, N.mod_small by done. apply Nat2N.id. }
  revert Hn. unfold le_bytes. cbn [seq map app]. intros Hn.
  rewrite BinFileIn_read_frame, Hn.
  rewrite take_app_length, drop_app_length.
  assert ((length payload <=? length (payload ++ rest))%nat = true) as ->
    by (apply Nat.leb_le; rewrite length_app; lia).
  unfold fill_buffer. by rewrite Nat.sub_diag, app_nil_r.
Qed.

(** A payload shorter than 2^32 bytes written by [BinFileOut::write]
    at the end of an open file appends one frame, the length on four
    bytes, least significant first, then the payload; and
    [BinFileIn::read] on a stream that starts with that frame returns
    the payload and leaves the stream right after it, ready for the
    next frame. *)
Theorem BinFile_frame_roundtrip (fs : filesystem) (path : string)
    (content payload : list byte) :
  fs !! path = Some content ->
  (N.of_nat (length payload) < UINT32_MOD)%N ->
  BinFileOut_write fs payload
    (mk_BinFileOut (mk_ofstream (Some path) (length content) false))
  = (Ok tt, <[path := content ++ frame payload]> fs,
     mk_BinFileOut (mk_ofstream (Some path) (length content + length (frame payload)) false))
  /\ forall o rest,
       BinFileIn_read (mk_BinFileIn (mk_ifstream o (frame payload ++ rest) false false))
       = (Ok payload, mk_BinFileIn (mk_ifstream o rest false false)).
Proof.
  intros Hfile Hlen. split.
  - rewrite (BinFileOut_write_open fs path _ _ content) by done.
    by rewrite overwrite_at_end.
  - intros o rest. by apply BinFileIn_read_whole_frame.
Qed.

Lemma BinFile_frame_roundtrip_witness :
  BinFileOut_write {[ "f" := [x09] ]} [x01; x02]
    (mk_BinFileOut (mk_ofstream (Some "f") (length [x09]) false))
  = (Ok tt, <["f" := [x09] ++ frame [x01; x02]]> {[ "f" := [x09] ]},
     mk_BinFileOut (mk_ofstream (Some "f") (length [x09] + length (frame [x01; x02])) false))
  /\ forall o rest,
       BinFileIn_read (mk_BinFileIn (mk_ifstream o (frame [x01; x02] ++ rest) false false))
       = (Ok [x01; x02], mk_BinFileIn (mk_ifstream o rest false false)).
Proof.
  apply (BinFile_frame_roundtrip {[ "f" := [x09] ]} "f" [x09] [x01; x02]).
  - reflexivity.
  - reflexivity.
Defined.

Section BinLoadFacts.
Context {host : Host}.

Lemma Reader_load_loop_frames_app fs fuel o values tail data p cerr :
  Reader_load_loop (length values + fuel) fs
    (mk_Reader (mk_BinFileIn (mk_ifstream o (frames values ++ tail) false false))
       data p true) cerr
  = Reader_load_loop fuel fs
      (mk_Reader (mk_BinFileIn (mk_ifstream o tail false false))
         (data ++ values) p true) cerr.
Proof.
  revert data. induction values as [|d vs IH]; intros data.
  - cbn [length Nat.add frames map concat app]. by rewrite app_nil_r.
  - cbn [length Nat.add Reader_load_loop].
    rewrite Reader_read_when_open by done.
    unfold Reader_read_opened. cbn [r_file fin_read BinFileIn_FileIn].
    change (frames (d :: vs)) with (frame (CasinoBinConverter_encode d) ++ frames vs).
    rewrite <- app_assoc.
    rewrite BinFileIn_read_whole_frame by (rewrite length_encode; reflexivity).
    assert (unit_empty (CasinoBinConverter_encode d) = false) as -> by (by destruct host).
    cbn [convert_from CasinoBinConverter].
    rewrite <- (app_nil_r (CasinoBinConverter_encode d)), decode_encode.
    unfold Reader_push_back. cbn [r_file r_data r_path r_isOpen].
    rewrite IH. by rewrite <- app_assoc.
Qed.

(** A frame of length zero ends [load()]: the values of the frames
    before it are kept, everything after it is dropped, no error is
    raised and nothing is written to [std::cerr]. *)
Theorem Reader_load_stops_at_empty_frame (fs : filesystem) (path : string)
    (values : list double) (rest : list byte) :
  path <> "" ->
  fs !! path = Some (frames values ++ frame [] ++ rest) ->
  Reader_load fs (Reader_new (T:=double) (F:=BinFileIn) path)
  = Some (Ok tt,
          mk_Reader (mk_BinFileIn (mk_ifstream false [] false false)) values path false,
          []).
Proof.
  intros Hpath Hfile. unfold Reader_load, Reader_new, Reader_open.
  cbn [r_isOpen negb r_path r_file fin_open fin_new BinFileIn_FileIn].
  rewrite bool_decide_eq_false_2 by done.
  rewrite (BinFileIn_open_existing _ path _ Hfile).
  unfold Reader_flush. cbn [r_file r_data r_path r_isOpen].
  unfold pending, BinFileIn_Pending. cbn [bin_inFile in_pending].
  rewrite length_app, length_frames.
  replace (S (16 * length values + length (frame [] ++ rest)))
    with (length values + S (15 * length values + length (frame [] ++ rest)))%nat by lia.
  rewrite Reader_load_loop_frames_app.
  cbn [Reader_load_loop]. rewrite Reader_read_when_open by done.
  unfold Reader_read_opened. cbn [r_file fin_read BinFileIn_FileIn].
  rewrite BinFileIn_read_whole_frame by reflexivity.
  reflexivity.
Qed.
End BinLoadFacts.

Lemma Reader_load_stops_at_empty_frame_witness :
  let host := little_endian_host in
  Reader_load {[ "f" := frames [first_double] ++ frame [] ++ frames [stale_double] ]}
    (Reader_new (T:=double) (F:=BinFileIn) "f")
  = Some (Ok tt,
          mk_Reader (mk_BinFileIn (mk_ifstream false [] false false)) [first_double] "f" false,
          []).
Proof.
  intros host.
  apply (Reader_load_stops_at_empty_frame _ "f" [first_double] (frames [stale_double])).
  - discriminate.
  - reflexivity.
Defined.

(** ** [Writer]: composition and what it leaves alone *)

Section WriterFacts.
Context {T O F : Type}.
Context {conv : Converter T O} {fout : FileOut F O}.

Lemma Writer_ensure_open_ok fs (w : Writer F) u fs1 w1 :
  Writer_ensure_open fs w = (Ok u, fs1, w1) -> w_isOpen w1 = true.
Proof.
  unfold Writer_ensure_open, Writer_open.
  destruct (w_isOpen w) eqn:Hopen; cbn [negb].
  - by intros [= _ _ <-].
  - case_bool_decide; [intros [=]|].
    destruct (fout_open fs (w_path w) (w_file w)) as [[[u'|e] fs'] f'];
      intros [= _ _ <-] || intros [=]; reflexivity.
Qed.

(** Writing a range is writing its first item with the single-item
    overload and then the rest of the range, for every transport and
    converter: the lazy open happens once and an error stops the
    sequence at the item that raised it. *)
Theorem Writer_write_range_cons (fs : filesystem) (item : T) (rest : list T)
    (w : Writer F) :
  Writer_write_range fs (item :: rest) w
  = match Writer_write fs item w with
    | (Throw e, fs1, w1) => (Throw e, fs1, w1)
    | (Ok _, fs1, w1) => Writer_write_range fs1 rest w1
    end.
Proof.
  unfold Writer_write_range at 1, Writer_write.
  destruct (Writer_ensure_open fs w) as [[[u|e] fs1] w1] eqn:Hopen; [|done].
  apply Writer_ensure_open_ok in Hopen.
  cbn [Writer_put_each].
  destruct (Writer_put fs1 item w1) as [[[u'|e] fs2] w2] eqn:Hput; [|done].
  assert (w_isOpen w2 = true) as Hopen2.
  { unfold Writer_put in Hput.
    destruct (fout_write fs1 (convert_to item) (w_file w1)) as [[res fs'] f'].
    injection Hput as _ _ <-. exact Hopen. }
  unfold Writer_write_range, Writer_ensure_open. by rewrite Hopen2.
Qed.
End WriterFacts.

Lemma ofstream_write_dom (fs : filesystem) data s :
  dom (ofstream_write fs data s).1 = dom fs.
Proof.
  unfold ofstream_write. destruct (out_failbit s); [done|].
  destruct (out_file s) as [path|]; [|done].
  destruct (fs !! path) eqn:E; [|done]. cbn [fst].
  apply dom_insert_lookup_L. by rewrite E.
Qed.

Lemma ofstream_open_update_dom (fs : filesystem) path s :
  (ofstream_open fs path (openmode_or ios_binary ios_in) s).1 = fs.
Proof.
  unfold ofstream_open. destruct (ofstream_is_open s); [done|].
  cbn. by destruct (fs !! path).
Qed.

Lemma write_size_field_dom todo i n (fs : filesystem) s :
  dom (write_size_field todo i n fs s).1 = dom fs.
Proof.
  revert i fs s. induction todo as [|todo IH]; intros i fs s; [done|].
  cbn [write_size_field].
  pose proof (ofstream_write_dom fs [static_cast_uint8 (N.shiftr n (i * 8))] s) as H.
  destruct (ofstream_write fs _ s) as [fs1 s1]. by rewrite IH.
Qed.

Lemma BinFileOut_write_dom (fs : filesystem) data f :
  dom (BinFileOut_write fs data f).1.2 = dom fs.
Proof.
  unfold BinFileOut_write. destruct (out_failbit (bin_outFile f)); [done|].
  pose proof (write_size_field_dom 4 0 (static_cast_uint32 (N.of_nat (length data))) fs
                (bin_outFile f)) as H1.
  destruct (write_size_field _ _ _ fs _) as [fs1 s1].
  pose proof (ofstream_write_dom fs1 data s1) as H2.
  destruct (ofstream_write fs1 data s1) as [fs2 s2]. cbn in *. congruence.
Qed.

Lemma CSVFileOut_write_dom (fs : filesystem) data f :
  dom (CSVFileOut_write fs data f).1.2 = dom fs.
Proof.
  unfold CSVFileOut_write. destruct (out_failbit (csv_outFile f)); [done|].
  pose proof (ofstream_write_dom fs (list_byte_of_string data) (csv_outFile f)) as H1.
  destruct (ofstream_write fs _ (csv_outFile f)) as [fs1 s1].
  pose proof (ofstream_write_dom fs1 [newline] s1) as H2.
  destruct (ofstream_write fs1 [newline] s1) as [fs2 s2]. cbn in *. congruence.
Qed.

Lemma BinFileOut_open_fs (fs : filesystem) path f : (BinFileOut_open fs path f).1.2 = fs.
Proof.
  unfold BinFileOut_open.
  pose proof (ofstream_open_update_dom fs path (bin_outFile (BinFileOut_close f))) as H.
  destruct (ofstream_open fs path _ _) as [fs' s]. cbn in H. subst fs'.
  by destruct (out_failbit s).
Qed.

Lemma CSVFileOut_open_fs (fs : filesystem) path f : (CSVFileOut_open fs path f).1.2 = fs.
Proof.
  unfold CSVFileOut_open.
  pose proof (ofstream_open_update_dom fs path (csv_outFile (CSVFileOut_close f))) as H.
  destruct (ofstream_open fs path _ _) as [fs' s]. cbn in H. subst fs'.
  by destruct (out_failbit s).
Qed.

Section WriterDomFacts.
Context {T O F : Type}.
Context {conv : Converter T O} {fout : FileOut F O}.
Hypothesis open_keeps_files :
  forall (fs : filesystem) path (f : F), (fout_open fs path f).1.2 = fs.
Hypothesis write_keeps_names :
  forall (fs : filesystem) (data : O) (f : F), dom (fout_write fs data f).1.2 = dom fs.

Lemma Writer_ensure_open_fs (fs : filesystem) (w : Writer F) :
  (Writer_ensure_open fs w).1.2 = fs.
Proof.
  unfold Writer_ensure_open, Writer_open. destruct (w_isOpen w); cbn [negb]; [done|].
  case_bool_decide; [done|].
  pose proof (open_keeps_files fs (w_path w) (w_file w)) as Hfs.
  destruct (fout_open fs (w_path w) (w_file w)) as [[[u|e] fs'] f']; exact Hfs.
Qed.

Lemma Writer_put_dom (fs : filesystem) (data : T) (w : Writer F) :
  dom (Writer_put fs data w).1.2 = dom fs.
Proof.
  unfold Writer_put.
  pose proof (write_keeps_names fs (convert_to data) (w_file w)) as H.
  by destruct (fout_write fs (convert_to data) (w_file w)) as [[res fs'] f'].
Qed.

Lemma Writer_put_each_dom (fs : filesystem) (dataRange : list T) (w : Writer F) :
  dom (Writer_put_each fs dataRange w).1.2 = dom fs.
Proof.
  revert fs w. induction dataRange as [|item rest IH]; intros fs w; [done|].
  cbn [Writer_put_each].
  pose proof (Writer_put_dom fs item w) as H.
  destruct (Writer_put fs item w) as [[[u|e] fs1] w1]; [|exact H].
  rewrite IH. exact H.
Qed.

Lemma Writer_write_range_dom (fs : filesystem) (dataRange : list T) (w : Writer F) :
  dom (Writer_write_range fs dataRange w).1.2 = dom fs.
Proof.
  unfold Writer_write_range.
  pose proof (Writer_ensure_open_fs fs w) as H.
  destruct (Writer_ensure_open fs w) as [[[u|e] fs1] w1]; cbn in H; subst fs1; [|done].
  apply Writer_put_each_dom.
Qed.

Lemma Writer_write_dom (fs : filesystem) (data : T) (w : Writer F) :
  dom (Writer_write fs data w).1.2 = dom fs.
Proof.
  unfold Writer_write.
  pose proof (Writer_ensure_open_fs fs w) as H.
  destruct (Writer_ensure_open fs w) as [[[u|e] fs1] w1]; cbn in H; subst fs1; [|done].
  apply Writer_put_dom.
Qed.
End WriterDomFacts.

(** Neither overload of [Writer::write] creates or removes a file,
    with the binary or the text transport, whatever the state of the
    writer: the set of existing files is the same before and after. *)
Theorem Writer_never_creates_files :
  (forall (T : Type) (conv : Converter T (list byte)) (fs : filesystem)
          (w : Writer BinFileOut) (data : T) (dataRange : list T),
      dom (Writer_write fs data w).1.2 = dom fs /\
      dom (Writer_write_range fs dataRange w).1.2 = dom fs) /\
  (forall (T : Type) (conv : Converter T string) (fs : filesystem)
          (w : Writer CSVFileOut) (data : T) (dataRange : list T),
      dom (Writer_write fs data w).1.2 = dom fs /\
      dom (Writer_write_range fs dataRange w).1.2 = dom fs).
Proof.
  split; intros T conv fs w data dataRange; split.
  - apply Writer_write_dom; [apply BinFileOut_open_fs|apply BinFileOut_write_dom].
  - apply Writer_write_range_dom; [apply BinFileOut_open_fs|apply BinFileOut_write_dom].
  - apply Writer_write_dom; [apply CSVFileOut_open_fs|apply CSVFileOut_write_dom].
  - apply Writer_write_range_dom; [apply CSVFileOut_open_fs|apply CSVFileOut_write_dom].
Qed.

(** A closed binary writer bound to an existing file writes from the
    start of the file, whatever position its stream had before: the
    frames of the written values replace the first 16 bytes per value
    and the rest of the old content stays.  Closing it gives back a
    writer that starts at the beginning again. *)
Theorem Writer_session_overwrites {host : Host} (fs : filesystem) (path : string)
    (values : list double) (old : list byte) (pos : nat) :
  path <> "" ->
  fs !! path = Some old ->
  exists w',
    Writer_write_range fs values
      (mk_Writer (mk_BinFileOut (mk_ofstream None pos false)) path false)
    = (Ok tt, <[path := frames values ++ drop (16 * length values) old]> fs, w')
    /\ Writer_close w' = mk_Writer (mk_BinFileOut (mk_ofstream None 0 false)) path false.
Proof.
  intros Hpath Hold.
  unfold Writer_write_range, Writer_ensure_open, Writer_open.
  cbn [w_isOpen negb w_path w_file fout_open BinFileOut_FileOut].
  rewrite bool_decide_eq_false_2 by done.
  assert (BinFileOut_open fs path (mk_BinFileOut (mk_ofstream None pos false))
          = (Ok tt, fs, mk_BinFileOut (mk_ofstream (Some path) 0 false))) as ->.
  { unfold BinFileOut_open, BinFileOut_close, ofstream_open, fopen. cbn. by rewrite Hold. }
  rewrite (Writer_put_each_open fs path path 0 values old) by (done || lia).
  assert (overwrite 0 (frames values) old
          = frames values ++ drop (16 * length values) old) as ->.
  { unfold overwrite. cbn [take Nat.add app]. by rewrite length_frames. }
  eexists. split; reflexivity.
Qed.

Lemma Writer_session_overwrites_witness :
  exists w',
    Writer_write_range (conv:=CasinoBinConverter (host:=little_endian_host))
      {[ "f" := frames (host:=little_endian_host) [first_double; stale_double] ]}
      [fresh_double]
      (mk_Writer (mk_BinFileOut (mk_ofstream None 32 false)) "f" false)
    = (Ok tt,
       <["f" := frames (host:=little_endian_host) [fresh_double]
                ++ drop (16 * length [fresh_double])
                     (frames (host:=little_endian_host) [first_double; stale_double])]>
         {[ "f" := frames (host:=little_endian_host) [first_double; stale_double] ]}, w')
    /\ Writer_close w' = mk_Writer (mk_BinFileOut (mk_ofstream None 0 false)) "f" false.
Proof.
  apply (Writer_session_overwrites (host:=little_endian_host) _ "f" [fresh_double]).
  - discriminate.
  - reflexivity.
Defined.

(** ** [Reader::load] twice *)

Section ReaderReloadFacts.
Context {T O F : Type}.
Context {conv : Converter T O} {fin : FileIn F O}.
Context {eu : ExchangeUnit O} {pend : Pending F}.
Variable closed : F -> Prop.
Hypothesis open_ok_any :
  forall (fs : filesystem) p (f f0 g : F) u,
    closed f -> closed f0 -> fin_open fs p f = (Ok u, g) -> fin_open fs p f0 = (Ok u, g).
Hypothesis close_closed : forall f : F, closed (fin_close f).
Hypothesis open_throw_stable :
  forall (fs : filesystem) p (f g : F) e,
    closed f -> fin_open fs p f = (Throw e, g) ->
    closed g /\ fin_open fs p g = (Throw e, g).

Lemma Reader_read_path fs (r : Reader T F) res r1 :
  Reader_read fs r = (res, r1) -> r_path r1 = r_path r.
Proof.
  unfold Reader_read, Reader_open. destruct (r_isOpen r); cbn [negb].
  - intros H. by apply Reader_read_opened_fields in H as (_ & ? & _).
  - destruct (fin_open fs (r_path r) (r_file r)) as [[u|e] f'].
    + intros H. by apply Reader_read_opened_fields in H as (_ & ? & _).
    + by intros [= _ <-].
Qed.

Lemma Reader_load_loop_result fs fuel (r : Reader T F) cerr res r' c :
  r_isOpen r = true ->
  Reader_load_loop fuel fs r cerr = Some (res, r', c) ->
  res = Ok tt /\ r_path r' = r_path r.
Proof.
  revert r cerr. induction fuel as [|fuel IH]; intros r cerr Hopen; [intros [=]|].
  cbn [Reader_load_loop].
  destruct (Reader_read fs r) as [[item|e] r1] eqn:Hread.
  - intros H. apply IH in H as [-> Hp].
    + split; [done|]. rewrite Hp. cbn. by eapply Reader_read_path.
    + cbn. rewrite Reader_read_when_open in Hread by done.
      by apply Reader_read_opened_fields in Hread as (_ & _ & ->).
  - pose proof (Reader_read_path _ _ _ _ Hread) as Hp.
    rewrite Reader_read_when_open in Hread by done.
    rewrite (Reader_read_opened_throw _ _ _ Hread).
    destruct (contains "End of file" (what e)); by intros [= <- <- _].
Qed.

Lemma Reader_load_again fs (r : Reader T F) res r1 c :
  r_isOpen r = false ->
  closed (r_file r) ->
  Reader_load fs r = Some (res, r1, c) ->
  Reader_load fs r1 = Some (res, r1, c).
Proof.
  intros Hopen Hclosed. unfold Reader_load at 1. rewrite Hopen. cbn [negb].
  case_bool_decide as Hpath.
  { intros [= <- <- <-]. unfold Reader_load. rewrite Hopen. cbn [negb].
    by rewrite bool_decide_eq_true_2. }
  unfold Reader_open.
  destruct (fin_open fs (r_path r) (r_file r)) as [[u|e] g] eqn:Hfin.
  - destruct (Reader_load_loop _ fs _ []) as [[[res' r3] c']|] eqn:Hloop; [|intros [=]].
    apply Reader_load_loop_result in Hloop as Hres; [|done]. destruct Hres as [-> Hp].
    intros [= <- <- <-].
    unfold Reader_load, Reader_open, Reader_close, Reader_flush in *.
    cbn [r_isOpen negb r_path r_file r_data] in *.
    rewrite Hp. rewrite bool_decide_eq_false_2 by done.
    rewrite (open_ok_any fs (r_path r) (r_file r) (fin_close (r_file r3)) g u) by auto.
    cbn [r_isOpen negb r_path r_file r_data].
    rewrite Hloop, ?Hp. reflexivity.
  - intros [= <- <- <-].
    destruct (open_throw_stable _ _ _ _ _ Hclosed Hfin) as [Hg Hagain].
    unfold Reader_load. cbn [r_isOpen negb r_path r_file]. rewrite Hopen. cbn [negb].
    rewrite bool_decide_eq_false_2 by done.
    unfold Reader_open. cbn [r_file r_path r_data r_isOpen]. by rewrite Hagain.
Qed.
End ReaderReloadFacts.

Lemma BinFileIn_open_closed (fs : filesystem) p f :
  in_is_open (bin_inFile f) = false ->
  BinFileIn_open fs p f
  = match fs !! p with
    | Some content => (Ok tt, mk_BinFileIn (mk_ifstream true content false false))
    | None => (Throw (runtime_error ("Failed to open file: " ++ p)),
               mk_BinFileIn (ifstream_setfail (bin_inFile f)))
    end.
Proof.
  intros H. unfold BinFileIn_open, BinFileIn_close. rewrite H.
  rewrite ifstream_open_closed by done. by destruct (fs !! p).
Qed.

Lemma CSVFileIn_open_closed (fs : filesystem) p f :
  in_is_open (csv_inFile f) = false ->
  CSVFileIn_open fs p f
  = match fs !! p with
    | Some content => (Ok tt, mk_CSVFileIn (mk_ifstream true content false false))
    | None => (Throw (runtime_error ("Failed to open file: " ++ p)),
               mk_CSVFileIn (ifstream_setfail (csv_inFile f)))
    end.
Proof.
  intros H. unfold CSVFileIn_open, CSVFileIn_close. rewrite H.
  rewrite ifstream_open_closed by done. by destruct (fs !! p).
Qed.

(** Loading again gives the same outcome: for both transports and
    every converter, after [load()] on a closed reader a second
    [load()] on the same files returns the same result, leaves the
    reader in the same state and logs the same lines. *)
Theorem Reader_load_idempotent :
  (forall (T : Type) (conv : Converter T (list byte)) (fs : filesystem)
          (r r1 : Reader T BinFileIn) res c,
      r_isOpen r = false -> in_is_open (bin_inFile (r_file r)) = false ->
      Reader_load fs r = Some (res, r1, c) ->
      Reader_load fs r1 = Some (res, r1, c)) /\
  (forall (T : Type) (conv : Converter T string) (fs : filesystem)
          (r r1 : Reader T CSVFileIn) res c,
      r_isOpen r = false -> in_is_open (csv_inFile (r_file r)) = false ->
      Reader_load fs r = Some (res, r1, c) ->
      Reader_load fs r1 = Some (res, r1, c)).
Proof.
  split; intros T conv fs r r1 res c Hopen Hclosed.
  - apply (Reader_load_again (fun f => in_is_open (bin_inFile f) = false)); try done.
    + intros fs' p f f0 g u Hf Hf0. cbn [fin_open BinFileIn_FileIn].
      rewrite !BinFileIn_open_closed by done. by destruct (fs' !! p).
    + apply BinFileIn_close_closed.
    + intros fs' p f g e Hf. cbn [fin_open BinFileIn_FileIn].
      rewrite BinFileIn_open_closed by done.
      destruct (fs' !! p) eqn:E; [intros [=]|]. intros [= <- <-]. split; [done|].
      rewrite BinFileIn_open_closed by done. by rewrite E.
  - apply (Reader_load_again (fun f => in_is_open (csv_inFile f) = false)); try done.
    + intros fs' p f f0 g u Hf Hf0. cbn [fin_open CSVFileIn_FileIn].
      rewrite !CSVFileIn_open_closed by done. by destruct (fs' !! p).
    + apply CSVFileIn_close_closed.
    + intros fs' p f g e Hf. cbn [fin_open CSVFileIn_FileIn].
      rewrite CSVFileIn_open_closed by done.
      destruct (fs' !! p) eqn:E; [intros [=]|]. intros [= <- <-]. split; [done|].
      rewrite CSVFileIn_open_closed by done. by rewrite E.
Qed.

Lemma Reader_load_idempotent_witness :
  let conv := CasinoBinConverter (host:=little_endian_host) in
  let fs : filesystem := {[ "f" := frames (host:=little_endian_host) [first_double] ]} in
  let loaded :=
    mk_Reader (mk_BinFileIn (mk_ifstream false [] true true)) [first_double] "f" false in
  Reader_load fs loaded = Some (Ok tt, loaded, []).
Proof.
  intros conv fs loaded.
  apply (proj1 Reader_load_idempotent double conv fs (Reader_new "f") loaded (Ok tt) []).
  - reflexivity.
  - reflexivity.
  - vm_compute. reflexivity.
Defined.

(** ** [std::sort] as modelled *)

Lemma linear_insert_Permutation {A} (comp : A -> A -> bool) val l :
  linear_insert comp val l ≡ₚ val :: l.
Proof.
  induction l as [|x l IH]; [done|].
  cbn [linear_insert]. destruct (comp val x); [|done].
  rewrite IH. apply perm_swap.
Qed.

Lemma std_sort_Permutation {A} (comp : A -> A -> bool) l : std_sort comp l ≡ₚ l.
Proof.
  unfold std_sort. rewrite <- Permutation_rev.
  rewrite <- (app_nil_r l) at 2. generalize (@nil A) as acc.
  induction l as [|x l IH]; intros acc; [done|].
  cbn [fold_left]. rewrite IH, linear_insert_Permutation.
  symmetry. apply Permutation_middle.
Qed.

Section SortByKey.
Context {A : Type} (comp : A -> A -> bool) (key : A -> Z) (keyed : A -> Prop).
Hypothesis comp_key :
  forall a b, keyed a -> keyed b -> comp a b = (key a <? key b)%Z.

Lemma linear_insert_descending val l :
  keyed val -> Forall keyed l ->
  StronglySorted (descending key) l ->
  StronglySorted (descending key) (linear_insert comp val l).
Proof.
  intros Hval Hl Hs. induction Hs as [|x l Hs IH Hx]; cbn [linear_insert].
  - repeat constructor.
  - apply Forall_cons in Hl as [Hkx Hl].
    rewrite comp_key by done.
    destruct (Z.ltb_spec (key val) (key x)).
    + constructor; [by apply IH|].
      rewrite linear_insert_Permutation. constructor; [unfold descending; lia|done].
    + constructor; [by constructor|].
      constructor; [done|].
      eapply Forall_impl; [exact Hx|]. unfold descending. intros; lia.
Qed.

Lemma StronglySorted_rev_descending l :
  StronglySorted (descending key) l -> StronglySorted (ascending key) (rev l).
Proof.
  induction 1 as [|x l Hs IH Hx]; [constructor|].
  cbn [rev]. apply StronglySorted_app_2; [|done|repeat constructor].
  intros a b Ha Hb. apply list_elem_of_singleton in Hb as ->.
  apply list_elem_of_In, in_rev, list_elem_of_In in Ha.
  rewrite Forall_forall in Hx. by apply Hx.
Qed.

Lemma std_sort_ascending l :
  Forall keyed l -> StronglySorted (ascending key) (std_sort comp l).
Proof.
  intros Hl. unfold std_sort. apply StronglySorted_rev_descending.
  assert (forall acc, Forall keyed acc -> StronglySorted (descending key) acc ->
            StronglySorted (descending key)
              (fold_left (fun rev_sorted val => linear_insert comp val rev_sorted) l acc))
    as H.
  { induction Hl as [|x l Hx Hl IH]; intros acc Hacc Hs; [done|].
    cbn [fold_left]. apply IH.
    - rewrite linear_insert_Permutation. by constructor.
    - by apply linear_insert_descending. }
  apply H; constructor.
Qed.

Lemma sorted_by_ascending l :
  Forall keyed l -> sorted_by comp l = true -> StronglySorted (ascending key) l.
Proof.
  induction 1 as [|x l Hx Hl IH]; [constructor|].
  cbn [sorted_by]. intros [Hhead Htail]%andb_true_iff.
  constructor; [by apply IH|].
  rewrite List.forallb_forall in Hhead. rewrite Forall_forall in Hl |- *.
  intros y Hy. specialize (Hhead y (proj1 (list_elem_of_In _ _) Hy)).
  rewrite comp_key in Hhead by auto.
  apply negb_true_iff, Z.ltb_ge in Hhead. exact Hhead.
Qed.

(** Two arrangements of the same elements, both ascending in a key that
    separates the elements, are equal. *)
Lemma ascending_unique l1 l2 :
  (forall a b, a ∈ l1 -> b ∈ l1 -> key a = key b -> a = b) ->
  l1 ≡ₚ l2 ->
  StronglySorted (ascending key) l1 -> StronglySorted (ascending key) l2 -> l1 = l2.
Proof.
  intros Hinj Hperm Hs1 Hs2.
  revert l2 Hperm Hs2. induction Hs1 as [|x l1 Hs1 IH Hx]; intros l2 Hperm Hs2.
  - by apply Permutation_nil in Hperm.
  - destruct Hs2 as [|y l2 Hs2 Hy].
    { symmetry in Hperm. by apply Permutation_nil in Hperm. }
    assert (x = y) as <-.
    { apply Hinj; [left|rewrite Hperm; left|].
      assert (y ∈ x :: l1) as Hyin by (rewrite Hperm; left).
      assert (x ∈ y :: l2) as Hxin by (rewrite <- Hperm; left).
      rewrite Forall_forall in Hx, Hy.
      apply elem_of_cons in Hyin as [->|Hyin]; [done|].
      apply elem_of_cons in Hxin as [->|Hxin]; [done|].
      specialize (Hx _ Hyin). specialize (Hy _ Hxin). unfold ascending in *. lia. }
    f_equal. apply IH; [|by apply Permutation_cons_inv in Hperm|done].
    intros a b Ha Hb. apply Hinj; by right.
Qed.
End SortByKey.

(** ** Decimal numerals *)

Lemma leading_digits_of_uint_acc (u : Decimal.uint) (acc : positive) :
  leading_digits (NilEmpty.string_of_uint u) true (Zpos acc)
  = Some (Zpos (Pos.of_uint_acc u acc)).
Proof.
  revert acc. induction u; intros acc; cbn [NilEmpty.string_of_uint leading_digits Pos.of_uint_acc];
    [reflexivity|..];
    match goal with
    | |- context [is_digit ?c] => change (is_digit c) with true; cbv iota
    end;
    match goal with
    | |- leading_digits _ true ?z = _ =>
        match goal with
        | |- _ = Some (Zpos (Pos.of_uint_acc _ ?p)) =>
            replace z with (Zpos p) by (vm_compute N_of_ascii; lia)
        end
    end; apply IHu.
Qed.

Lemma leading_digits_of_uint (u : Decimal.uint) :
  leading_digits (NilEmpty.string_of_uint u) true 0 = Some (Z.of_N (Pos.of_uint u)).
Proof.
  induction u; cbn [NilEmpty.string_of_uint leading_digits Pos.of_uint];
    [reflexivity|exact IHu|..];
    match goal with
    | |- context [is_digit ?c] => change (is_digit c) with true; cbv iota
    end;
    match goal with
    | |- leading_digits _ true ?z = Some (Z.of_N (Npos (Pos.of_uint_acc _ ?p))) =>
        replace z with (Zpos p) by (vm_compute; reflexivity)
    end; apply leading_digits_of_uint_acc.
Qed.

Lemma string_of_uint_head (u : Decimal.uint) :
  u <> Decimal.Nil ->
  exists c rest, NilEmpty.string_of_uint u = String c rest /\
                 is_digit c = true /\ is_space c = false /\ c <> "-"%char /\ c <> "+"%char.
Proof.
  destruct u; [done|..]; intros _; eexists _, _; (split; [reflexivity|]);
    repeat split; discriminate.
Qed.

Lemma to_uint_not_Nil p : Pos.to_uint p <> Decimal.Nil.
Proof.
  intros H. pose proof (DecimalPos.Unsigned.of_to p) as E. rewrite H in E. discriminate E.
Qed.

Lemma NilZero_string_of_to_uint p :
  NilZero.string_of_uint (Pos.to_uint p) = NilEmpty.string_of_uint (Pos.to_uint p).
Proof.
  pose proof (to_uint_not_Nil p). unfold NilZero.string_of_uint.
  by destruct (Pos.to_uint p).
Qed.

Lemma leading_digits_to_uint p seen :
  leading_digits (NilEmpty.string_of_uint (Pos.to_uint p)) seen 0 = Some (Zpos p).
Proof.
  pose proof (leading_digits_of_uint (Pos.to_uint p)) as H.
  rewrite DecimalPos.Unsigned.of_to in H. cbn [Z.of_N] in H. rewrite <- H.
  destruct (string_of_uint_head _ (to_uint_not_Nil p)) as (c & rest & -> & Hd & _).
  cbn [leading_digits]. by rewrite Hd.
Qed.

Lemma stoi_unsigned c rest :
  is_space c = false -> c <> "-"%char -> c <> "+"%char ->
  stoi (String c rest)
  = match leading_digits (String c rest) false 0 with
    | Some magnitude =>
        if ((INT_MIN <=? magnitude) && (magnitude <=? INT_MAX))%Z then Ok magnitude
        else Throw (out_of_range "stoi")
    | None => Throw (invalid_argument "stoi")
    end.
Proof.
  intros Hs Hm Hp. unfold stoi. cbn [skip_spaces]. rewrite Hs.
  destruct c as [[] [] [] [] [] [] [] []]; try reflexivity; congruence.
Qed.

(** [std::stoi] reads back what [std::to_string] prints, for every
    [int]. *)
Lemma stoi_to_string (z : Z) :
  (INT_MIN <= z <= INT_MAX)%Z -> stoi (to_string z) = Ok z.
Proof.
  intros Hz. unfold to_string.
  assert (((INT_MIN <=? z) && (z <=? INT_MAX))%Z = true) as Hrange.
  { apply andb_true_iff. split; apply Z.leb_le; lia. }
  destruct z as [|p|p]; [vm_compute; reflexivity|..];
    cbn [Z.to_int NilZero.string_of_int]; rewrite NilZero_string_of_to_uint.
  - pose proof (leading_digits_to_uint p false) as Hld.
    destruct (string_of_uint_head _ (to_uint_not_Nil p)) as (c & rest & E & _ & Hs & Hm & Hp).
    rewrite E in *. rewrite stoi_unsigned by done.
    rewrite Hld. by rewrite Hrange.
  - unfold stoi. cbn [skip_spaces]. change (is_space "-") with false. cbv iota.
    rewrite leading_digits_to_uint. cbv zeta. change (- Z.pos p)%Z with (Z.neg p).
    by rewrite Hrange.
Qed.

(** ** The number a replication name ends with *)

Lemma find_last_not_of_from_app chars p d i found :
  find_last_not_of_from chars (p ++ d) i found
  = find_last_not_of_from chars d (i + N.of_nat (String.length p))
      (find_last_not_of_from chars p i found).
Proof.
  revert i found. induction p as [|c p IH]; intros i found.
  - cbn. by rewrite N.add_0_r.
  - change (String c p ++ d)%string with (String c (p ++ d)).
    cbn [find_last_not_of_from String.length]. rewrite IH. f_equal. lia.
Qed.

Lemma find_last_not_of_from_digits (u : Decimal.uint) i found :
  find_last_not_of_from "0123456789" (NilEmpty.string_of_uint u) i found = found.
Proof.
  revert i found.
  induction u; intros i found; cbn [NilEmpty.string_of_uint find_last_not_of_from];
    [reflexivity|..];
    match goal with
    | |- context [char_in ?c ?s] => change (char_in c s) with true; cbv iota
    end; apply IHu.
Qed.

Lemma to_string_nonneg (z : Z) :
  (0 <= z)%Z -> exists u, to_string z = NilEmpty.string_of_uint u.
Proof.
  intros Hz. unfold to_string. destruct z as [|p|p]; [by exists (Decimal.D0 Decimal.Nil)| |lia].
  exists (Pos.to_uint p). cbn [Z.to_int NilZero.string_of_int].
  apply NilZero_string_of_to_uint.
Qed.

Lemma string_drop_app p d : string_drop (String.length p) (p ++ d) = d.
Proof. induction p as [|c p IH]; [by destruct d|]. exact IH. Qed.

Lemma length_string_app (p d : string) :
  String.length (p ++ d) = (String.length p + String.length d)%nat.
Proof.
  induction p as [|c p IH]; [done|].
  change (String c p ++ d)%string with (String c (p ++ d)). cbn [String.length].
  by rewrite IH.
Qed.

Lemma find_last_not_of_lacking p :
  (N.of_nat (String.length p) < SIZE_MOD)%N ->
  lacks_numeric_suffix p = true ->
  size_t_succ (find_last_not_of "0123456789" p) = N.of_nat (String.length p).
Proof.
  intros Hlen. unfold lacks_numeric_suffix.
  destruct (string_back p) as [c|] eqn:Hback.
  - intros Hc. apply negb_true_iff in Hc.
    unfold find_last_not_of. rewrite (find_last_not_of_from_back _ _ c) by done.
    assert (String.length p <> 0%nat) by (destruct p; [discriminate Hback|done]).
    unfold size_t_succ.
    replace (0 + N.of_nat (String.length p) - 1 + 1)%N
      with (N.of_nat (String.length p)) by lia.
    by rewrite N.mod_small.
  - intros _. by rewrite (string_back_None _ Hback).
Qed.

Lemma trailing_number_name (P : string) (i : nat) :
  lacks_numeric_suffix P = true ->
  (N.of_nat (String.length P) < SIZE_MOD)%N ->
  (Z.of_nat i <= INT_MAX)%Z ->
  trailing_number (replication_name P i) = Ok (Z.of_nat i).
Proof.
  intros Hlack Hlen Hi. unfold trailing_number, replication_name.
  destruct (to_string_nonneg (Z.of_nat i)) as [u Hu]; [lia|].
  assert (find_last_not_of "0123456789" (P ++ to_string (Z.of_nat i))
          = find_last_not_of "0123456789" P) as ->.
  { unfold find_last_not_of. rewrite find_last_not_of_from_app, Hu.
    apply find_last_not_of_from_digits. }
  rewrite find_last_not_of_lacking by done.
  unfold substr. rewrite length_string_app.
  rewrite (proj2 (N.ltb_ge _ _)) by lia.
  rewrite Nat2N.id, string_drop_app.
  apply stoi_to_string. unfold INT_MIN. lia.
Qed.

Lemma sort_number_name (P : string) (i : nat) :
  lacks_numeric_suffix P = true ->
  (N.of_nat (String.length P) < SIZE_MOD)%N ->
  (Z.of_nat i <= INT_MAX)%Z ->
  sort_number (replication_name P i) = Z.of_nat i.
Proof. intros. unfold sort_number. by rewrite trailing_number_name. Qed.

(** ** Sorting and loading replications *)

Lemma name_less_numeric a b :
  sort_number a <> (-1)%Z -> sort_number b <> (-1)%Z ->
  name_less a b = (sort_number a <? sort_number b)%Z.
Proof.
  intros Ha Hb. unfold name_less, sortable_less.
  destruct (Z.eqb_spec (sort_number a) (-1)); [done|].
  destruct (Z.eqb_spec (sort_number b) (-1)); [done|]. reflexivity.
Qed.

Lemma string_app_assoc (a b c : string) : (a ++ b ++ c = (a ++ b) ++ c)%string.
Proof.
  induction a as [|x a IH]; [done|].
  change (String x (a ++ b ++ c) = String x ((a ++ b) ++ c))%string. by rewrite IH.
Qed.

Section InputManagerFacts.
Context {Rd : Type} {rinit : ReplicationInit Rd}.

(** When every replication name ends with a number that fits an
    [int], [sortReplications] only reorders the collection, which holds
    the same replications as before, each as often as before; it
    leaves them in non-decreasing order of that number; and it keeps
    the base path. *)
Theorem sortReplications_numeric_order (im : InputManager Rd) :
  Forall (fun name => sort_number name <> (-1)%Z) (replication_names im) ->
  im_replications (InputManager_sortReplications im) ≡ₚ im_replications im /\
  im_basePath (InputManager_sortReplications im) = im_basePath im /\
  StronglySorted (ascending sort_number)
    (replication_names (InputManager_sortReplications im)).
Proof.
  intros Hnum. split; [|split; [reflexivity|]].
  - unfold InputManager_sortReplications. cbn [im_replications].
    rewrite std_sort_Permutation, map_map. cbn [sr_replication]. by rewrite map_id.
  - rewrite sortReplications_names.
    by apply (std_sort_ascending name_less sort_number _ name_less_numeric).
Qed.

Lemma InputManager_push_replication_of (im : InputManager Rd) name :
  InputManager_push (make_replication name (im_basePath im ++ name ++ "/") name) im
  = mk_InputManager (im_replications im ++ [replication_of (im_basePath im) name])
      (im_basePath im).
Proof.
  unfold InputManager_push, replication_of. by rewrite string_app_assoc.
Qed.

Lemma loadBatch_entries_numbered (start end_ : Z) (entries : list directory_entry)
    (im : InputManager Rd) :
  Forall (fun name => exists num, trailing_number name = Ok num)
    (map entry_filename (List.filter entry_is_directory entries)) ->
  loadBatch_entries start end_ entries im
  = (Ok tt,
     mk_InputManager
       (im_replications im
        ++ map (replication_of (im_basePath im))
             (List.filter (in_batch start end_)
                (map entry_filename (List.filter entry_is_directory entries))))
       (im_basePath im)).
Proof.
  revert im. induction entries as [|entry rest IH]; intros im Hall.
  - cbn. rewrite app_nil_r. by destruct im.
  - cbn [loadBatch_entries List.filter] in *.
    destruct (entry_is_directory entry) eqn:Hdir; [|by apply IH].
    cbn [map] in Hall. apply Forall_cons in Hall as [[num Hnum] Hall]. rewrite Hnum.
    assert (in_batch start end_ (entry_filename entry)
            = ((start <=? num)%Z && (num <=? end_)%Z)) as Hsel
      by (unfold in_batch, sort_number; by rewrite Hnum).
    cbn [map List.filter]. rewrite Hsel.
    destruct ((start <=? num)%Z && (num <=? end_)%Z); [|by apply IH].
    rewrite InputManager_push_replication_of, IH by done.
    cbn [im_replications im_basePath map]. by rewrite <- app_assoc.
Qed.

Lemma loadBatch_entries_rejected (start end_ : Z) (entries : list directory_entry)
    (im : InputManager Rd) before culprit after e :
  map entry_filename (List.filter entry_is_directory entries)
  = before ++ culprit :: after ->
  Forall (fun name => exists num, trailing_number name = Ok num) before ->
  trailing_number culprit = Throw e ->
  loadBatch_entries start end_ entries im
  = (Throw (runtime_error ("Failed processing file: " ++ culprit)),
     mk_InputManager
       (im_replications im
        ++ map (replication_of (im_basePath im)) (List.filter (in_batch start end_) before))
       (im_basePath im)).
Proof.
  intros Hnames Hbefore Hculprit.
  revert im before Hnames Hbefore.
  induction entries as [|entry rest IH]; intros im before Hnames Hbefore.
  - by destruct before.
  - cbn [loadBatch_entries List.filter] in *.
    destruct (entry_is_directory entry) eqn:Hdir; [|by apply IH].
    cbn [map] in Hnames. destruct before as [|name before].
    + injection Hnames as Hname _. subst culprit. rewrite Hculprit. cbn. rewrite app_nil_r. by destruct im.
    + injection Hnames as Hname Hnames. subst name.
      apply Forall_cons in Hbefore as [[num Hnum] Hbefore]. rewrite Hnum.
      assert (in_batch start end_ (entry_filename entry)
              = ((start <=? num)%Z && (num <=? end_)%Z)) as Hsel
        by (unfold in_batch, sort_number; by rewrite Hnum).
      cbn [List.filter]. rewrite Hsel.
      destruct ((start <=? num)%Z && (num <=? end_)%Z); [|by apply IH].
      rewrite InputManager_push_replication_of, (IH _ before) by done.
      cbn [im_replications im_basePath map]. by rewrite <- app_assoc.
Qed.

(** [loadBatch(start, end)] with [start <= end], over a listing the
    [int] counter of the loop can count.  When [std::stoi] accepts what
    every subdirectory name ends with (one digit at least, and a number
    that fits an [int]), the call succeeds and appends, in the order
    the directory iterator lists them and without sorting, one
    initialised replication for each subdirectory whose number lies in
    [start, end]; plain files and the other subdirectories are skipped.
    Otherwise the first subdirectory whose ending [std::stoi] rejects,
    for want of a digit or because the number is too large for an
    [int], ends the call with the runtime error "Failed processing
    file: ..." naming it; the replications selected before it stay
    appended. *)
Theorem loadBatch_selects (start end_ : Z) (entries : list directory_entry)
    (im : InputManager Rd) :
  (start <= end_)%Z ->
  (Z.of_nat (length entries) <= INT_MAX)%Z ->
  let names := map entry_filename (List.filter entry_is_directory entries) in
  let numbered := fun name => exists num, trailing_number name = Ok num in
  let appended := fun chosen =>
    mk_InputManager
      (im_replications im
       ++ map (replication_of (im_basePath im)) (List.filter (in_batch start end_) chosen))
      (im_basePath im) in
  (Forall numbered names ->
   InputManager_loadBatch start end_ (Ok entries) im = (Ok tt, appended names)) /\
  (forall before culprit after e,
     names = before ++ culprit :: after ->
     Forall numbered before ->
     trailing_number culprit = Throw e ->
     InputManager_loadBatch start end_ (Ok entries) im
     = (Throw (runtime_error ("Failed processing file: " ++ culprit)), appended before)).
Proof.
  intros Hle _ names numbered appended. unfold InputManager_loadBatch.
  rewrite (proj2 (Z.ltb_ge _ _) Hle). split.
  - apply loadBatch_entries_numbered.
  - intros before culprit after e. apply loadBatch_entries_rejected.
Qed.
Lemma loadSpecificReplication_present is_dir name (im : InputManager Rd) :
  is_dir (im_basePath im ++ name)%string = true ->
  InputManager_loadSpecificReplication is_dir name im
  = (Ok tt, mk_InputManager (im_replications im ++ [replication_of (im_basePath im) name])
              (im_basePath im)).
Proof. intros H. unfold InputManager_loadSpecificReplication. by rewrite H. Qed.

Lemma loadFolders_present is_dir folders rest (im : InputManager Rd) :
  Forall (fun name => is_dir (im_basePath im ++ name)%string = true) folders ->
  InputManager_loadFolders is_dir (folders ++ rest) im
  = InputManager_loadFolders is_dir rest
      (mk_InputManager (im_replications im ++ map (replication_of (im_basePath im)) folders)
         (im_basePath im)).
Proof.
  intros Hall. revert im Hall. induction folders as [|name folders IH]; intros im Hall.
  - cbn. rewrite app_nil_r. by destruct im.
  - apply Forall_cons in Hall as [Hname Hall].
    cbn [app InputManager_loadFolders].
    rewrite loadSpecificReplication_present by done.
    rewrite IH by done. cbn [im_replications im_basePath map]. by rewrite <- app_assoc.
Qed.

(** [loadReplications(folders)]: when every folder is a directory
    under the base path, it appends their replications in the given
    order, unsorted; and when the next folder is missing it raises
    "Directory not found: ..." for that folder, keeping the
    replications of the folders before it and loading none after it. *)
Theorem loadFolders_outcome (is_dir : string -> bool) (present : list string)
    (im : InputManager Rd) :
  Forall (fun name => is_dir (im_basePath im ++ name)%string = true) present ->
  let loaded :=
    mk_InputManager (im_replications im ++ map (replication_of (im_basePath im)) present)
      (im_basePath im) in
  InputManager_loadFolders is_dir present im = (Ok tt, loaded) /\
  forall missing rest,
    is_dir (im_basePath im ++ missing)%string = false ->
    InputManager_loadFolders is_dir (present ++ missing :: rest) im
    = (Throw (runtime_error ("Directory not found: " ++ im_basePath im ++ missing)), loaded).
Proof.
  intros Hall loaded. split.
  - rewrite <- (app_nil_r present) at 1. by rewrite loadFolders_present.
  - intros missing rest Hmissing. rewrite loadFolders_present by done.
    cbn [InputManager_loadFolders]. unfold InputManager_loadSpecificReplication.
    cbn [im_basePath]. by rewrite Hmissing.
Qed.
End InputManagerFacts.

Lemma sortReplications_numeric_order_witness :
  let im : InputManager CasinoBinReader :=
    mk_InputManager
      [Replication_new "run10"; Replication_new "run9"; Replication_new "a2"] "/data/" in
  im_replications (InputManager_sortReplications im) ≡ₚ im_replications im /\
  im_basePath (InputManager_sortReplications im) = im_basePath im /\
  StronglySorted (ascending sort_number)
    (replication_names (InputManager_sortReplications im)).
Proof.
  intros im.
  apply (sortReplications_numeric_order (Rd:=CasinoBinReader) im).
  repeat (apply Forall_cons_2 || apply Forall_nil_2); vm_compute; discriminate.
Defined.

Lemma loadBatch_selects_witness :
  let im : InputManager CasinoBinReader := InputManager_setBasePath "/data" InputManager_new in
  InputManager_loadBatch 2 9
    (Ok [dir "Rep10"; dir "Rep3"; mk_entry "notes.txt" false; dir "Rep1"; dir "Rep2"]) im
  = (Ok tt,
     mk_InputManager [replication_of "/data/" "Rep3"; replication_of "/data/" "Rep2"]
       "/data/") /\
  InputManager_loadBatch 2 9
    (Ok [dir "Rep10"; dir "Rep3"; dir "Rep2147483648"; mk_entry "notes.txt" false; dir "Rep2"])
    im
  = (Throw (runtime_error "Failed processing file: Rep2147483648"),
     mk_InputManager [replication_of "/data/" "Rep3"] "/data/") /\
  InputManager_loadBatch 2 9
    (Ok [dir "Rep2"; dir "backup"; dir "Rep3"]) im
  = (Throw (runtime_error "Failed processing file: backup"),
     mk_InputManager [replication_of "/data/" "Rep2"] "/data/").
Proof.
  intros im. split; [|split].
  - apply (loadBatch_selects (Rd:=CasinoBinReader) 2 9
             [dir "Rep10"; dir "Rep3"; mk_entry "notes.txt" false; dir "Rep1"; dir "Rep2"] im).
    + lia.
    + vm_compute. discriminate.
    + repeat (apply Forall_cons_2 || apply Forall_nil_2); eexists; vm_compute; reflexivity.
  - apply (proj2 (loadBatch_selects (Rd:=CasinoBinReader) 2 9
             [dir "Rep10"; dir "Rep3"; dir "Rep2147483648"; mk_entry "notes.txt" false;
              dir "Rep2"] im ltac:(lia) ltac:(vm_compute; discriminate))
           ["Rep10"; "Rep3"] "Rep2147483648" ["Rep2"] (out_of_range "stoi")).
    + reflexivity.
    + repeat (apply Forall_cons_2 || apply Forall_nil_2); eexists; vm_compute; reflexivity.
    + vm_compute. reflexivity.
  - apply (proj2 (loadBatch_selects (Rd:=CasinoBinReader) 2 9
             [dir "Rep2"; dir "backup"; dir "Rep3"] im
             ltac:(lia) ltac:(vm_compute; discriminate))
           ["Rep2"] "backup" ["Rep3"] (invalid_argument "stoi")).
    + reflexivity.
    + repeat (apply Forall_cons_2 || apply Forall_nil_2); eexists; vm_compute; reflexivity.
    + vm_compute. reflexivity.
Defined.

Lemma loadFolders_outcome_witness :
  let is_dir := fun p : string => bool_decide (p ∈ ["/data/Rep2"; "/data/Rep1"]) in
  let im := InputManager_setBasePath (Rd:=CasinoBinReader) "/data" InputManager_new in
  let loaded :=
    mk_InputManager [replication_of "/data/" "Rep2"; replication_of "/data/" "Rep1"]
      "/data/" in
  InputManager_loadFolders is_dir ["Rep2"; "Rep1"] im = (Ok tt, loaded) /\
  forall missing rest,
    is_dir ("/data/" ++ missing)%string = false ->
    InputManager_loadFolders is_dir (["Rep2"; "Rep1"] ++ missing :: rest) im
    = (Throw (runtime_error ("Directory not found: " ++ "/data/" ++ missing)), loaded).
Proof.
  intros is_dir im loaded.
  apply (loadFolders_outcome (Rd:=CasinoBinReader) is_dir ["Rep2"; "Rep1"] im).
  repeat (apply Forall_cons_2 || apply Forall_nil_2); reflexivity.
Defined.

(** ** Names given by [OutputManager], read back by [InputManager] *)

(** The number [InputManager] extracts from a directory name that
    [OutputManager::newReplication] built is the counter value it was
    built from: for a replication name [P] that does not end with a
    digit and a counter [i] that fits an [int], the trailing number of
    [P] followed by [i] is [i]. *)
Theorem replication_name_number (P : string) (i : nat) :
  lacks_numeric_suffix P = true ->
  (N.of_nat (String.length P) < SIZE_MOD)%N ->
  (Z.of_nat i <= INT_MAX)%Z ->
  trailing_number (replication_name P i) = Ok (Z.of_nat i) /\
  sort_number (replication_name P i) = Z.of_nat i.
Proof. intros. split; [by apply trailing_number_name|by apply sort_number_name]. Qed.

Lemma replication_name_number_witness :
  trailing_number (replication_name "Replication" 12) = Ok 12%Z /\
  sort_number (replication_name "Replication" 12) = 12%Z.
Proof.
  apply (replication_name_number "Replication" 12).
  - reflexivity.
  - reflexivity.
  - vm_compute. discriminate.
Defined.

Section CreationOrder.
Variable P : string.
Hypothesis P_lacks : lacks_numeric_suffix P = true.
Hypothesis P_length : (N.of_nat (String.length P) < SIZE_MOD)%N.

Lemma creation_names_key k n name :
  (Z.of_nat (k + n) <= INT_MAX + 1)%Z ->
  name ∈ map (replication_name P) (seq k n) ->
  exists i, name = replication_name P i /\ (k <= i < k + n)%nat /\
            sort_number name = Z.of_nat i.
Proof.
  intros Hmax Hin. apply list_elem_of_In, in_map_iff in Hin as (i & <- & Hi).
  apply in_seq in Hi. exists i. split; [done|]. split; [done|].
  apply sort_number_name; [done..|lia].
Qed.

Lemma creation_names_numeric k n :
  (Z.of_nat (k + n) <= INT_MAX + 1)%Z ->
  Forall (fun name => sort_number name <> (-1)%Z) (map (replication_name P) (seq k n)).
Proof.
  intros Hmax. apply Forall_forall. intros name Hin.
  destruct (creation_names_key k n name Hmax Hin) as (i & _ & _ & ->). lia.
Qed.

Lemma creation_names_ascending k n :
  (Z.of_nat (k + n) <= INT_MAX + 1)%Z ->
  StronglySorted (ascending sort_number) (map (replication_name P) (seq k n)).
Proof.
  revert k. induction n as [|n IH]; intros k Hmax; [constructor|].
  cbn [seq map]. constructor; [apply IH; lia|].
  apply Forall_forall. intros name Hin.
  destruct (creation_names_key (S k) n name ltac:(lia) Hin) as (i & _ & Hi & Hkey).
  unfold ascending. rewrite Hkey, sort_number_name by (done || lia). lia.
Qed.

Lemma creation_names_separated k n a b :
  (Z.of_nat (k + n) <= INT_MAX + 1)%Z ->
  a ∈ map (replication_name P) (seq k n) ->
  b ∈ map (replication_name P) (seq k n) ->
  sort_number a = sort_number b -> a = b.
Proof.
  intros Hmax Ha Hb.
  destruct (creation_names_key k n a Hmax Ha) as (i & -> & _ & ->).
  destruct (creation_names_key k n b Hmax Hb) as (j & -> & _ & ->).
  intros H. f_equal. lia.
Qed.

Lemma std_sort_creation_names k n names :
  (Z.of_nat (k + n) <= INT_MAX + 1)%Z ->
  names ≡ₚ map (replication_name P) (seq k n) ->
  std_sort name_less names = map (replication_name P) (seq k n).
Proof.
  intros Hmax Hperm. symmetry.
  apply (ascending_unique sort_number).
  - intros a b. by apply creation_names_separated.
  - by rewrite std_sort_Permutation.
  - by apply creation_names_ascending.
  - apply (std_sort_ascending name_less sort_number _ name_less_numeric).
    rewrite Hperm. by apply creation_names_numeric.
Qed.

Lemma sorted_by_creation_names k n names :
  (Z.of_nat (k + n) <= INT_MAX + 1)%Z ->
  names ≡ₚ map (replication_name P) (seq k n) ->
  sorted_by name_less names = true ->
  names = map (replication_name P) (seq k n).
Proof.
  intros Hmax Hperm Hsorted. symmetry.
  apply (ascending_unique sort_number).
  - intros a b. by apply creation_names_separated.
  - done.
  - by apply creation_names_ascending.
  - apply (sorted_by_ascending name_less sort_number _ name_less_numeric); [|done].
    rewrite Hperm. by apply creation_names_numeric.
Qed.
End CreationOrder.

Section DiscoveryOfCreated.
Context {W : Type} {oinit : OutputInit W} {iw : IWriter W}.

(** What [OutputManager] creates, [InputManager] discovers in creation
    order: when the directories found under the base path are exactly
    those named by consecutive [newReplication()] calls of a manager
    whose name does not end with a digit, listed in any order and among
    any plain files, [loadReplications()] returns them in the order
    they were created, for both casino input managers; and that order
    is the only one the comparison of [sortReplications] accepts, so
    the result does not depend on how [std::sort] proceeds. *)
Theorem discovery_restores_creation_order (P basePath : string)
    (envs : list directory_oracle) (om om' : OutputManager W) (names : list string)
    (entries : list directory_entry) :
  lacks_numeric_suffix P = true ->
  (N.of_nat (String.length P) < SIZE_MOD)%N ->
  om_replicationName om = P ->
  om_counter om = 1%Z ->
  (Z.of_nat (length envs) < INT_MAX)%Z ->
  newReplication_calls envs om = Defined (names, om') ->
  map entry_filename (List.filter entry_is_directory entries) ≡ₚ names ->
  replication_names
    (InputManager_loadReplications (Rd:=CasinoBinReader) (Ok entries)
       (InputManager_setBasePath basePath InputManager_new)).2 = names
  /\ replication_names
       (InputManager_loadReplications (Rd:=CasinoCSVReader) (Ok entries)
          (InputManager_setBasePath basePath InputManager_new)).2 = names
  /\ forall arrangement,
       arrangement ≡ₚ names -> sorted_by name_less arrangement = true ->
       arrangement = names.
Proof.
  intros Hlack Hlen HP Hc Hmax Hcalls Hperm.
  destruct (newReplication_calls_from P envs 1 om HP Hc) as [om1 Hnames]; [lia|].
  rewrite Hcalls in Hnames. injection Hnames as -> _.
  assert (Z.of_nat (1 + length envs) <= INT_MAX + 1)%Z as Hbound by lia.
  split; [|split].
  - rewrite (loadReplications_names CasinoBinReplication_init_name).
    by apply std_sort_creation_names.
  - rewrite (loadReplications_names CasinoReplication_init_name).
    by apply std_sort_creation_names.
  - intros arrangement. by apply sorted_by_creation_names.
Qed.
End DiscoveryOfCreated.

Lemma discovery_restores_creation_order_witness :
  let names := ["Replication1"; "Replication2"; "Replication3"] in
  let entries :=
    [dir "Replication3"; mk_entry "notes.txt" false; dir "Replication1"; dir "Replication2"] in
  replication_names
    (InputManager_loadReplications (Rd:=CasinoBinReader) (Ok entries)
       (InputManager_setBasePath "/results" InputManager_new)).2 = names
  /\ replication_names
       (InputManager_loadReplications (Rd:=CasinoCSVReader) (Ok entries)
          (InputManager_setBasePath "/results" InputManager_new)).2 = names
  /\ forall arrangement,
       arrangement ≡ₚ names -> sorted_by name_less arrangement = true ->
       arrangement = names.
Proof.
  intros names entries.
  apply (discovery_restores_creation_order (W:=CasinoBinWriter) "Replication" "/results"
           [dir_creatable; dir_denied; dir_exists]
           (OutputManager_setName "Replication"
              (OutputManager_setBasePath "/results" OutputManager_new))
           (mk_OutputManager (init_writers "/results/Replication3/")
              "/results/" "Replication" "Replication3"
              "/results/Replication3/" 4)
           names entries).
  - reflexivity.
  - reflexivity.
  - reflexivity.
  - reflexivity.
  - vm_compute. reflexivity.
  - vm_compute. reflexivity.
  - exact (Permutation_cons_append ["Replication1"; "Replication2"] "Replication3").
Defined.

(** ** Statistics: what processing collects *)

Section BinStatisticsFacts.
Context {host : Host} {fl : FloatLib} {ft : FloatText}.

Lemma Reader_load_closed (fs : filesystem) path (r : CasinoBinReader) values :
  closed_reader path r -> path <> "" ->
  fs !! path = Some (frames values) ->
  Reader_load fs r
  = Some (Ok tt,
          mk_Reader (mk_BinFileIn (mk_ifstream false [] true true)) values path false, []).
Proof.
  intros (Hp & Hopen & Hclosed) Hpath Hfile.
  unfold Reader_load, Reader_open. rewrite Hopen, Hp. cbn [negb].
  rewrite bool_decide_eq_false_2 by done.
  cbn [fin_open BinFileIn_FileIn]. rewrite BinFileIn_open_closed by done. rewrite Hfile.
  unfold Reader_flush. cbn [r_file r_data r_path r_isOpen].
  rewrite Reader_load_loop_frames.
  - reflexivity.
  - unfold pending, BinFileIn_Pending. cbn [bin_inFile in_pending].
    rewrite length_frames. lia.
Qed.

Lemma Replication_getReader_middle name base (pre : list CasinoBinReader) r rs :
  Replication_getReader (Z.of_nat (length pre)) (mk_Replication name base (pre ++ r :: rs))
  = Ok r.
Proof.
  unfold Replication_getReader. cbn [rep_readers].
  rewrite length_app. cbn [length].
  rewrite (proj2 (Z.ltb_ge _ _)) by lia.
  rewrite (proj2 (Z.leb_gt _ _)) by lia.
  cbn [orb]. rewrite Nat2Z.id.
  by rewrite list_lookup_middle.
Qed.

Lemma process_readers_collects fs name base pre rs vpre vs channels :
  Forall2 (channel_holds fs) rs channels ->
  length vpre = length pre -> length vs = length channels ->
  process_readers (length channels) (length pre) fs
    (mk_Replication name base (pre ++ rs)) (vpre ++ vs)
  = Some (Ok tt,
          mk_Replication name base (pre ++ map (fun ch => drained_reader ch.1) channels),
          vpre ++ collect vs channels).
Proof.
  intros Hall. revert pre vpre vs.
  induction Hall as [|r ch rs channels (Hclosed & Hpath & Hfile) Hall IH];
    intros pre vpre vs Hvpre Hvs.
  - destruct vs; [|discriminate Hvs]. reflexivity.
  - destruct vs as [|v vs]; [discriminate Hvs|].
    cbn [length process_readers].
    rewrite Replication_getReader_middle.
    rewrite (Reader_load_closed fs ch.1 r ch.2) by done.
    unfold Reader_getData, Reader_flush, set_reader.
    cbn [r_file r_data r_path r_isOpen rep_name rep_basePath rep_readers].
    rewrite length_app. cbn [length].
    rewrite (proj2 (Nat.ltb_lt _ _)) by lia.
    rewrite alter_app_r_alt by lia. rewrite Hvpre, Nat.sub_diag. cbn [alter list_alter].
    rewrite insert_app_r_alt, Nat.sub_diag by done. cbn [insert list_insert].
    replace (S (length pre)) with (length (pre ++ [drained_reader ch.1]))
      by (rewrite length_app; cbn; lia).
    rewrite (cons_middle _ pre rs), (cons_middle _ vpre vs), !app_assoc.
    rewrite IH by (rewrite ?length_app; cbn in *; lia).
    rewrite <- !app_assoc. reflexivity.
Qed.

Lemma size_t_to_int_small (index : N) :
  (index <= 2147483647)%N -> size_t_to_int index = Z.of_N index.
Proof.
  intros H. unfold size_t_to_int, INT_MAX.
  rewrite Z.mod_small by lia.
  by rewrite (proj2 (Z.leb_le _ _)) by lia.
Qed.

Lemma InputManager_getReplication_Some {Rd} (im : InputManager Rd) (index : N) rep :
  (index <= 2147483647)%N ->
  im_replications im !! N.to_nat index = Some rep ->
  InputManager_getReplication (size_t_to_int index) im = Ok rep.
Proof.
  intros Hsmall Hrep. rewrite size_t_to_int_small by done.
  unfold InputManager_getReplication.
  pose proof (lookup_lt_Some _ _ _ Hrep) as Hlt.
  rewrite (proj2 (Z.ltb_ge _ _)) by lia.
  rewrite (proj2 (Z.leb_gt _ _)) by lia.
  cbn [orb]. rewrite <- Z_N_nat, N2Z.id. by rewrite Hrep.
Qed.

Lemma processReplication_run (fs : filesystem) (index : N)
    (s : CasinoBinStatistics) (rep : Replication CasinoBinReader)
    (channels : list (string * list double)) :
  (index <= 2147483647)%N ->
  im_replications (st_inputManager s) !! N.to_nat index = Some rep ->
  Forall2 (channel_holds fs) (rep_readers rep) channels ->
  length (armaVecs s) = length channels ->
  processReplication fs index s
  = Some (Ok tt,
          mk_CasinoStats
            (mk_InputManager
               (<[N.to_nat index :=
                    mk_Replication (rep_name rep) (rep_basePath rep)
                      (map (fun ch => drained_reader ch.1) channels)]>
                  (im_replications (st_inputManager s)))
               (im_basePath (st_inputManager s)))
            (st_basePath s)
            (collect (armaVecs s) channels)).
Proof.
  intros Hsmall Hrep Hall Hlen. unfold processReplication.
  rewrite (InputManager_getReplication_Some _ _ rep) by done.
  unfold Replication_getReaderCount. rewrite (Forall2_length _ _ _ Hall).
  destruct rep as [name base readers]. cbn [rep_readers rep_name rep_basePath] in *.
  pose proof (process_readers_collects fs name base [] readers [] (armaVecs s) channels
                Hall eq_refl Hlen) as Hrun.
  cbn [app length] in Hrun. rewrite Hrun.
  rewrite size_t_to_int_small, <- Z_N_nat, N2Z.id by done. reflexivity.
Qed.

Lemma channel_holds_drained fs (readers : list CasinoBinReader) channels :
  Forall2 (channel_holds fs) readers channels ->
  Forall2 (channel_holds fs) (map (fun ch => drained_reader ch.1) channels) channels.
Proof.
  induction 1 as [|r ch rs channels (_ & Hpath & Hfile) _ IH]; [constructor|].
  cbn [map]. constructor; [|exact IH]. repeat split; done.
Qed.

Lemma length_collect vecs channels :
  length vecs = length channels -> length (collect vecs channels) = length channels.
Proof. intros H. unfold collect. rewrite length_zip_with. lia. Qed.

(** What [processReplication] collects: when the readers of the
    replication are closed and each channel file holds exactly the
    frames of a list of values, the call succeeds, appends to each
    aggregate vector the values of its channel, and leaves every
    reader closed with an empty buffer; and processing the same
    replication again appends the same values a second time. *)
Theorem processReplication_collects (fs : filesystem) (index : N)
    (s : CasinoBinStatistics) (rep : Replication CasinoBinReader)
    (channels : list (string * list double)) :
  (Z.of_nat (length (im_replications (st_inputManager s))) <= INT_MAX)%Z ->
  im_replications (st_inputManager s) !! N.to_nat index = Some rep ->
  Forall2 (channel_holds fs) (rep_readers rep) channels ->
  length (armaVecs s) = length channels ->
  let im' :=
    mk_InputManager
      (<[N.to_nat index :=
           mk_Replication (rep_name rep) (rep_basePath rep)
             (map (fun ch => drained_reader ch.1) channels)]>
         (im_replications (st_inputManager s)))
      (im_basePath (st_inputManager s)) in
  let once := mk_CasinoStats im' (st_basePath s) (collect (armaVecs s) channels) in
  processReplication fs index s = Some (Ok tt, once) /\
  processReplication fs index once
  = Some (Ok tt,
          mk_CasinoStats im' (st_basePath s)
            (collect (collect (armaVecs s) channels) channels)).
Proof.
  intros Hsize Hrep Hall Hlen im' once.
  pose proof (lookup_lt_Some _ _ _ Hrep) as Hlt.
  assert (index <= 2147483647)%N as Hsmall by (unfold INT_MAX in Hsize; lia).
  split.
  - by apply processReplication_run.
  - 
    rewrite (processReplication_run fs index once
               (mk_Replication (rep_name rep) (rep_basePath rep)
                  (map (fun ch => drained_reader ch.1) channels)) channels).
    + subst once im'. cbn [st_inputManager st_basePath armaVecs im_replications
                           im_basePath rep_name rep_basePath].
      by rewrite list_insert_insert_eq.
    + done.
    + subst once im'. cbn [st_inputManager im_replications].
      by apply list_lookup_insert_eq.
    + cbn [rep_readers]. by eapply channel_holds_drained.
    + subst once. cbn [armaVecs]. by apply length_collect.
Qed.
End BinStatisticsFacts.

Lemma processReplication_collects_witness :
  let host := little_endian_host in
  let fl := example_FloatLib in
  let ft := example_FloatText in
  let fs : filesystem :=
    list_to_map
      [("/d/Rep1/ruleta_red.csv", frames [first_double; fresh_double]);
       ("/d/Rep1/ruleta_alt.csv", frames []);
       ("/d/Rep1/automat.csv", frames [stale_double]);
       ("/d/Rep1/blackjack_con.csv", frames []);
       ("/d/Rep1/blackjack_agg.csv", frames [fresh_double])] in
  let channels :=
    [("/d/Rep1/ruleta_red.csv", [first_double; fresh_double]);
     ("/d/Rep1/ruleta_alt.csv", []);
     ("/d/Rep1/automat.csv", [stale_double]);
     ("/d/Rep1/blackjack_con.csv", []);
     ("/d/Rep1/blackjack_agg.csv", [fresh_double])] in
  let s : CasinoBinStatistics :=
    (Statistics_loadFolders (fun _ => true) ["Rep1"]
       (Statistics_setBasePath "/d" CasinoStats_new)).2 in
  let im' :=
    mk_InputManager
      [mk_Replication "Rep1" "/d/Rep1/" (map (fun ch => drained_reader ch.1) channels)]
      "/d/" in
  let once := mk_CasinoStats im' "/d" (collect (armaVecs s) channels) in
  processReplication fs 0 s = Some (Ok tt, once) /\
  processReplication fs 0 once
  = Some (Ok tt, mk_CasinoStats im' "/d" (collect (collect (armaVecs s) channels) channels)).
Proof.
  intros host fl ft fs channels s im' once.
  assert (Forall2 (channel_holds fs)
            (rep_readers (replication_of (Rd:=CasinoBinReader) "/d/" "Rep1")) channels)
    as Hall.
  { repeat (apply Forall2_cons_2 || apply Forall2_nil_2);
      (split; [|split]); vm_compute; (reflexivity || discriminate || (repeat split)). }
  exact (processReplication_collects fs 0 s
           (replication_of (Rd:=CasinoBinReader) "/d/" "Rep1") channels
           ltac:(vm_compute; discriminate) eq_refl Hall eq_refl).
Defined.

Section GenericStatisticsFacts.
Context {O F : Type}.
Context {conv : Converter double O} {fin : FileIn F O}.
Context {eu : ExchangeUnit O} {pend : Pending F}.
Context {rinit : ReplicationInit (Reader double F)}.
Context {fl : FloatLib} {ft : FloatText}.

(** [processReplication(index)] with an index that is not below the
    number of replications, for indices below 2^32 and collections an
    [int] can count: it raises [std::out_of_range] and leaves the
    statistics as they were. *)
Theorem processReplication_out_of_range (fs : filesystem) (index : N) (s : CasinoStats F) :
  (Z.of_nat (length (im_replications (st_inputManager s))) <= INT_MAX)%Z ->
  (N.of_nat (length (im_replications (st_inputManager s))) <= index < 4294967296)%N ->
  processReplication fs index s = Some (Throw (out_of_range "Index out of range"), s).
Proof.
  intros Hsize [Hlo Hhi]. unfold processReplication, InputManager_getReplication.
  assert (((size_t_to_int index <? 0)
           || (Z.of_nat (length (im_replications (st_inputManager s)))
               <=? size_t_to_int index))%Z = true) as ->; [|reflexivity].
  unfold size_t_to_int, INT_MAX. rewrite Z.mod_small by lia.
  destruct (Z.leb_spec (Z.of_N index) 2147483647).
  - apply orb_true_iff. right. apply Z.leb_le. lia.
  - apply orb_true_iff. left. apply Z.ltb_lt. lia.
Qed.

Lemma Forall2_prefix_refl (vecs : list (list double)) : Forall2 prefix vecs vecs.
Proof. induction vecs; by constructor. Qed.

Lemma Forall2_prefix_alter (vecs : list (list double)) i data :
  Forall2 prefix vecs (alter (fun vec => vec ++ data) i vecs).
Proof.
  revert i. induction vecs as [|v vecs IH]; intros i; [constructor|].
  destruct i as [|i]; cbn [alter list_alter].
  - constructor; [by exists data|apply Forall2_prefix_refl].
  - constructor; [done|apply IH].
Qed.

Lemma Forall2_prefix_trans (a b c : list (list double)) :
  Forall2 prefix a b -> Forall2 prefix b c -> Forall2 prefix a c.
Proof.
  intros Hab. revert c. induction Hab as [|x y a b Hxy Hab IH]; intros c Hbc.
  - by inversion Hbc.
  - inversion Hbc as [|y' z b' c' Hyz Hbc']; subst.
    constructor; [by etrans|by apply IH].
Qed.

Lemma process_readers_grows todo i fs rep vecs res rep' vecs' :
  process_readers todo i fs rep vecs = Some (res, rep', vecs') ->
  Forall2 prefix vecs vecs'.
Proof.
  revert i rep vecs. induction todo as [|todo IH]; intros i rep vecs; cbn [process_readers].
  - intros [= _ _ <-]. apply Forall2_prefix_refl.
  - destruct (Replication_getReader _ rep) as [reader|e];
      [|intros [= _ _ <-]; apply Forall2_prefix_refl].
    destruct (Reader_load fs reader) as [[[[[]|e] reader1] cerr]|]; [| |intros [=]].
    + intros H. apply IH in H. eapply Forall2_prefix_trans; [|exact H].
      destruct (i <? length vecs)%nat;
        [apply Forall2_prefix_alter|apply Forall2_prefix_refl].
    + intros [= _ _ <-]. apply Forall2_prefix_refl.
Qed.

Lemma processReplication_grows fs index s res s' :
  processReplication fs index s = Some (res, s') ->
  Forall2 prefix (armaVecs s) (armaVecs s').
Proof.
  unfold processReplication.
  destruct (InputManager_getReplication _ _) as [rep|e];
    [|intros [= _ <-]; apply Forall2_prefix_refl].
  destruct (process_readers _ _ _ _ _) as [[[res' rep'] vecs']|] eqn:E; [|intros [=]].
  intros [= _ <-]. cbn [armaVecs]. by eapply process_readers_grows.
Qed.

Lemma processAll_from_grows todo i fs s res s' :
  processAll_from todo i fs s = Some (res, s') ->
  Forall2 prefix (armaVecs s) (armaVecs s').
Proof.
  revert i s. induction todo as [|todo IH]; intros i s; cbn [processAll_from].
  - intros [= _ <-]. apply Forall2_prefix_refl.
  - destruct (processReplication fs i s) as [[[[]|e] s1]|] eqn:E; [| |intros [=]].
    + intros H. apply IH in H.
      eapply Forall2_prefix_trans; [|exact H]. by eapply processReplication_grows.
    + intros [= _ <-]. by eapply processReplication_grows.
Qed.

(** Processing never discards samples: whatever
    [processReplication] or [processAllReplications] returns, success
    or an exception raised midway, every aggregate vector afterwards
    starts with its content from before. *)
Theorem aggregates_only_grow (fs : filesystem) (s s' : CasinoStats F) (res : result unit) :
  processAllReplications fs s = Some (res, s') \/
  (exists index, processReplication fs index s = Some (res, s')) ->
  Forall2 prefix (armaVecs s) (armaVecs s').
Proof.
  intros [Hall|[index Hone]].
  - by eapply processAll_from_grows.
  - by eapply processReplication_grows.
Qed.

(** [clearData()] on any instance a program can reach: every mean is
    [0.0] afterwards, no replication is left, the base paths are kept,
    clearing twice is clearing once, and after [setBasePath] the
    instance equals a new one given that base path, so nothing of an
    earlier analysis survives. *)
Theorem clearData_resets (s : CasinoStats F) (path : string) :
  reachable s ->
  (forall index, getMean index (clearData s) = double_zero) /\
  im_replications (st_inputManager (clearData s)) = [] /\
  st_basePath (clearData s) = st_basePath s /\
  im_basePath (st_inputManager (clearData s)) = im_basePath (st_inputManager s) /\
  clearData (clearData s) = clearData s /\
  Statistics_setBasePath path (clearData s) = Statistics_setBasePath path CasinoStats_new.
Proof.
  intros Hreach. pose proof (reachable_channels s Hreach) as Hlen.
  split; [|repeat split].
  - intros index. unfold getMean, clearData. cbn [armaVecs].
    destruct (_ <=? _)%N eqn:Hle; [done|].
    apply N.leb_gt in Hle. rewrite length_map in Hle.
    destruct (lookup_lt_is_Some_2 (armaVecs s) (N.to_nat index)) as [vec Hvec]; [lia|].
    rewrite (list_lookup_total_correct _ _ []).
    + by rewrite bool_decide_eq_true_2.
    + by rewrite list_lookup_fmap, Hvec.
  - unfold clearData. cbn [armaVecs st_inputManager st_basePath im_basePath
                           InputManager_clearReplications].
    unfold InputManager_clearReplications. cbn [im_basePath].
    f_equal. rewrite map_map. reflexivity.
  - unfold Statistics_setBasePath, clearData, CasinoStats_new.
    cbn [armaVecs st_inputManager st_basePath]. f_equal.
    destruct (armaVecs s) as [|a [|b [|c [|d [|e [|]]]]]]; try discriminate Hlen.
    reflexivity.
Qed.
End GenericStatisticsFacts.

Lemma processReplication_out_of_range_witness :
  let host := little_endian_host in
  let fl := example_FloatLib in
  let ft := example_FloatText in
  let s : CasinoBinStatistics :=
    (Statistics_loadFolders (fun _ => true) ["Rep1"; "Rep2"]
       (Statistics_setBasePath "/d" CasinoStats_new)).2 in
  processReplication ∅ 2 s = Some (Throw (out_of_range "Index out of range"), s).
Proof.
  intros host fl ft s.
  apply (processReplication_out_of_range ∅ 2 s).
  - vm_compute. discriminate.
  - vm_compute. split; [discriminate|reflexivity].
Defined.

Lemma aggregates_only_grow_witness :
  let host := little_endian_host in
  let fl := example_FloatLib in
  let ft := example_FloatText in
  let fs : filesystem :=
    list_to_map
      [("/d/Rep1/ruleta_red.csv", frames [first_double; fresh_double]);
       ("/d/Rep1/ruleta_alt.csv", frames []);
       ("/d/Rep1/automat.csv", frames [stale_double]);
       ("/d/Rep1/blackjack_con.csv", frames []);
       ("/d/Rep1/blackjack_agg.csv", frames [fresh_double]);
       ("/d/Rep2/ruleta_red.csv", frames [stale_double]);
       ("/d/Rep2/ruleta_alt.csv", frames [first_double])] in
  let loaded : CasinoBinStatistics :=
    (Statistics_loadFolders (fun _ => true) ["Rep1"; "Rep2"]
       (Statistics_setBasePath "/d" CasinoStats_new)).2 in
  let s : CasinoBinStatistics :=
    match processReplication fs 0 loaded with
    | Some (_, s) => s
    | None => loaded
    end in
  let failed : result unit :=
    Throw (runtime_error
             "Failed to open file: /d/Rep2/automat.csv (Failed to open file: /d/Rep2/automat.csv)") in
  let s' : CasinoBinStatistics :=
    match processAllReplications fs s with
    | Some (_, s') => s'
    | None => s
    end in
  (armaVecs s = [[first_double; fresh_double]; []; [stale_double]; []; [fresh_double]] /\
   processAllReplications fs s = Some (failed, s') /\
   armaVecs s'
   = [[first_double; fresh_double; first_double; fresh_double; stale_double];
      [first_double];
      [stale_double; stale_double];
      [];
      [fresh_double; fresh_double]]) /\
  Forall2 prefix (armaVecs s) (armaVecs s').
Proof.
  intros host fl ft fs loaded s failed s'.
  split.
  - vm_compute. repeat split.
  - apply (aggregates_only_grow fs s s' failed).
    left. vm_compute. reflexivity.
Defined.

Lemma clearData_resets_witness :
  let host := little_endian_host in
  let fl := example_FloatLib in
  let ft := example_FloatText in
  let s : CasinoBinStatistics :=
    (Statistics_loadFolders (fun _ => true) ["Rep1"; "Rep2"]
       (Statistics_setBasePath "/d" CasinoStats_new)).2 in
  (forall index, getMean index (clearData s) = double_zero) /\
  im_replications (st_inputManager (clearData s)) = [] /\
  st_basePath (clearData s) = st_basePath s /\
  im_basePath (st_inputManager (clearData s)) = im_basePath (st_inputManager s) /\
  clearData (clearData s) = clearData s /\
  Statistics_setBasePath "/e" (clearData s) = Statistics_setBasePath "/e" CasinoStats_new.
Proof.
  intros host fl ft s.
  apply (clearData_resets s "/e").
  apply (reach_loadFolders (Statistics_setBasePath "/d" CasinoStats_new) (fun _ => true)
           ["Rep1"; "Rep2"] (Ok tt) s).
  - apply reach_setBasePath, reach_new.
  - reflexivity.
Defined.

(** ** Base paths and channel files *)

Lemma string_back_app_slash (s : string) : string_back (s ++ "/") = Some "/"%char.
Proof.
  induction s as [|c s IH]; [reflexivity|].
  change (String c s ++ "/")%string with (String c (s ++ "/")).
  cbn [string_back]. destruct (s ++ "/")%string eqn:E; [|exact IH].
  destruct s; discriminate E.
Qed.

Lemma with_final_slash_app_slash (s : string) :
  with_final_slash (s ++ "/") = (s ++ "/")%string.
Proof. unfold with_final_slash. by rewrite string_back_app_slash. Qed.

Lemma string_app_nil_r (s : string) : (s ++ "")%string = s.
Proof.
  induction s as [|c s IH]; [done|].
  change (String c s ++ "")%string with (String c (s ++ "")). by rewrite IH.
Qed.

Lemma with_final_slash_cases (path : string) :
  (path = "" /\ with_final_slash path = "") \/
  (string_back path = Some "/"%char /\ with_final_slash path = path) \/
  (path <> "" /\ string_back path <> Some "/"%char /\
   with_final_slash path = (path ++ "/")%string).
Proof.
  unfold with_final_slash. destruct (string_back path) as [c|] eqn:Hback.
  - destruct (Ascii.eqb_spec c "/") as [->|Hc].
    + right. left. done.
    + right. right. split; [by intros ->|]. split; [congruence|done].
  - left. by rewrite (string_back_None _ Hback).
Qed.

(** The three [setBasePath] functions store the same normalised
    path: the given path, with a slash appended unless it is empty or
    already ends with one.  A non-empty path always ends with a slash
    afterwards, and setting the stored path again changes nothing. *)
Theorem setBasePath_normalises {Rd W : Type} (path : string)
    (im : InputManager Rd) (om : OutputManager W) (r : Replication Rd) :
  let p := im_basePath (InputManager_setBasePath path im) in
  om_basePath (OutputManager_setBasePath path om) = p /\
  rep_basePath (Replication_setBasePath path r) = p /\
  (p = path \/ p = (path ++ "/")%string) /\
  (path <> "" -> string_back p = Some "/"%char) /\
  (path = "" -> p = "") /\
  InputManager_setBasePath p im = InputManager_setBasePath path im.
Proof.
  cbn [InputManager_setBasePath OutputManager_setBasePath Replication_setBasePath
       im_basePath om_basePath rep_basePath].
  unfold InputManager_setBasePath.
  destruct (with_final_slash_cases path) as [[-> ->]|[[Hb ->]|(Hne & Hb & ->)]].
  - repeat split; auto. done.
  - repeat split; auto. unfold with_final_slash. rewrite Hb. reflexivity.
  - repeat split; auto.
    + intros _. apply string_back_app_slash.
    + done.
    + by rewrite with_final_slash_app_slash.
Qed.

Lemma newReplication_ok_state {W : Type} {oinit : OutputInit W} {iw : IWriter W}
    env (om om1 : OutputManager W) :
  OutputManager_newReplication env om = Defined (Ok tt, om1) ->
  om_currentReplicationName om1
  = (om_replicationName om ++ to_string (om_counter om))%string /\
  om_currentReplicationPath om1
  = (om_basePath om ++ om_currentReplicationName om1 ++ "/")%string /\
  om_writers om1 = init_writers (om_currentReplicationPath om1) /\
  om_basePath om1 = om_basePath om.
Proof.
  unfold OutputManager_newReplication, OutputManager_closeAllWriters.
  cbn [om_counter om_replicationName om_basePath om_currentReplicationName
       om_currentReplicationPath].
  destruct (INT_MAX <=? om_counter om)%Z; [intros [=]|].
  destruct (fs_exists env _) as [[|]|e];
    [|destruct (fs_create_directory env _) as [[|]|e']|];
    intros [= <-] || intros [=]; done.
Qed.

Lemma map_r_path_registered {F O : Type} {fin : FileIn F O} (path : string)
    (files : list string) (r : Replication (Reader double F)) :
  map r_path
    (rep_readers
       (fold_left (fun r' file =>
                     Replication_registerReader (Reader_new (path ++ file)) r') files r))
  = map r_path (rep_readers r) ++ map (fun file => (path ++ file)%string) files.
Proof.
  revert r. induction files as [|file files IH]; intros r.
  - cbn. by rewrite app_nil_r.
  - cbn [fold_left map]. rewrite IH. unfold Replication_registerReader.
    cbn [rep_readers]. rewrite map_app. cbn [map r_path Reader_new].
    by rewrite <- app_assoc.
Qed.

(** The files a replication is read from are the files it was
    written to: after a successful [newReplication()], the paths of
    the five writers are, channel by channel, the paths of the five
    readers of the replication an input manager with the same base path
    builds for the directory of that name, for the binary and for the
    text classes. *)
Theorem written_channels_are_read_channels (basePath : string) (env : directory_oracle) :
  (forall om om1 : OutputManager CasinoBinWriter,
      OutputManager_newReplication env (OutputManager_setBasePath basePath om)
      = Defined (Ok tt, om1) ->
      map w_path (om_writers om1)
      = map r_path
          (rep_readers
             (replication_of (Rd:=CasinoBinReader)
                (im_basePath (InputManager_setBasePath (Rd:=CasinoBinReader) basePath
                                InputManager_new))
                (om_currentReplicationName om1)))) /\
  (forall om om1 : OutputManager CasinoCSVWriter,
      OutputManager_newReplication env (OutputManager_setBasePath basePath om)
      = Defined (Ok tt, om1) ->
      map w_path (om_writers om1)
      = map r_path
          (rep_readers
             (replication_of (Rd:=CasinoCSVReader)
                (im_basePath (InputManager_setBasePath (Rd:=CasinoCSVReader) basePath
                                InputManager_new))
                (om_currentReplicationName om1)))).
Proof.
  split; intros om om1 Hnew;
    destruct (newReplication_ok_state _ _ _ Hnew) as (_ & Hpath & Hwriters & _);
    rewrite Hwriters, Hpath;
    cbn [OutputManager_setBasePath om_basePath InputManager_setBasePath im_basePath];
    unfold replication_of, make_replication, Replication_setBasePath, Replication_setName,
      Replication_new;
    cbn [rep_name rep_basePath rep_readers];
    rewrite with_final_slash_app_slash.
  - unfold Replication_init, CasinoBinReplication_init. cbn [rep_basePath].
    rewrite map_r_path_registered. cbn [rep_readers map app].
    unfold init_writers, CasinoBinOutputManager_init. rewrite map_map.
    cbn [w_path Writer_new]. by rewrite string_app_assoc.
  - unfold Replication_init, CasinoReplication_init. cbn [rep_basePath].
    rewrite map_r_path_registered. cbn [rep_readers map app].
    unfold init_writers, CasinoOutputManager_init. rewrite map_map.
    cbn [w_path Writer_new]. by rewrite string_app_assoc.
Qed.

Lemma written_channels_are_read_channels_witness :
  map w_path
    (om_writers
       (mk_OutputManager (W:=CasinoBinWriter) (init_writers "/results/Replication1/")
          "/results/" "Replication" "Replication1" "/results/Replication1/" 2))
  = map r_path
      (rep_readers (replication_of (Rd:=CasinoBinReader) "/results/" "Replication1")).
Proof.
  apply (proj1 (written_channels_are_read_channels "/results" dir_creatable)
           (OutputManager_setName "Replication" OutputManager_new)).
  reflexivity.
Defined.

(** ** Views *)

Lemma create_presenter_app (p : Presenter) (ps suffix : list Presenter) :
  create_presenter p (mk_PresenterManager (ps ++ suffix))
  = ((length ps + length suffix)%nat, mk_PresenterManager (ps ++ suffix ++ [p])).
Proof. unfold create_presenter. cbn [presenters]. by rewrite length_app, app_assoc. Qed.

Lemma with_presenter_app (h : nat) (f : Presenter -> Presenter)
    (ps suffix : list Presenter) :
  with_presenter (length ps + h) f (mk_PresenterManager (ps ++ suffix))
  = mk_PresenterManager (ps ++ alter f h suffix).
Proof. unfold with_presenter. cbn [presenters]. by rewrite alter_app_r. Qed.

Section ViewFacts.
Context {O F : Type}.
Context {conv : Converter double O} {fin : FileIn F O}.
Context {eu : ExchangeUnit O} {pend : Pending F}.
Context {rinit : ReplicationInit (Reader double F)}.
Context {fl : FloatLib} {ft : FloatText}.

Lemma setup_views_app (ps suffix : list Presenter) (s : CasinoStats F) :
  setup_views (mk_PresenterManager (ps ++ suffix)) s
  = ((length ps + (length suffix + 2))%nat,
     mk_PresenterManager
       (ps ++ suffix ++
        [TextPresenter
           ("Ruleta AR: " ++ percent_text 0 s ++ "%" ++ String "010" "" ++
            "Ruleta ALT: " ++ percent_text 1 s ++ "%" ++ String "010" "" ++
            "Automaty: " ++ percent_text 2 s ++ "%" ++ String "010" "" ++
            "Blackjack con: " ++ percent_text 3 s ++ "%" ++ String "010" "" ++
            "Blackjack agg: " ++ percent_text 4 s ++ "%");
         TablePresenter
           (["Game"; "Win Rate"]
            :: map (fun '(label, i) => [label; (percent_text i s ++ "%")%string])
                 (zip casino_labels [0; 1; 2; 3; 4]%N));
         GraphPresenter
           (map (fun i => static_cast_float (times_100 (getMean i s))) [0; 1; 2; 3; 4]%N)
           casino_labels (float_literal 0, float_literal 400) "Casino Game Win Rates"
           (float_literal 0) (float_literal 100)])).
Proof.
  unfold setup_views, createTextPresenter, createTablePresenter, createGraphPresenter.
  rewrite create_presenter_app.
  rewrite with_presenter_app, alter_app_r_alt, Nat.sub_diag by lia.
  cbn [alter list_alter setText].
  rewrite create_presenter_app.
  cbn [zip zip_with casino_labels fold_left].
  repeat (rewrite with_presenter_app, alter_app_r_alt, Nat.sub_diag by lia;
          cbn [alter list_alter addRow app]).
  rewrite create_presenter_app.
  repeat (rewrite with_presenter_app, alter_app_r_alt, Nat.sub_diag by lia;
          cbn [alter list_alter setData setLabels setTitle]).
  f_equal.
  - rewrite !length_app. cbn [length]. lia.
  - f_equal. rewrite <- !app_assoc. reflexivity.
Qed.

(** With a manager at hand, both casino overrides of
    [setupPresenters] append exactly three views and touch none of the
    views already there: the text with the five percentages, the table
    with a header and one row per game, and the chart of the five
    values titled "Casino Game Win Rates".  The overrides differ only
    in the height of the chart: the default 400 for the text
    statistics, 300 for the binary ones. *)
Theorem setupPresenters_appends_three_views (m : PresenterManager) (s : CasinoStats F) :
  let text :=
    TextPresenter
      ("Ruleta AR: " ++ percent_text 0 s ++ "%" ++ String "010" "" ++
       "Ruleta ALT: " ++ percent_text 1 s ++ "%" ++ String "010" "" ++
       "Automaty: " ++ percent_text 2 s ++ "%" ++ String "010" "" ++
       "Blackjack con: " ++ percent_text 3 s ++ "%" ++ String "010" "" ++
       "Blackjack agg: " ++ percent_text 4 s ++ "%") in
  let table :=
    TablePresenter
      (["Game"; "Win Rate"]
       :: map (fun '(label, i) => [label; (percent_text i s ++ "%")%string])
            (zip casino_labels [0; 1; 2; 3; 4]%N)) in
  let chart height :=
    GraphPresenter
      (map (fun i => static_cast_float (times_100 (getMean i s))) [0; 1; 2; 3; 4]%N)
      casino_labels (float_literal 0, float_literal height) "Casino Game Win Rates"
      (float_literal 0) (float_literal 100) in
  CasinoStatistics_setupPresenters (Some m) s
  = Defined (Ok tt, Some (mk_PresenterManager (presenters m ++ [text; table; chart 400%Z])))
  /\ CasinoBinStatistics_setupPresenters (Some m) s
     = Defined (Ok tt,
                Some (mk_PresenterManager (presenters m ++ [text; table; chart 300%Z]))).
Proof.
  intros text table chart. destruct m as [ps]. cbn [presenters].
  pose proof (setup_views_app ps [] s) as Hviews.
  rewrite app_nil_r in Hviews. cbn [app length Nat.add] in Hviews.
  unfold CasinoStatistics_setupPresenters, CasinoBinStatistics_setupPresenters.
  rewrite Hviews. split; [reflexivity|].
  rewrite !with_presenter_app. cbn [alter list_alter setSize setScale]. reflexivity.
Qed.
End ViewFacts.

Lemma CasinoBinConverter_decode_throw {host : Host} (data : list byte) e :
  CasinoBinConverter_decode data = Throw e ->
  e = runtime_error "Invalid data size for double conversion" \/
  e = runtime_error "Expected count of 1 for single double conversion".
Proof.
  unfold CasinoBinConverter_decode.
  destruct (length data <? 4 + 8)%nat; [intros [= <-]; by left|].
  destruct (negb _); [intros [= <-]; by right|intros [=]].
Qed.

(** A frame the converter rejects ends [load()] without an error: the
    values before it are kept, the rest of the file is dropped, the
    call returns normally and the only trace is one line on
    [std::cerr]. *)
Theorem Reader_load_stops_at_bad_frame {host : Host} (fs : filesystem) (path : string)
    (values : list double) (bad rest : list byte) (e : exception) :
  path <> "" ->
  bad <> [] ->
  (N.of_nat (length bad) < UINT32_MOD)%N ->
  CasinoBinConverter_decode bad = Throw e ->
  fs !! path = Some (frames values ++ frame bad ++ rest) ->
  Reader_load fs (Reader_new (T:=double) (F:=BinFileIn) path)
  = Some (Ok tt,
          mk_Reader (mk_BinFileIn (mk_ifstream false [] false false)) values path false,
          [("Error reading file: Failed to read/convert data: " ++ what e)%string]).
Proof.
  intros Hpath Hbad Hlen Hdecode Hfile. unfold Reader_load, Reader_new, Reader_open.
  cbn [r_isOpen negb r_path r_file fin_open fin_new BinFileIn_FileIn].
  rewrite bool_decide_eq_false_2 by done.
  rewrite (BinFileIn_open_existing _ path _ Hfile).
  unfold Reader_flush. cbn [r_file r_data r_path r_isOpen].
  unfold pending, BinFileIn_Pending. cbn [bin_inFile in_pending].
  rewrite length_app, length_frames.
  replace (S (16 * length values + length (frame bad ++ rest)))
    with (length values + S (15 * length values + length (frame bad ++ rest)))%nat by lia.
  rewrite Reader_load_loop_frames_app.
  cbn [Reader_load_loop]. rewrite Reader_read_when_open by done.
  unfold Reader_read_opened. cbn [r_file fin_read BinFileIn_FileIn].
  rewrite BinFileIn_read_whole_frame by done.
  assert (unit_empty bad = false) as -> by (by destruct bad).
  cbn [convert_from CasinoBinConverter]. rewrite Hdecode.
  destruct (CasinoBinConverter_decode_throw _ _ Hdecode) as [-> | ->]; reflexivity.
Qed.

Lemma Reader_load_stops_at_bad_frame_witness :
  let host := little_endian_host in
  Reader_load
    {[ "f" := frames [first_double] ++ frame [x01; x02; x03] ++ frames [stale_double] ]}
    (Reader_new (T:=double) (F:=BinFileIn) "f")
  = Some (Ok tt,
          mk_Reader (mk_BinFileIn (mk_ifstream false [] false false)) [first_double] "f" false,
          ["Error reading file: Failed to read/convert data: Invalid data size for double conversion"]).
Proof.
  intros host.
  apply (Reader_load_stops_at_bad_frame _ "f" [first_double] [x01; x02; x03]
           (frames [stale_double])
           (runtime_error "Invalid data size for double conversion")).
  - discriminate.
  - discriminate.
  - reflexivity.
  - reflexivity.
  - reflexivity.
Defined.

(** ** [StatisticsManager] *)

Section StatisticsManagerFacts.
Context {S : Type} {istat : IStatistics S}.

(** The registry under a name that is not taken:
    [getStatistics] and [removeStatistics] raise "... not found." and
    change nothing; [addStatistics] stores the new object, after which
    [getStatistics] returns it, the count is one more and every other
    name answers as before; adding under the same name again raises
    "... already exists." and keeps the first object; and removing the
    name gives back the registry from before the addition. *)
Theorem StatisticsManager_add_get_remove (name : string) (stats other : S)
    (m : StatisticsManager S) :
  statisticsMap m !! name = None ->
  let added := mk_StatisticsManager (<[name := stats]> (statisticsMap m)) in
  let not_found :=
    runtime_error ("Statistics with name '" ++ name ++ "' not found.") in
  StatisticsManager_getStatistics name m = Throw not_found /\
  StatisticsManager_removeStatistics name m = (Throw not_found, m) /\
  StatisticsManager_addStatistics name stats m = (Ok stats, added) /\
  StatisticsManager_getStatistics name added = Ok stats /\
  StatisticsManager_count added = Datatypes.S (StatisticsManager_count m) /\
  (forall name', name' <> name ->
     StatisticsManager_getStatistics name' added = StatisticsManager_getStatistics name' m) /\
  StatisticsManager_addStatistics name other added
  = (Throw (runtime_error ("Statistics with name '" ++ name ++ "' already exists.")),
     added) /\
  StatisticsManager_removeStatistics name added = (Ok tt, m).
Proof.
  intros Hfresh added not_found. repeat split.
  - unfold StatisticsManager_getStatistics. by rewrite Hfresh.
  - unfold StatisticsManager_removeStatistics. by rewrite Hfresh.
  - unfold StatisticsManager_addStatistics. by rewrite Hfresh.
  - unfold StatisticsManager_getStatistics, added. cbn [statisticsMap].
    by rewrite lookup_insert_eq.
  - unfold StatisticsManager_count, added. cbn [statisticsMap].
    by rewrite map_size_insert_None.
  - intros name' Hne. unfold StatisticsManager_getStatistics, added. cbn [statisticsMap].
    by rewrite lookup_insert_ne.
  - unfold StatisticsManager_addStatistics, added. cbn [statisticsMap].
    by rewrite lookup_insert_eq.
  - unfold StatisticsManager_removeStatistics, added. cbn [statisticsMap].
    rewrite lookup_insert_eq, delete_insert_eq, delete_id by done. by destruct m.
Qed.

(** [processStatistics(name)] never adds or removes an entry and
    touches no statistics but the named one.  It answers [false]
    exactly when the name is not registered, and then nothing changes
    at all.  When the name is registered, the object stored under it
    afterwards is the one [processAllReplications] leaves, and the call
    answers [true] or raises what [processAllReplications] raised. *)
Theorem StatisticsManager_processStatistics_keeps_registry (fs : filesystem)
    (name : string) (m m' : StatisticsManager S) (res : result bool) :
  StatisticsManager_processStatistics fs name m = Some (res, m') ->
  dom (statisticsMap m') = dom (statisticsMap m) /\
  StatisticsManager_count m' = StatisticsManager_count m /\
  (forall name', name' <> name ->
     StatisticsManager_getStatistics name' m' = StatisticsManager_getStatistics name' m) /\
  (res = Ok false <-> statisticsMap m !! name = None) /\
  (res = Ok false -> m' = m) /\
  (forall stats, statisticsMap m !! name = Some stats ->
     exists outcome stats',
       IStatistics_processAllReplications fs stats = Some (outcome, stats') /\
       StatisticsManager_getStatistics name m' = Ok stats' /\
       res = match outcome with Ok _ => Ok true | Throw e => Throw e end).
Proof.
  unfold StatisticsManager_processStatistics.
  destruct (statisticsMap m !! name) as [stats|] eqn:Hname.
  - destruct (IStatistics_processAllReplications fs stats) as [[r stats']|] eqn:Hrun;
      [|intros [=]].
    intros Hres.
    assert (m' = mk_StatisticsManager (<[name := stats']> (statisticsMap m)) /\
            res = match r with Ok _ => Ok true | Throw e => Throw e end) as [-> ->].
    { destruct r; injection Hres as <- <-; split; done. }
    cbn [statisticsMap]. unfold StatisticsManager_count, StatisticsManager_getStatistics.
    cbn [statisticsMap]. repeat split.
    + apply dom_insert_lookup_L. by rewrite Hname.
    + apply map_size_insert_Some. by rewrite Hname.
    + intros name' Hne. by rewrite lookup_insert_ne.
    + by destruct r.
    + done.
    + by destruct r.
    + intros stats0 [= <-]. exists r, stats'. by rewrite lookup_insert_eq.
  - intros [= <- <-]. repeat split; done.
Qed.
End StatisticsManagerFacts.

Lemma StatisticsManager_add_get_remove_witness :
  let host := little_endian_host in
  let m : StatisticsManager CasinoBinStatistics := StatisticsManager_new in
  let stats : CasinoBinStatistics := CasinoStats_new in
  let added := mk_StatisticsManager (<[ "CasinoBinStats" := stats ]> (statisticsMap m)) in
  let not_found :=
    runtime_error ("Statistics with name '" ++ "CasinoBinStats" ++ "' not found.") in
  StatisticsManager_getStatistics "CasinoBinStats" m = Throw not_found /\
  StatisticsManager_removeStatistics "CasinoBinStats" m = (Throw not_found, m) /\
  StatisticsManager_addStatistics "CasinoBinStats" stats m = (Ok stats, added) /\
  StatisticsManager_getStatistics "CasinoBinStats" added = Ok stats /\
  StatisticsManager_count added = Datatypes.S (StatisticsManager_count m) /\
  (forall name', name' <> "CasinoBinStats" ->
     StatisticsManager_getStatistics name' added = StatisticsManager_getStatistics name' m) /\
  StatisticsManager_addStatistics "CasinoBinStats" (clearData stats) added
  = (Throw (runtime_error ("Statistics with name '" ++ "CasinoBinStats" ++ "' already exists.")),
     added) /\
  StatisticsManager_removeStatistics "CasinoBinStats" added = (Ok tt, m).
Proof.
  intros host m stats added not_found.
  apply (StatisticsManager_add_get_remove "CasinoBinStats" stats (clearData stats) m).
  reflexivity.
Defined.

Lemma StatisticsManager_processStatistics_keeps_registry_witness :
  let host := little_endian_host in
  let fl := example_FloatLib in
  let ft := example_FloatText in
  let fs : filesystem :=
    list_to_map
      [("/d/Rep1/ruleta_red.csv", frames [first_double; fresh_double]);
       ("/d/Rep1/ruleta_alt.csv", frames []);
       ("/d/Rep1/automat.csv", frames [stale_double]);
       ("/d/Rep1/blackjack_con.csv", frames []);
       ("/d/Rep1/blackjack_agg.csv", frames [fresh_double])] in
  let casino : CasinoBinStatistics :=
    (Statistics_loadFolders (fun _ => true) ["Rep1"]
       (Statistics_setBasePath "/d" CasinoStats_new)).2 in
  let other : CasinoBinStatistics :=
    (Statistics_loadFolders (fun _ => true) ["Rep7"]
       (Statistics_setBasePath "/e" CasinoStats_new)).2 in
  let m : StatisticsManager CasinoBinStatistics :=
    mk_StatisticsManager {[ "CasinoBinStats" := casino; "Other" := other ]} in
  let processed := fun fs0 name =>
    match StatisticsManager_processStatistics fs0 name m with
    | Some (_, m') => m'
    | None => m
    end in
  let failed : result bool :=
    Throw (runtime_error
             "Failed to open file: /e/Rep7/ruleta_red.csv (Failed to open file: /e/Rep7/ruleta_red.csv)") in
  let conclusion := fun fs0 name (res : result bool) m' =>
    dom (statisticsMap m') = dom (statisticsMap m) /\
    StatisticsManager_count m' = StatisticsManager_count m /\
    (forall name', name' <> name ->
       StatisticsManager_getStatistics name' m' = StatisticsManager_getStatistics name' m) /\
    (res = Ok false <-> statisticsMap m !! name = None) /\
    (res = Ok false -> m' = m) /\
    (forall stats, statisticsMap m !! name = Some stats ->
       exists outcome stats',
         IStatistics_processAllReplications fs0 stats = Some (outcome, stats') /\
         StatisticsManager_getStatistics name m' = Ok stats' /\
         res = match outcome with Ok _ => Ok true | Throw e => Throw e end) in
  (StatisticsManager_processStatistics fs "CasinoBinStats" m
   = Some (Ok true, processed fs "CasinoBinStats") /\
   armaVecs <$> statisticsMap m !! "CasinoBinStats" = Some [[]; []; []; []; []] /\
   armaVecs <$> statisticsMap (processed fs "CasinoBinStats") !! "CasinoBinStats"
   = Some [[first_double; fresh_double]; []; [stale_double]; []; [fresh_double]] /\
   statisticsMap (processed fs "CasinoBinStats") !! "Other" = Some other /\
   StatisticsManager_count (processed fs "CasinoBinStats") = 2%nat /\
   StatisticsManager_processStatistics fs "Other" m = Some (failed, processed fs "Other") /\
   StatisticsManager_processStatistics fs "Missing" m = Some (Ok false, m)) /\
  conclusion fs "CasinoBinStats" (Ok true) (processed fs "CasinoBinStats") /\
  conclusion fs "Other" failed (processed fs "Other") /\
  conclusion fs "Missing" (Ok false) m.
Proof.
  intros host fl ft fs casino other m processed failed conclusion.
  split; [|split; [|split]].
  - vm_compute. repeat split.
  - apply (StatisticsManager_processStatistics_keeps_registry fs "CasinoBinStats" m
             (processed fs "CasinoBinStats") (Ok true)).
    vm_compute. reflexivity.
  - apply (StatisticsManager_processStatistics_keeps_registry fs "Other" m
             (processed fs "Other") failed).
    vm_compute. reflexivity.
  - apply (StatisticsManager_processStatistics_keeps_registry fs "Missing" m m (Ok false)).
    vm_compute. reflexivity.
Defined.

(** ** Lines of the text transport *)

Lemma split_line_csv_line (bs rest : list byte) :
  newline ∉ bs -> split_line (bs ++ newline :: rest) = (bs, Some rest).
Proof.
  induction bs as [|b bs IH]; intros Hnot.
  - reflexivity.
  - cbn [app split_line].
    apply not_elem_of_cons in Hnot as [Hb Hbs].
    destruct (Byte.eqb b newline) eqn:E.
    + apply Byte.byte_dec_bl in E. congruence.
    + by rewrite IH.
Qed.

Lemma CSVFileIn_read_line o (text : string) (rest : list byte) :
  newline ∉ list_byte_of_string text ->
  CSVFileIn_read (mk_CSVFileIn (mk_ifstream o (csv_line text ++ rest) false false))
  = (Ok text, mk_CSVFileIn (mk_ifstream o rest false false)).
Proof.
  intros Hnot. unfold CSVFileIn_read, ifstream_getline, ifstream_good, csv_line.
  cbn [csv_inFile in_eofbit in_failbit in_pending in_is_open negb andb].
  rewrite <- app_assoc. cbn [app]. rewrite split_line_csv_line by done.
  cbn [in_failbit]. by rewrite string_of_list_byte_of_string.
Qed.

Lemma CSVFileIn_read_end o :
  CSVFileIn_read (mk_CSVFileIn (mk_ifstream o [] false false))
  = (Throw (runtime_error "End of file reached"),
     mk_CSVFileIn (mk_ifstream o [] true true)).
Proof. reflexivity. Qed.

Lemma CSVFileOut_write_open (fs : filesystem) path pos (data : string) content :
  fs !! path = Some content -> (pos <= length content)%nat ->
  CSVFileOut_write fs data (mk_CSVFileOut (mk_ofstream (Some path) pos false))
  = (Ok tt, <[path := overwrite pos (csv_line data) content]> fs,
     mk_CSVFileOut (mk_ofstream (Some path) (pos + length (csv_line data)) false)).
Proof.
  intros H Hpos. unfold CSVFileOut_write. cbn [csv_outFile out_failbit].
  pose proof (ofstream_write_twice fs path pos (list_byte_of_string data) [newline]
                content H Hpos) as Htwice.
  destruct (ofstream_write fs (list_byte_of_string data) _) as [fs1 s1].
  rewrite Htwice. fold (csv_line data).
  by rewrite (ofstream_write_open fs _ _ _ _ H).
Qed.

Section CSVRoundTrip.
Context {ft : FloatText}.

Lemma CSV_put_each_open (fs : filesystem) path p pos values content :
  fs !! path = Some content -> (pos <= length content)%nat ->
  Writer_put_each fs values
    (mk_Writer (mk_CSVFileOut (mk_ofstream (Some path) pos false)) p true)
  = (Ok tt, <[path := overwrite pos (csv_lines values) content]> fs,
     mk_Writer (mk_CSVFileOut
                  (mk_ofstream (Some path) (pos + length (csv_lines values)) false)) p true).
Proof.
  revert fs pos content. induction values as [|d vs IH]; intros fs pos content H Hpos.
  - cbn [Writer_put_each csv_lines map concat length].
    by rewrite overwrite_nil, insert_id, Nat.add_0_r.
  - cbn [Writer_put_each]. unfold Writer_put at 1.
    cbn [w_file w_path w_isOpen fout_write CSVFileOut_FileOut convert_to CasinoCSVConverter].
    rewrite (CSVFileOut_write_open fs path pos _ content) by done.
    rewrite (IH _ _ (overwrite pos (csv_line (format_fixed2 d)) content))
      by (apply lookup_insert_eq || (etrans; [|by apply length_overwrite]; lia)).
    rewrite insert_insert_eq, overwrite_app by done.
    change (csv_lines (d :: vs)) with (csv_line (format_fixed2 d) ++ csv_lines vs).
    by rewrite length_app, Nat.add_assoc.
Qed.

Lemma CSV_load_loop_lines fs fuel o values parsed tail data p cerr :
  Forall2 (fun v x => line_text (format_fixed2 v) /\ stod (format_fixed2 v) = Ok x)
    values parsed ->
  Reader_load_loop (length values + fuel) fs
    (mk_Reader (mk_CSVFileIn (mk_ifstream o (csv_lines values ++ tail) false false))
       data p true) cerr
  = Reader_load_loop fuel fs
      (mk_Reader (mk_CSVFileIn (mk_ifstream o tail false false))
         (data ++ parsed) p true) cerr.
Proof.
  intros Hall. revert data.
  induction Hall as [|v x values parsed [[Hne Hnl] Hstod] Hall IH]; intros data.
  - cbn [length Nat.add csv_lines map concat app]. by rewrite app_nil_r.
  - cbn [length Nat.add Reader_load_loop].
    rewrite Reader_read_when_open by done.
    unfold Reader_read_opened. cbn [r_file fin_read CSVFileIn_FileIn].
    change (csv_lines (v :: values)) with (csv_line (format_fixed2 v) ++ csv_lines values).
    rewrite <- app_assoc. rewrite CSVFileIn_read_line by done.
    assert (unit_empty (format_fixed2 v) = false) as ->
      by (by destruct (format_fixed2 v)).
    cbn [convert_from CasinoCSVConverter]. rewrite Hstod.
    unfold Reader_push_back. cbn [r_file r_data r_path r_isOpen].
    rewrite IH. by rewrite <- app_assoc.
Qed.

Lemma CSVFileOut_open_existing (fs : filesystem) path content :
  fs !! path = Some content ->
  CSVFileOut_open fs path (mk_CSVFileOut ofstream_new)
  = (Ok tt, fs, mk_CSVFileOut (mk_ofstream (Some path) 0 false)).
Proof.
  intros H. unfold CSVFileOut_open, CSVFileOut_close, ofstream_open, fopen.
  cbn. by rewrite H.
Qed.

Lemma CSVFileIn_open_existing (fs : filesystem) path content :
  fs !! path = Some content ->
  CSVFileIn_open fs path (mk_CSVFileIn ifstream_new)
  = (Ok tt, mk_CSVFileIn (mk_ifstream true content false false)).
Proof.
  intros H. unfold CSVFileIn_open, CSVFileIn_close, ifstream_open, fopen.
  cbn. by rewrite H.
Qed.

Lemma length_csv_lines_ge values : (length values <= length (csv_lines values))%nat.
Proof.
  induction values as [|v vs IH]; [done|].
  change (csv_lines (v :: vs)) with (csv_line (format_fixed2 v) ++ csv_lines vs).
  unfold csv_line at 1. rewrite !length_app. cbn [length]. lia.
Qed.

Lemma CSV_load_lines (fs : filesystem) path values parsed :
  path <> "" ->
  fs !! path = Some (csv_lines values) ->
  Forall2 (fun v x => line_text (format_fixed2 v) /\ stod (format_fixed2 v) = Ok x)
    values parsed ->
  Reader_load fs (Reader_new (T:=double) (F:=CSVFileIn) path)
  = Some (Ok tt,
          mk_Reader (mk_CSVFileIn (mk_ifstream false [] true true)) parsed path false, []).
Proof.
  intros Hpath Hfile Hall. unfold Reader_load, Reader_new, Reader_open.
  cbn [r_isOpen negb r_path r_file fin_open fin_new CSVFileIn_FileIn].
  rewrite bool_decide_eq_false_2 by done.
  rewrite (CSVFileIn_open_existing _ path _ Hfile).
  unfold Reader_flush. cbn [r_file r_data r_path r_isOpen].
  unfold pending, CSVFileIn_Pending. cbn [csv_inFile in_pending].
  pose proof (length_csv_lines_ge values) as Hge.
  replace (S (length (csv_lines values)))
    with (length values + S (length (csv_lines values) - length values))%nat by lia.
  rewrite <- (app_nil_r (csv_lines values)) at 2.
  rewrite (CSV_load_loop_lines _ _ _ values parsed) by done.
  cbn [Reader_load_loop]. rewrite Reader_read_when_open by done.
  unfold Reader_read_opened. cbn [r_file fin_read CSVFileIn_FileIn].
  rewrite CSVFileIn_read_end. reflexivity.
Qed.

(** Round trip through a text channel file that was no longer than
    the written lines: when every value prints as a non-empty text
    without a newline, the writer stores one line per value and the
    reader loads, in order, what [std::stod] makes of each line. *)
Theorem CSV_write_then_load (fs : filesystem) (path : string)
    (values parsed : list double) (old : list byte) :
  path <> "" ->
  fs !! path = Some old ->
  (length old <= length (csv_lines values))%nat ->
  Forall2 (fun v x => line_text (format_fixed2 v) /\ stod (format_fixed2 v) = Ok x)
    values parsed ->
  exists w1,
    Writer_write_range fs values (Writer_new (F:=CSVFileOut) path)
    = (Ok tt, <[path := csv_lines values]> fs, w1) /\
    Writer_close w1 = Writer_new path /\
    Reader_load (<[path := csv_lines values]> fs)
      (Reader_new (T:=double) (F:=CSVFileIn) path)
    = Some (Ok tt,
            mk_Reader (mk_CSVFileIn (mk_ifstream false [] true true)) parsed path false,
            []).
Proof.
  intros Hpath Hold Hlen Hall.
  unfold Writer_write_range, Writer_ensure_open, Writer_new, Writer_open.
  cbn [w_isOpen negb w_path w_file fout_open fout_new CSVFileOut_FileOut].
  rewrite bool_decide_eq_false_2 by done.
  rewrite (CSVFileOut_open_existing fs path old) by done.
  rewrite (CSV_put_each_open fs path path 0 values old) by (done || lia).
  assert (overwrite 0 (csv_lines values) old = csv_lines values) as ->.
  { unfold overwrite. cbn [take Nat.add app].
    rewrite drop_ge by lia. apply app_nil_r. }
  eexists. split; [reflexivity|]. split; [reflexivity|].
  apply (CSV_load_lines _ path values parsed); [done|apply lookup_insert_eq|done].
Qed.

(** An empty line ends [load()] on a text channel file: the values of
    the lines before it are kept, the lines after it are dropped, no
    error is raised and nothing is logged. *)
Theorem CSV_load_stops_at_blank_line (fs : filesystem) (path : string)
    (values parsed : list double) (rest : list byte) :
  path <> "" ->
  fs !! path = Some (csv_lines values ++ csv_line "" ++ rest) ->
  Forall2 (fun v x => line_text (format_fixed2 v) /\ stod (format_fixed2 v) = Ok x)
    values parsed ->
  Reader_load fs (Reader_new (T:=double) (F:=CSVFileIn) path)
  = Some (Ok tt,
          mk_Reader (mk_CSVFileIn (mk_ifstream false [] false false)) parsed path false,
          []).
Proof.
  intros Hpath Hfile Hall. unfold Reader_load, Reader_new, Reader_open.
  cbn [r_isOpen negb r_path r_file fin_open fin_new CSVFileIn_FileIn].
  rewrite bool_decide_eq_false_2 by done.
  rewrite (CSVFileIn_open_existing _ path _ Hfile).
  unfold Reader_flush. cbn [r_file r_data r_path r_isOpen].
  unfold pending, CSVFileIn_Pending. cbn [csv_inFile in_pending].
  pose proof (length_csv_lines_ge values) as Hge.
  rewrite length_app.
  replace (S (length (csv_lines values) + length (csv_line "" ++ rest)))
    with (length values
          + S (length (csv_lines values) - length values + length (csv_line "" ++ rest)))%nat
    by lia.
  rewrite (CSV_load_loop_lines _ _ _ values parsed) by done.
  cbn [Reader_load_loop]. rewrite Reader_read_when_open by done.
  unfold Reader_read_opened. cbn [r_file fin_read CSVFileIn_FileIn].
  rewrite CSVFileIn_read_line by (cbn; apply not_elem_of_nil).
  reflexivity.
Qed.
End CSVRoundTrip.

Lemma CSV_write_then_load_witness :
  let ft := example_FloatText in
  exists w1,
    Writer_write_range {[ "f" := [x41] ]} [first_double; fresh_double]
      (Writer_new (F:=CSVFileOut) "f")
    = (Ok tt, <[ "f" := csv_lines [first_double; fresh_double] ]> {[ "f" := [x41] ]}, w1) /\
    Writer_close w1 = Writer_new "f" /\
    Reader_load (<[ "f" := csv_lines [first_double; fresh_double] ]> {[ "f" := [x41] ]})
      (Reader_new (T:=double) (F:=CSVFileIn) "f")
    = Some (Ok tt,
            mk_Reader (mk_CSVFileIn (mk_ifstream false [] true true))
              [double_zero; double_zero] "f" false,
            []).
Proof.
  intros ft.
  apply (CSV_write_then_load (ft:=ft) {[ "f" := [x41] ]} "f" [first_double; fresh_double]
           [double_zero; double_zero] [x41]).
  - discriminate.
  - reflexivity.
  - vm_compute. lia.
  - repeat (apply Forall2_cons_2 || apply Forall2_nil_2);
      (split; [split; [discriminate|]|reflexivity]);
      vm_compute; intros H; repeat (apply elem_of_cons in H as [H|H]; [discriminate H|]);
      by apply elem_of_nil in H.
Defined.

Lemma CSV_load_stops_at_blank_line_witness :
  let ft := example_FloatText in
  Reader_load
    {[ "f" := csv_lines [first_double] ++ csv_line "" ++ csv_lines [fresh_double] ]}
    (Reader_new (T:=double) (F:=CSVFileIn) "f")
  = Some (Ok tt,
          mk_Reader (mk_CSVFileIn (mk_ifstream false [] false false)) [double_zero] "f" false,
          []).
Proof.
  intros ft.
  apply (CSV_load_stops_at_blank_line (ft:=ft) _ "f" [first_double] [double_zero]
           (csv_lines [fresh_double])).
  - discriminate.
  - reflexivity.
  - repeat (apply Forall2_cons_2 || apply Forall2_nil_2);
      (split; [split; [discriminate|]|reflexivity]);
      vm_compute; intros H; repeat (apply elem_of_cons in H as [H|H]; [discriminate H|]);
      by apply elem_of_nil in H.
Defined.

Section BinStatisticsAllFacts.
Context {host : Host} {fl : FloatLib} {ft : FloatText}.

Lemma processAll_from_collects fs base sb pre reps chanss vecs :
  (Z.of_nat (length (pre ++ reps)) <= INT_MAX)%Z ->
  Forall2 (replication_holds fs (length vecs)) reps chanss ->
  processAll_from (length reps) (N.of_nat (length pre)) fs
    (mk_CasinoStats (mk_InputManager (pre ++ reps) base) sb vecs)
  = Some (Ok tt,
          mk_CasinoStats
            (mk_InputManager (pre ++ zip_with drained_replication reps chanss) base) sb
            (fold_left collect chanss vecs)).
Proof.
  intros Hsize Hall. revert pre vecs chanss Hsize Hall.
  induction reps as [|rep reps IH]; intros pre vecs chanss Hsize Hall.
  - inversion Hall; subst. reflexivity.
  - inversion Hall as [|rep' channels reps' chanss' [Hrep Hlen] Hrest]; subst.
    cbn [length processAll_from].
    rewrite length_app in Hsize. cbn [length] in Hsize. unfold INT_MAX in Hsize.
    rewrite (processReplication_run fs (N.of_nat (length pre)) _ rep channels).
    + cbn [st_inputManager st_basePath armaVecs im_replications im_basePath].
      rewrite Nat2N.id.
      rewrite insert_app_r_alt by lia. rewrite Nat.sub_diag. cbn [insert list_insert].
      replace (N.of_nat (length pre) + 1)%N
        with (N.of_nat (length (pre ++ [drained_replication rep channels])))
        by (rewrite length_app; cbn [length]; lia).
      rewrite (cons_middle _ pre reps), app_assoc.
      rewrite (IH _ _ chanss').
      * cbn [zip_with fold_left]. by rewrite <- app_assoc.
      * rewrite !length_app. cbn [length]. unfold INT_MAX. lia.
      * rewrite length_collect by done. by rewrite <- Hlen in Hrest.
    + lia.
    + cbn [st_inputManager im_replications]. rewrite Nat2N.id.
      by apply list_lookup_middle.
    + done.
    + done.
Qed.

(** What [processAllReplications] collects: when the readers of every
    loaded replication are closed and every channel file holds exactly
    the frames of a list of values, the call succeeds and each
    aggregate vector receives the values of its channel, replication
    after replication in collection order. *)
Theorem processAllReplications_collects (fs : filesystem) (s : CasinoBinStatistics)
    (chanss : list (list (string * list double))) :
  (Z.of_nat (length (im_replications (st_inputManager s))) <= INT_MAX)%Z ->
  Forall2 (replication_holds fs (length (armaVecs s)))
    (im_replications (st_inputManager s)) chanss ->
  processAllReplications fs s
  = Some (Ok tt,
          mk_CasinoStats
            (mk_InputManager
               (zip_with drained_replication (im_replications (st_inputManager s)) chanss)
               (im_basePath (st_inputManager s)))
            (st_basePath s)
            (fold_left collect chanss (armaVecs s))).
Proof.
  intros Hsize Hall. destruct s as [[reps base] sb vecs].
  cbn [st_inputManager st_basePath armaVecs im_replications im_basePath] in *.
  exact (processAll_from_collects fs base sb [] reps chanss vecs Hsize Hall).
Qed.
End BinStatisticsAllFacts.

(** ** [writeResults] *)

Lemma lookup_store_all_notin (files : list (string * list byte)) (fs : filesystem) p :
  p ∉ map fst files -> store_all files fs !! p = fs !! p.
Proof.
  revert fs. induction files as [|[q c] files IH]; intros fs Hnot; [done|].
  cbn [map fst] in Hnot. apply not_elem_of_cons in Hnot as [Hne Hnot].
  cbn [store_all fold_left]. fold (store_all files (<[q := c]> fs)).
  rewrite IH by done. by rewrite lookup_insert_ne.
Qed.

Lemma lookup_store_all_in (files : list (string * list byte)) (fs : filesystem) p c :
  List.NoDup (map fst files) -> (p, c) ∈ files -> store_all files fs !! p = Some c.
Proof.
  revert fs. induction files as [|[q d] files IH]; intros fs Hnodup Hin.
  - by apply elem_of_nil in Hin.
  - cbn [map fst] in Hnodup. apply List.NoDup_cons_iff in Hnodup as [Hq Hnodup].
    cbn [store_all fold_left]. fold (store_all files (<[q := d]> fs)).
    apply elem_of_cons in Hin as [[= -> ->]|Hin].
    + rewrite lookup_store_all_notin by (by rewrite list_elem_of_In).
      apply lookup_insert_eq.
    + by apply IH.
Qed.

Section BinWriteResultsFacts.
Context {host : Host}.

Lemma Writer_write_fresh (fs : filesystem) (path : string) (v : double) (old : list byte) :
  path <> "" -> fs !! path = Some old ->
  Writer_write fs v (Writer_new (F:=BinFileOut) path)
  = (Ok tt, <[path := frame (CasinoBinConverter_encode v) ++ drop 16 old]> fs,
     writer_after_frame path).
Proof.
  intros Hpath Hold.
  unfold Writer_write, Writer_ensure_open, Writer_new, Writer_open.
  cbn [w_isOpen negb w_path w_file fout_open fout_new BinFileOut_FileOut].
  rewrite bool_decide_eq_false_2 by done.
  rewrite (BinFileOut_open_existing fs path old) by done.
  unfold Writer_put.
  cbn [w_file w_path w_isOpen fout_write BinFileOut_FileOut convert_to CasinoBinConverter].
  rewrite (BinFileOut_write_open fs path 0 _ old) by (done || lia).
  unfold overwrite. rewrite length_frame_encode. reflexivity.
Qed.

Lemma OutputManager_getWriter_middle {W} (pre : list W) w rest b n cn cp k :
  OutputManager_getWriter (Z.of_nat (length pre))
    (mk_OutputManager (pre ++ w :: rest) b n cn cp k) = Ok w.
Proof.
  unfold OutputManager_getWriter. cbn [om_writers].
  rewrite length_app. cbn [length].
  rewrite (proj2 (Z.ltb_ge _ _)) by lia.
  rewrite (proj2 (Z.leb_gt _ _)) by lia.
  cbn [orb]. rewrite Nat2Z.id. by rewrite list_lookup_middle.
Qed.

Lemma write_results_from_fresh (items : list (string * (double * list byte)))
    (fs : filesystem) (wpre : list CasinoBinWriter) (rpre extra : list double) b n cn cp k :
  length rpre = length wpre ->
  List.NoDup (map fst items) ->
  Forall (fun item => item.1 <> "" /\ fs !! item.1 = Some item.2.2) items ->
  write_results_from (seq (length wpre) (length items))
    (rpre ++ map (fun item => item.2.1) items ++ extra) fs
    (mk_OutputManager (wpre ++ map (fun item => Writer_new item.1) items) b n cn cp k)
  = Defined
      (Ok tt,
       store_all
         (map (fun item =>
                 (item.1, frame (CasinoBinConverter_encode item.2.1) ++ drop 16 item.2.2))
              items) fs,
       mk_OutputManager (wpre ++ map (fun item => writer_after_frame item.1) items)
         b n cn cp k).
Proof.
  revert fs wpre rpre.
  induction items as [|[path [v old]] items IH]; intros fs wpre rpre Hlen Hnodup Hall.
  - reflexivity.
  - cbn [map fst snd] in *. apply List.NoDup_cons_iff in Hnodup as [Hpath Hnodup].
    apply Forall_cons in Hall as [[Hne Hold] Hall]. cbn [fst snd] in Hne, Hold.
    cbn [length seq write_results_from app]. unfold write_result.
    rewrite OutputManager_getWriter_middle.
    rewrite (list_lookup_middle rpre _ v (length wpre)) by done.
    rewrite (Writer_write_fresh fs path v old) by done.
    cbn [om_writers om_basePath om_replicationName om_currentReplicationName
         om_currentReplicationPath om_counter].
    rewrite insert_app_r_alt by lia. rewrite Nat.sub_diag. cbn [insert list_insert].
    pose proof (IH (<[path := frame (CasinoBinConverter_encode v) ++ drop 16 old]> fs)
                  (wpre ++ [writer_after_frame path]) (rpre ++ [v])) as IH'.
    rewrite !length_app in IH'. cbn [length] in IH'. rewrite !Nat.add_1_r in IH'.
    rewrite <- !app_assoc in IH'. cbn [app] in IH'.
    rewrite IH'.
    + reflexivity.
    + lia.
    + done.
    + apply Forall_forall. intros item Hitem.
      rewrite Forall_forall in Hall. destruct (Hall item Hitem) as [Hne' Hold'].
      split; [done|]. rewrite lookup_insert_ne; [done|].
      intros ->. apply Hpath. apply list_elem_of_In, list_elem_of_fmap. by exists item.
Qed.

Lemma string_app_nonempty (a b : string) : b <> "" -> (a ++ b)%string <> "".
Proof. intros Hb. destruct a; [done|discriminate]. Qed.

Lemma channel_paths_NoDup (dir : string) :
  List.NoDup (map (fun file => (dir ++ file)%string) casino_channel_files).
Proof.
  apply Finite.Injective_map_NoDup.
  - intros x y H. by apply string_app_inv_head in H.
  - apply NoDup_ListNoDup. apply (bool_decide_unpack (NoDup casino_channel_files)).
    vm_compute. exact I.
Qed.

Lemma rep_readers_replication_of (base name : string) :
  rep_readers (replication_of (Rd:=CasinoBinReader) base name)
  = map (fun file => Reader_new (((base ++ name) ++ "/") ++ file)%string)
      casino_channel_files.
Proof.
  unfold replication_of, make_replication, Replication_init, CasinoBinReplication_init,
    Replication_setName, Replication_setBasePath, Replication_new.
  cbn [rep_basePath rep_name rep_readers]. rewrite with_final_slash_app_slash.
  reflexivity.
Qed.

(** From [main] to the aggregates.  When [newReplication()] succeeds
    and the five channel files of the new directory exist and hold at
    most one frame's worth of bytes, the storing statements of [main]
    with five values run to the end: [writeResults] succeeds and
    [closeAllWriters()] leaves the five writers closed.  No other file
    has changed, and each channel file holds exactly the frame of its
    value.  A new statistics object given the same base path that then
    loads the folder of that name and runs [processAllReplications]
    ends with exactly that value in each aggregate vector. *)
Theorem written_results_are_collected {fl : FloatLib} {ft : FloatText}
    (b : string) (env : directory_oracle) (om om1 : OutputManager CasinoBinWriter)
    (fs : filesystem) (olds : list (list byte)) (values extra : list double)
    (is_dir : string -> bool) :
  om_basePath om = with_final_slash b ->
  OutputManager_newReplication env om = Defined (Ok tt, om1) ->
  length values = 5%nat ->
  Forall2 (fun file old =>
             fs !! (om_currentReplicationPath om1 ++ file)%string = Some old /\
             (length old <= 16)%nat)
    casino_channel_files olds ->
  is_dir (with_final_slash b ++ om_currentReplicationName om1)%string = true ->
  exists fs' om3 s',
    main_store env (values ++ extra) fs om = Defined (Ok tt, fs', om3) /\
    om_writers om3 = init_writers (om_currentReplicationPath om1) /\
    Forall (fun w => w_isOpen w = false /\ ofstream_is_open (bin_outFile (w_file w)) = false)
      (om_writers om3) /\
    (forall p,
        p ∉ map (fun file => (om_currentReplicationPath om1 ++ file)%string)
              casino_channel_files ->
        fs' !! p = fs !! p) /\
    Forall2 (fun file v =>
               fs' !! (om_currentReplicationPath om1 ++ file)%string = Some (frames [v]))
      casino_channel_files values /\
    processAllReplications fs'
      (Statistics_loadFolders is_dir [om_currentReplicationName om1]
         (Statistics_setBasePath b (CasinoStats_new (F:=BinFileIn)))).2
    = Some (Ok tt, s') /\
    armaVecs s' = map (fun v => [v]) values.
Proof.
  intros Hbase Hnew Hvalues Holds Hdir.
  unfold main_store. rewrite Hnew.
  destruct (newReplication_ok_state _ _ _ Hnew) as (_ & Hpath & Hwriters & Hbase1).
  destruct om1 as [writers b1 n1 name dir k1].
  cbn [om_writers om_basePath om_replicationName om_counter
       om_currentReplicationName om_currentReplicationPath] in *.
  destruct values as [|v0 [|v1 [|v2 [|v3 [|v4 [|]]]]]]; try discriminate Hvalues.
  unfold casino_channel_files in Holds.
  repeat match goal with
         | H : Forall2 _ (_ :: _) _ |- _ =>
             apply Forall2_cons_inv_l in H as (? & ? & [? ?] & H & ->)
         | H : Forall2 _ [] _ |- _ => apply Forall2_nil_inv_l in H as ->
         end.
  match goal with
  | H0 : fs !! (dir ++ "ruleta_red.csv")%string = Some ?o0,
    H1 : fs !! (dir ++ "ruleta_alt.csv")%string = Some ?o1,
    H2 : fs !! (dir ++ "automat.csv")%string = Some ?o2,
    H3 : fs !! (dir ++ "blackjack_con.csv")%string = Some ?o3,
    H4 : fs !! (dir ++ "blackjack_agg.csv")%string = Some ?o4 |- _ =>
      set (items :=
             [((dir ++ "ruleta_red.csv")%string, (v0, o0));
              ((dir ++ "ruleta_alt.csv")%string, (v1, o1));
              ((dir ++ "automat.csv")%string, (v2, o2));
              ((dir ++ "blackjack_con.csv")%string, (v3, o3));
              ((dir ++ "blackjack_agg.csv")%string, (v4, o4))])
  end.
  assert (List.NoDup (map fst items)) as Hnodup by apply (channel_paths_NoDup dir).
  assert (Forall (fun item => item.1 <> "" /\ fs !! item.1 = Some item.2.2) items) as Hitems.
  { subst items. repeat (apply Forall_cons_2 || apply Forall_nil_2);
      (split; [by apply string_app_nonempty|done]). }
  pose proof (write_results_from_fresh items fs [] [] extra
                b1 n1 name dir k1 eq_refl Hnodup Hitems) as Hwrite.
  set (fs' := store_all _ fs) in Hwrite.
  assert (forall item, item ∈ items ->
            fs' !! item.1 = Some (frames [item.2.1])) as Hfiles.
  { intros item Hitem. subst fs'.
    rewrite (lookup_store_all_in _ _ item.1
               (frame (CasinoBinConverter_encode item.2.1) ++ drop 16 item.2.2)).
    - rewrite Forall_forall in Hitems.
      f_equal. unfold frames. cbn [map concat]. f_equal.
      apply drop_ge.
      subst items.
      repeat (apply elem_of_cons in Hitem as [->|Hitem]; [done|]).
      by apply elem_of_nil in Hitem.
    - by rewrite map_map.
    - apply list_elem_of_fmap. by exists item. }
  assert (forall p v o, (p, (v, o)) ∈ items -> fs' !! p = Some (frames [v])) as Hfile
    by (intros p v o Hin; exact (Hfiles _ Hin)).
  assert (writeResults ([v0; v1; v2; v3; v4] ++ extra) fs
            (mk_OutputManager writers b1 n1 name dir k1)
          = Defined (Ok tt, fs',
                     mk_OutputManager ([] ++ map (fun item => writer_after_frame item.1) items)
                       b1 n1 name dir k1)) as ->.
  { unfold writeResults. rewrite Hwriters. exact Hwrite. }
  eexists fs', _, _. split; [reflexivity|]. split; [|split; [|split; [|split; [|split]]]].
  - reflexivity.
  - subst items. cbn.
    repeat (apply Forall_cons_2 || apply Forall_nil_2); by split.
  - intros p Hp. subst fs'. apply lookup_store_all_notin. by rewrite map_map.
  - unfold casino_channel_files. subst items.
    repeat (apply Forall2_cons_2 || apply Forall2_nil_2); cbn beta;
      match goal with
      | |- fs' !! ?p = Some (frames [?v]) =>
          match goal with
          | H : fs !! p = Some ?o |- _ => apply (Hfile p v o)
          end
      end;
      apply list_elem_of_In; cbn [In]; auto 10.
  - unfold Statistics_loadFolders, Statistics_setBasePath, CasinoStats_new.
    cbn [st_inputManager st_basePath armaVecs InputManager_loadFolders].
    rewrite loadSpecificReplication_present by exact Hdir.
    cbn [snd InputManager_setBasePath InputManager_new im_replications im_basePath app].
    assert (Forall2 (replication_holds fs' 5)
              [replication_of (Rd:=CasinoBinReader) (with_final_slash b) name]
              [map (fun item => (item.1, [item.2.1])) items]) as Hholds.
    { apply Forall2_cons_2; [|apply Forall2_nil_2].
      split; [|reflexivity].
      rewrite rep_readers_replication_of.
      assert (((with_final_slash b ++ name) ++ "/")%string = dir) as ->.
      { rewrite Hpath, Hbase. symmetry. apply string_app_assoc. }
      subst items. cbn [map casino_channel_files fst snd].
      repeat (apply Forall2_cons_2 || apply Forall2_nil_2);
        (split; [repeat split|split; [by apply string_app_nonempty|]]); cbn [fst snd];
        match goal with
        | |- fs' !! ?p = Some (frames [?v]) =>
            match goal with
            | H : fs !! p = Some ?o |- _ =>
                apply (Hfile p v o)
            end
        end;
        apply list_elem_of_In; cbn [In]; auto 10. }
    pose proof (processAll_from_collects fs' (with_final_slash b) b []
                  [replication_of (Rd:=CasinoBinReader) (with_final_slash b) name]
                  [map (fun item => (item.1, [item.2.1])) items]
                  (replicate 5 []) ltac:(cbn; unfold INT_MAX; lia) Hholds) as Hrun.
    exact Hrun.
  - reflexivity.
Qed.
End BinWriteResultsFacts.

Lemma processAllReplications_collects_witness :
  let host := little_endian_host in
  let fl := example_FloatLib in
  let ft := example_FloatText in
  let fs : filesystem :=
    list_to_map
      [("/d/Rep1/ruleta_red.csv", frames [first_double; fresh_double]);
       ("/d/Rep1/ruleta_alt.csv", frames []);
       ("/d/Rep1/automat.csv", frames [stale_double]);
       ("/d/Rep1/blackjack_con.csv", frames []);
       ("/d/Rep1/blackjack_agg.csv", frames [fresh_double]);
       ("/d/Rep2/ruleta_red.csv", frames [stale_double]);
       ("/d/Rep2/ruleta_alt.csv", frames [stale_double]);
       ("/d/Rep2/automat.csv", frames []);
       ("/d/Rep2/blackjack_con.csv", frames []);
       ("/d/Rep2/blackjack_agg.csv", frames [])] in
  let chanss :=
    [[("/d/Rep1/ruleta_red.csv", [first_double; fresh_double]);
      ("/d/Rep1/ruleta_alt.csv", []);
      ("/d/Rep1/automat.csv", [stale_double]);
      ("/d/Rep1/blackjack_con.csv", []);
      ("/d/Rep1/blackjack_agg.csv", [fresh_double])];
     [("/d/Rep2/ruleta_red.csv", [stale_double]);
      ("/d/Rep2/ruleta_alt.csv", [stale_double]);
      ("/d/Rep2/automat.csv", []);
      ("/d/Rep2/blackjack_con.csv", []);
      ("/d/Rep2/blackjack_agg.csv", [])]] in
  let s : CasinoBinStatistics :=
    (Statistics_loadFolders (fun _ => true) ["Rep1"; "Rep2"]
       (Statistics_setBasePath "/d" CasinoStats_new)).2 in
  processAllReplications fs s
  = Some (Ok tt,
          mk_CasinoStats
            (mk_InputManager
               (zip_with drained_replication (im_replications (st_inputManager s)) chanss)
               "/d/")
            "/d"
            [[first_double; fresh_double; stale_double]; [stale_double]; [stale_double];
             []; [fresh_double]]).
Proof.
  intros host fl ft fs chanss s.
  assert (Forall2 (replication_holds fs (length (armaVecs s)))
            (im_replications (st_inputManager s)) chanss) as Hall.
  { repeat (apply Forall2_cons_2 || apply Forall2_nil_2);
      (split; [|reflexivity]);
      repeat (apply Forall2_cons_2 || apply Forall2_nil_2);
      (split; [|split]); vm_compute; (reflexivity || discriminate || (repeat split)). }
  exact (processAllReplications_collects fs s chanss
           ltac:(vm_compute; discriminate) Hall).
Defined.

Lemma written_results_are_collected_witness :
  let host := little_endian_host in
  let fl := example_FloatLib in
  let ft := example_FloatText in
  let om : OutputManager CasinoBinWriter :=
    OutputManager_setName "Replication"
      (OutputManager_setBasePath "/results" OutputManager_new) in
  let om1 : OutputManager CasinoBinWriter :=
    mk_OutputManager (init_writers "/results/Replication1/") "/results/" "Replication"
      "Replication1" "/results/Replication1/" 2 in
  let fs : filesystem :=
    list_to_map
      [("/results/Replication1/ruleta_red.csv", frames [stale_double]);
       ("/results/Replication1/ruleta_alt.csv", []);
       ("/results/Replication1/automat.csv", take 9 (frames [stale_double]));
       ("/results/Replication1/blackjack_con.csv", []);
       ("/results/Replication1/blackjack_agg.csv", []);
       ("/results/Replication1/notes.txt", [x01])] in
  let values := [first_double; fresh_double; stale_double; first_double; fresh_double] in
  exists fs' om3 s',
    main_store dir_exists (values ++ []) fs om = Defined (Ok tt, fs', om3) /\
    om_writers om3 = init_writers (om_currentReplicationPath om1) /\
    Forall (fun w => w_isOpen w = false /\ ofstream_is_open (bin_outFile (w_file w)) = false)
      (om_writers om3) /\
    (forall p,
        p ∉ map (fun file => (om_currentReplicationPath om1 ++ file)%string)
              casino_channel_files ->
        fs' !! p = fs !! p) /\
    Forall2 (fun file v =>
               fs' !! (om_currentReplicationPath om1 ++ file)%string = Some (frames [v]))
      casino_channel_files values /\
    processAllReplications fs'
      (Statistics_loadFolders (fun _ => true) [om_currentReplicationName om1]
         (Statistics_setBasePath "/results" (CasinoStats_new (F:=BinFileIn)))).2
    = Some (Ok tt, s') /\
    armaVecs s' = map (fun v => [v]) values.
Proof.
  intros host fl ft om om1 fs values.
  apply (written_results_are_collected "/results" dir_exists om om1 fs
           [frames [stale_double]; []; take 9 (frames [stale_double]); []; []]
           values [] (fun _ => true)).
  - reflexivity.
  - reflexivity.
  - reflexivity.
  - repeat (apply Forall2_cons_2 || apply Forall2_nil_2);
      (split; [reflexivity|cbn; lia]).
  - reflexivity.
Defined.

Lemma Writer_write_missing {host : Host} (fs : filesystem) (path : string) (v : double) :
  path <> "" -> fs !! path = None ->
  Writer_write fs v (Writer_new (F:=BinFileOut) path)
  = (Throw (runtime_error
              ("Failed to open file: " ++ path ++ " (" ++ ("Failed to open file: " ++ path)
               ++ ")")),
     fs, mk_Writer (mk_BinFileOut (mk_ofstream None 0 true)) path false).
Proof.
  intros Hpath Hnone.
  unfold Writer_write, Writer_ensure_open, Writer_new, Writer_open.
  cbn [w_isOpen negb w_path w_file fout_open fout_new BinFileOut_FileOut].
  rewrite bool_decide_eq_false_2 by done.
  unfold BinFileOut_open, BinFileOut_close, ofstream_open, fopen. cbn. rewrite Hnone.
  reflexivity.
Qed.

(** How [writeResults] fails on a manager that has no writers yet:
    before [newReplication()] it raises [std::out_of_range]; after a
    successful [newReplication()] into a directory without the first
    channel file it raises a [std::runtime_error] naming that file and
    leaves the file system as it was, since the writers do not create
    files; and with an empty result vector its behaviour is undefined. *)
Theorem writeResults_failures {host : Host} (results : list double) (fs : filesystem)
    (env : directory_oracle) (om om1 : OutputManager CasinoBinWriter) :
  om_writers om = [] ->
  OutputManager_newReplication env om = Defined (Ok tt, om1) ->
  fs !! (om_currentReplicationPath om1 ++ "ruleta_red.csv")%string = None ->
  let file := (om_currentReplicationPath om1 ++ "ruleta_red.csv")%string in
  writeResults results fs om = Defined (Throw (out_of_range "Index out of range"), fs, om) /\
  writeResults [] fs om1 = Undefined /\
  (results <> [] ->
   exists om2,
     writeResults results fs om1
     = Defined (Throw (runtime_error
                         ("Failed to open file: " ++ file ++ " ("
                          ++ ("Failed to open file: " ++ file) ++ ")")),
                fs, om2)).
Proof.
  intros Hnone Hnew Hmissing file. split; [|split].
  - unfold writeResults. cbn [write_results_from]. unfold write_result.
    unfold OutputManager_getWriter. rewrite Hnone. reflexivity.
  - destruct (newReplication_ok_state _ _ _ Hnew) as (_ & _ & Hwriters & _).
    destruct om1 as [writers b1 n1 name dir k1].
    cbn [om_writers om_currentReplicationPath] in *. subst writers. reflexivity.
  - destruct (newReplication_ok_state _ _ _ Hnew) as (_ & _ & Hwriters & _).
    destruct om1 as [writers b1 n1 name dir k1].
    cbn [om_writers om_currentReplicationPath] in *. subst writers file.
    intros Hres. destruct results as [|v results]; [done|].
    unfold writeResults. cbn [write_results_from]. unfold write_result.
    change (OutputManager_getWriter (Z.of_nat 0)
              (mk_OutputManager (init_writers dir) b1 n1 name dir k1))
      with (Ok (Writer_new (F:=BinFileOut) (dir ++ "ruleta_red.csv"))).
    cbn [lookup list_lookup].
    rewrite Writer_write_missing by (done || by apply string_app_nonempty).
    eexists. reflexivity.
Qed.

Lemma writeResults_failures_witness :
  let host := little_endian_host in
  let om : OutputManager CasinoBinWriter :=
    OutputManager_setName "Replication"
      (OutputManager_setBasePath "/results" OutputManager_new) in
  let om1 : OutputManager CasinoBinWriter :=
    mk_OutputManager (init_writers "/results/Replication1/") "/results/" "Replication"
      "Replication1" "/results/Replication1/" 2 in
  let file := "/results/Replication1/ruleta_red.csv" in
  writeResults [first_double] ∅ om
  = Defined (Throw (out_of_range "Index out of range"), ∅, om) /\
  writeResults [] ∅ om1 = Undefined /\
  ([first_double] <> [] ->
   exists om2,
     writeResults [first_double] ∅ om1
     = Defined (Throw (runtime_error
                         ("Failed to open file: " ++ file ++ " ("
                          ++ ("Failed to open file: " ++ file) ++ ")")),
                ∅, om2)).
Proof.
  intros host om om1 file.
  apply (writeResults_failures [first_double] ∅ dir_creatable om om1).
  - reflexivity.
  - reflexivity.
  - reflexivity.
Defined.
